(** * sized_any: a type-erased container with a configurable inline buffer

    Shallow embedding of [kmillet::sized_any<N>]
    (include/kmillet/sized_any/sized_any.hpp) and of the older header
    (sized_any.hpp) where the two differ.

    - a contained C++ type is a record of the static facts the code asks
      about it ([sizeof], [std::is_nothrow_move_constructible_v]);
    - a buffer is a tagged slot: raw storage, a live object constructed in
      place, or a pointer; reading a slot under the wrong interpretation is
      undefined behaviour ([UB]);
    - the free store is a finite map from block addresses to blocks, with an
      allocation budget so that [operator new] can fail with [bad_alloc];
    - every constructor call, destructor call, allocation and deallocation is
      appended to a trace;
    - the constructors of a contained type are part of that type and may
      throw: the operations that call them take an instance of
      [Constructors], which says when they do. *)

From Stdlib Require Import ZArith Lia Bool List.
From stdpp Require Import base decidable option strings gmap.
Import ListNotations.

(** ** Contained types and the per-type descriptor *)

Definition addr := nat.

(** [sizeof(void* )] on the platforms the library targets. *)
Definition pointer_size : nat := 8.

Record CType : Type := mkCType {
  type_name : string;                       (* typeid(T) *)
  sizeof : nat;                             (* sizeof(T) *)
  is_nothrow_move_constructible : bool;     (* std::is_nothrow_move_constructible_v<T> *)
  holds_interior_pointer : bool             (* T keeps a pointer into its own storage *)
}.

#[global] Instance CType_eq_dec : EqDecision CType.
Proof. solve_decision. Defined.

(** [TypeInfo<T>::Size] and [TypeInfo<T>::NeedsAlloc]. *)
Definition Size (T : CType) : nat := sizeof T.

Definition NeedsAlloc (T : CType) (cap : nat) : bool :=
  (cap <? sizeof T) || negb (is_nothrow_move_constructible T).

(** A descriptor pointer: the address of [info<void>] or of [info<T>]. *)
Inductive ITypeInfo : Type :=
  | info_void
  | info_of (T : CType).

#[global] Instance ITypeInfo_eq_dec : EqDecision ITypeInfo.
Proof. solve_decision. Defined.

Definition type (i : ITypeInfo) : string :=
  match i with info_void => "void" | info_of T => type_name T end.

Definition size (i : ITypeInfo) : nat :=
  match i with info_void => 0 | info_of T => Size T end.

Definition needsAlloc (i : ITypeInfo) (cap : nat) : bool :=
  match i with info_void => false | info_of T => NeedsAlloc T cap end.

(** [sized_any_optimized<T, N>] *)
Definition sized_any_optimized (T : CType) (N : nat) : bool := negb (NeedsAlloc T N).

(** ** Storage *)

(** Where an object lives: the buffer of the container at an address, the
    buffer of the unnamed temporary container an assignment builds, the local
    array [tmp] of [swap], or a block of the free store. *)
Inductive loc : Type :=
  | in_buffer (a : addr)
  | in_temporary
  | in_swap_tmp
  | on_heap (p : addr).

#[global] Instance loc_eq_dec : EqDecision loc.
Proof. solve_decision. Defined.

(** The content of a [std::array<char, N>] buffer.  [obj T v self] is a live
    [T] of value [v] whose interior pointers (if it has any) refer to the
    storage at [self]. *)
Inductive slot : Type :=
  | raw
  | obj (T : CType) (v : Z) (self : loc)
  | ptr (p : addr).

#[global] Instance slot_eq_dec : EqDecision slot.
Proof. solve_decision. Defined.

(** A block of the free store: a live object, or storage whose object has
    been destroyed but which has not been deallocated. *)
Inductive block : Type :=
  | live (T : CType) (v : Z)
  | dead (sz : nat).

Inductive ctor_kind : Type := direct_init | copy_ctor | move_ctor.

Inductive event : Type :=
  | ev_alloc (p : addr) (sz : nat)
  | ev_free (p : addr)
  | ev_ctor (k : ctor_kind) (T : CType) (l : loc)
  | ev_dtor (T : CType) (l : loc).

#[global] Instance ctor_kind_eq_dec : EqDecision ctor_kind.
Proof. solve_decision. Defined.

#[global] Instance event_eq_dec : EqDecision event.
Proof. solve_decision. Defined.

(** [template<std::size_t N> class sized_any]: the capacity is part of the
    object's type, [info] and [buff] are its two members. *)
Record sized_any : Type := mk_any {
  capacity : nat;
  info : ITypeInfo;
  buff : slot
}.

Record state : Type := mk_state {
  objects : gmap addr sized_any;    (* the containers, by address *)
  heap : gmap addr block;           (* the free store *)
  next_block : addr;                (* next address operator new hands out *)
  alloc_budget : nat;               (* allocations that still succeed *)
  trace : list event
}.

(** [std::bad_alloc], [std::bad_any_cast], and whatever else a constructor of
    a contained type throws. *)
Inductive exn : Type := bad_alloc | bad_any_cast | other_exception (id : nat).

Inductive outcome (A : Type) : Type :=
  | Ok (a : A) (s : state)
  | Throw (e : exn) (s : state)
  | UB.
Arguments Ok {A} a s.
Arguments Throw {A} e s.
Arguments UB {A}.

Definition M (A : Type) : Type := state -> outcome A.

Definition ret {A} (a : A) : M A := fun s => Ok a s.

Definition bind {A B} (m : M A) (k : A -> M B) : M B :=
  fun s => match m s with
           | Ok a s' => k a s'
           | Throw e s' => Throw e s'
           | UB => UB
           end.

Notation "'let*' x ':=' m 'in' k" := (bind m (fun x => k))
  (at level 10, x pattern, m at level 200, k at level 200).

Definition undefined {A} : M A := fun _ => UB.
Definition throw {A} (e : exn) : M A := fun s => Throw e s.

Definition emit (e : event) : M unit :=
  fun s => Ok tt (mk_state (objects s) (heap s) (next_block s) (alloc_budget s)
                           (trace s ++ [e])).

Definition set_heap (h : gmap addr block) (s : state) : state :=
  mk_state (objects s) h (next_block s) (alloc_budget s) (trace s).

Definition set_objects (o : gmap addr sized_any) (s : state) : state :=
  mk_state o (heap s) (next_block s) (alloc_budget s) (trace s).

(** ** The constructors of the contained types

    [sized_any] is a template over the contained type, and the constructors
    of that type are part of it; they may throw.  [ctor_throws k T v s] is
    the exception the constructor of [T] named by [k] throws when it is
    asked, in the state [s], to build the value [v]; [None] when it returns.
    A move constructor declared [noexcept] returns. *)
Class Constructors : Type := {
  ctor_throws : ctor_kind -> CType -> Z -> state -> option exn;
  nothrow_move_returns T v s :
    is_nothrow_move_constructible T = true -> ctor_throws move_ctor T v s = None
}.

(** A call of the constructor of [T] named by [k], on storage at [l]. *)
Definition run_ctor {C : Constructors} (k : ctor_kind) (T : CType) (l : loc) (v : Z)
  : M unit :=
  fun s => match ctor_throws k T v s with
           | Some e => Throw e s
           | None => emit (ev_ctor k T l) s
           end.

(** What a new-expression leaves behind when the allocation succeeded and
    the constructor threw: the block has been given back. *)
Definition failed_new (T : CType) (s : state) : state :=
  mk_state (objects s) (heap s) (S (next_block s)) (pred (alloc_budget s))
           (trace s ++ [ev_alloc (next_block s) (sizeof T);
                        ev_free (next_block s)]).

(** [new T(...)] where the constructor named by [k] may throw: allocation,
    then the constructor; when it throws the block is deallocated and the
    exception propagates. *)
Definition new_object {C : Constructors} (k : ctor_kind) (T : CType) (v : Z) : M addr :=
  fun s => match alloc_budget s with
           | O => Throw bad_alloc s
           | S n =>
               match ctor_throws k T v s with
               | Some e => Throw e (failed_new T s)
               | None =>
                   let p := next_block s in
                   Ok p (mk_state (objects s) (<[p := live T v]> (heap s)) (S p) n
                                  (trace s ++ [ev_alloc p (sizeof T); ev_ctor k T (on_heap p)]))
               end
           end.

(** [new T(...)] where the constructor named by [k] is known to return:
    allocation, then the constructor. *)
Definition operator_new (k : ctor_kind) (T : CType) (v : Z) : M addr :=
  fun s => match alloc_budget s with
           | O => Throw bad_alloc s
           | S n =>
               let p := next_block s in
               Ok p (mk_state (objects s) (<[p := live T v]> (heap s)) (S p) n
                              (trace s ++ [ev_alloc p (sizeof T); ev_ctor k T (on_heap p)]))
           end.

(** [*p] for [p : T*] into the free store. *)
Definition deref (T : CType) (p : addr) : M Z :=
  fun s => match heap s !! p with
           | Some (live T' v) => if decide (T' = T) then Ok v s else UB
           | _ => UB
           end.

(** [p->~T()] on the free store: the block stays allocated. *)
Definition destroy_at (T : CType) (p : addr) : M unit :=
  let* _ := deref T p in
  let* _ := emit (ev_dtor T (on_heap p)) in
  fun s => Ok tt (set_heap (<[p := dead (sizeof T)]> (heap s)) s).

(** [delete p]: destructor, then deallocation. *)
Definition operator_delete (T : CType) (p : addr) : M unit :=
  let* _ := deref T p in
  let* _ := emit (ev_dtor T (on_heap p)) in
  let* _ := emit (ev_free p) in
  fun s => Ok tt (set_heap (delete p (heap s)) s).

(** [new (p) T(...)] into destroyed storage of the free store. *)
Definition construct_at {C : Constructors} (k : ctor_kind) (T : CType) (p : addr) (v : Z)
  : M unit :=
  fun s => match heap s !! p with
           | Some (dead sz) =>
               if decide (sizeof T <= sz) then
                 match ctor_throws k T v s with
                 | Some e => Throw e s
                 | None =>
                     Ok tt (mk_state (objects s) (<[p := live T v]> (heap s)) (next_block s)
                                     (alloc_budget s) (trace s ++ [ev_ctor k T (on_heap p)]))
                 end
               else UB
           | _ => UB
           end.

(** [*reinterpret_cast<T*>(b)] and [*reinterpret_cast<void**>(b)]. *)
Definition read_obj (T : CType) (b : slot) : M Z :=
  match b with
  | obj T' v _ => if decide (T' = T) then ret v else undefined
  | _ => undefined
  end.

Definition read_ptr (b : slot) : M addr :=
  match b with
  | ptr p => ret p
  | _ => undefined
  end.

(** ** [TypeInfo<T>]: the storage operations

    Each takes the two buffers (with their locations) and returns them as
    they are afterwards, source first. *)

Definition Copy {C : Constructors} (T : CType) (lto : loc) (from to : slot) (fromCap toCap : nat)
  : M (slot * slot) :=
  if NeedsAlloc T toCap then
    if NeedsAlloc T fromCap then
      let* q := read_ptr from in
      let* v := deref T q in
      let* p := new_object copy_ctor T v in
      ret (from, ptr p)
    else
      let* v := read_obj T from in
      let* p := new_object copy_ctor T v in
      ret (from, ptr p)
  else if NeedsAlloc T fromCap then
    let* q := read_ptr from in
    let* v := deref T q in
    let* _ := run_ctor copy_ctor T lto v in
    ret (from, obj T v lto)
  else
    let* v := read_obj T from in
    let* _ := run_ctor copy_ctor T lto v in
    ret (from, obj T v lto).

Definition Move (T : CType) (lfrom lto : loc) (from to : slot) (fromCap toCap : nat)
  : M (slot * slot) :=
  if NeedsAlloc T toCap then
    if NeedsAlloc T fromCap then
      let* q := read_ptr from in
      ret (from, ptr q)
    else
      let* v := read_obj T from in
      let* p := operator_new move_ctor T v in
      let* _ := emit (ev_dtor T lfrom) in
      ret (raw, ptr p)
  else if NeedsAlloc T fromCap then
    let* q := read_ptr from in
    let* v := deref T q in
    let* _ := emit (ev_ctor move_ctor T lto) in
    let* _ := operator_delete T q in
    ret (from, obj T v lto)
  else
    let* v := read_obj T from in
    let* _ := emit (ev_ctor move_ctor T lto) in
    let* _ := emit (ev_dtor T lfrom) in
    ret (raw, obj T v lto).

Definition DestructReuseHeap (T : CType) (b : slot) : M slot :=
  let* p := read_ptr b in
  let* _ := destroy_at T p in
  ret b.

Definition CleanUp (T : CType) (l : loc) (b : slot) (cap : nat) : M slot :=
  if NeedsAlloc T cap then
    let* p := read_ptr b in
    let* _ := operator_delete T p in
    ret b
  else
    let* _ := read_obj T b in
    let* _ := emit (ev_dtor T l) in
    ret raw.

(** ** [ITypeInfo]: dispatch through the descriptor pointer.
    [TypeInfo<void>] does nothing in every operation. *)

Definition copy {C : Constructors} (i : ITypeInfo) (lto : loc) (from to : slot) (fromCap toCap : nat)
  : M (slot * slot) :=
  match i with
  | info_void => ret (from, to)
  | info_of T => Copy T lto from to fromCap toCap
  end.

Definition move (i : ITypeInfo) (lfrom lto : loc) (from to : slot) (fromCap toCap : nat)
  : M (slot * slot) :=
  match i with
  | info_void => ret (from, to)
  | info_of T => Move T lfrom lto from to fromCap toCap
  end.

Definition destructReuseHeap (i : ITypeInfo) (b : slot) : M slot :=
  match i with
  | info_void => ret b
  | info_of T => DestructReuseHeap T b
  end.

Definition cleanUp (i : ITypeInfo) (l : loc) (b : slot) (cap : nat) : M slot :=
  match i with
  | info_void => ret b
  | info_of T => CleanUp T l b cap
  end.

(** ** The container *)

Definition get (a : addr) : M sized_any :=
  fun s => match objects s !! a with
           | Some c => Ok c s
           | None => UB
           end.

Definition put (a : addr) (c : sized_any) : M unit :=
  fun s => Ok tt (set_objects (<[a := c]> (objects s)) s).

Definition forget (a : addr) : M unit :=
  fun s => Ok tt (set_objects (delete a (objects s)) s).

(** [sized_any() noexcept] *)
Definition ctor_default (N : nat) : sized_any := mk_any N info_void raw.

(** [sized_any(const sized_any&)] and [sized_any(const sized_any<M>&)]:
    [M] is the capacity of [other]. *)
Definition ctor_copy {C : Constructors} (N : nat) (l : loc) (other : sized_any) : M sized_any :=
  let i := info other in
  let* (_, b) := copy i l (buff other) raw (capacity other) N in
  ret (mk_any N i b).

(** [sized_any(sized_any&&)] and [sized_any(sized_any<M>&&)]: returns the new
    container and the moved-from one. *)
Definition ctor_move (N : nat) (lother l : loc) (other : sized_any)
  : M (sized_any * sized_any) :=
  let i := info other in
  let* (bo, b) := move i lother l (buff other) raw (capacity other) N in
  ret (mk_any N i b, mk_any (capacity other) info_void bo).

(** The exception specification of move construction of a [sized_any<N>]
    from a [sized_any<M>]: the non-template move constructor is chosen when
    [M = N] and is [noexcept]; the template is [noexcept(M < N)]. *)
Definition move_ctor_noexcept (M N : nat) : bool :=
  if decide (M = N) then true else M <? N.

(** [sized_any(ValueType&&)] ([k] is [copy_ctor] or [move_ctor]) and
    [sized_any(std::in_place_type_t<ValueType>, Args&&...)] ([direct_init]). *)
Definition ctor_value {C : Constructors} (k : ctor_kind) (N : nat) (l : loc) (T : CType) (v : Z)
  : M sized_any :=
  if NeedsAlloc T N then
    let* p := new_object k T v in
    ret (mk_any N (info_of T) (ptr p))
  else
    let* _ := run_ctor k T l v in
    ret (mk_any N (info_of T) (obj T v l)).

(** The constructors, placing the new object at address [a]. *)
Definition construct_default (N : nat) (a : addr) : M unit :=
  put a (ctor_default N).

Definition construct_value {C : Constructors} (k : ctor_kind) (N : nat) (a : addr) (T : CType) (v : Z)
  : M unit :=
  let* c := ctor_value k N (in_buffer a) T v in
  put a c.

Definition construct_copy {C : Constructors} (N : nat) (a src : addr) : M unit :=
  let* other := get src in
  let* c := ctor_copy N (in_buffer a) other in
  put a c.

Definition construct_move (N : nat) (a src : addr) : M unit :=
  let* other := get src in
  let* (c, other') := ctor_move N (in_buffer src) (in_buffer a) other in
  let* _ := put src other' in
  put a c.

(** [has_value()] *)
Definition has_value (c : sized_any) : bool :=
  if decide (info c = info_void) then false else true.

(** [reset()] on a container value living at [l]. *)
Definition reset_at (l : loc) (c : sized_any) : M sized_any :=
  if decide (info c = info_void) then ret c
  else
    let* b := cleanUp (info c) l (buff c) (capacity c) in
    ret (mk_any (capacity c) info_void b).

(** [reset()] *)
Definition reset (a : addr) : M unit :=
  let* c := get a in
  if decide (info c = info_void) then ret tt
  else
    let* b := cleanUp (info c) (in_buffer a) (buff c) (capacity c) in
    put a (mk_any (capacity c) info_void b).

(** [~sized_any()] *)
Definition destructor (a : addr) : M unit :=
  let* _ := reset a in
  forget a.

(** The body of [swap(sized_any& other)] after the identity check; [A] is
    [*this], living at [la]. *)
Definition swap_values (la lb : loc) (A B : sized_any) : M (sized_any * sized_any) :=
  let N := capacity A in
  let* (bB1, t1) := move (info B) lb in_swap_tmp (buff B) raw N N in
  let* (bA1, bB2) := move (info A) la lb (buff A) bB1 N N in
  let* (_, bA2) := move (info A) in_swap_tmp la t1 bA1 N N in
  if decide (info A <> info B)
  then ret (mk_any N (info B) bA2, mk_any (capacity B) (info A) bB2)
  else ret (mk_any N (info A) bA2, mk_any (capacity B) (info B) bB2).

(** [swap(sized_any& other) noexcept]: [a] is [this], [b] is [&other]. *)
Definition swap (a b : addr) : M unit :=
  if decide (b = a) then ret tt
  else
    let* A := get a in
    let* B := get b in
    let* (A', B') := swap_values (in_buffer a) (in_buffer b) A B in
    let* _ := put a A' in
    put b B'.

(** [template<std::size_t M> swap(sized_any<M>& other)] *)
Definition swap_values_cross (la lb : loc) (A B : sized_any)
  : M (sized_any * sized_any) :=
  let N := capacity A in
  let M' := capacity B in
  let* (bA, bB) :=
    if M' <? N then
      let* (bA1, t1) := move (info A) la in_swap_tmp (buff A) raw N M' in
      let* (bB1, bA2) := move (info B) lb la (buff B) bA1 M' N in
      let* (_, bB2) := move (info A) in_swap_tmp lb t1 bB1 M' M' in
      ret (bA2, bB2)
    else
      let* (bB1, t1) := move (info B) lb in_swap_tmp (buff B) raw M' N in
      let* (bA1, bB2) := move (info A) la lb (buff A) bB1 N M' in
      let* (_, bA2) := move (info A) in_swap_tmp la t1 bA1 N N in
      ret (bA2, bB2) in
  if decide (info A <> info B)
  then ret (mk_any N (info B) bA, mk_any M' (info A) bB)
  else ret (mk_any N (info A) bA, mk_any M' (info B) bB).

Definition swap_cross (a b : addr) : M unit :=
  let* A := get a in
  let* B := get b in
  let* (A', B') := swap_values_cross (in_buffer a) (in_buffer b) A B in
  let* _ := put a A' in
  put b B'.

(** [sized_any<N>(...).swap( *this)]: the temporary is [*this] of the swap,
    and is destroyed at the end of the full expression. *)
Definition swap_temporary_into (a : addr) (tmp : sized_any) : M unit :=
  let* This := get a in
  let* (tmp', This') := swap_values in_temporary (in_buffer a) tmp This in
  let* _ := put a This' in
  let* _ := reset_at in_temporary tmp' in
  ret tt.

(** [operator=(const sized_any& rhs)] *)
Definition copy_assign {C : Constructors} (a rhs : addr) : M unit :=
  if decide (rhs = a) then ret tt
  else
    let* This := get a in
    let* R := get rhs in
    let* tmp := ctor_copy (capacity This) in_temporary R in
    swap_temporary_into a tmp.

(** [operator=(const sized_any<M>& rhs)] *)
Definition copy_assign_cross {C : Constructors} (a rhs : addr) : M unit :=
  let* This := get a in
  let* R := get rhs in
  let* tmp := ctor_copy (capacity This) in_temporary R in
  swap_temporary_into a tmp.

(** [operator=(sized_any&& rhs) noexcept] *)
Definition move_assign (a rhs : addr) : M unit :=
  if decide (rhs = a) then ret tt
  else
    let* This := get a in
    let* R := get rhs in
    let* (tmp, R') := ctor_move (capacity This) (in_buffer rhs) in_temporary R in
    let* _ := put rhs R' in
    swap_temporary_into a tmp.

(** [operator=(sized_any<M>&& rhs) noexcept(M < N)] *)
Definition move_assign_cross (a rhs : addr) : M unit :=
  let* This := get a in
  let* R := get rhs in
  let* (tmp, R') := ctor_move (capacity This) (in_buffer rhs) in_temporary R in
  let* _ := put rhs R' in
  swap_temporary_into a tmp.

(** [operator=(ValueType&& rhs)] *)
Definition value_assign {C : Constructors} (k : ctor_kind) (a : addr) (T : CType) (v : Z) : M unit :=
  let* This := get a in
  let* tmp := ctor_value k (capacity This) in_temporary T v in
  swap_temporary_into a tmp.

(** [emplace<ValueType>(Args&&...)]: [v] is the value the constructor of
    [T] builds from the arguments; the result is where the new object lives. *)
Definition emplace {C : Constructors} (T : CType) (v : Z) (a : addr) : M loc :=
  let* c := get a in
  let N := capacity c in
  if NeedsAlloc T N then
    if needsAlloc (info c) N && (size (info c) =? Size T) then
      let* b := destructReuseHeap (info c) (buff c) in
      let* p := read_ptr b in
      let* _ := construct_at direct_init T p v in
      let* _ := put a (mk_any N (info_of T) b) in
      ret (on_heap p)
    else
      let* b := cleanUp (info c) (in_buffer a) (buff c) N in
      let* _ := put a (mk_any N (info c) b) in
      let* p := new_object direct_init T v in
      let* _ := put a (mk_any N (info_of T) (ptr p)) in
      ret (on_heap p)
  else
    let* b := cleanUp (info c) (in_buffer a) (buff c) N in
    let* _ := put a (mk_any N (info c) b) in
    let* _ := run_ctor direct_init T (in_buffer a) v in
    let* _ := put a (mk_any N (info_of T) (obj T v (in_buffer a))) in
    ret (in_buffer a).

(** ** Type-checked access *)

(** [any_cast<T>(sized_any<N>* operand) noexcept] and its [const] twin:
    [None] is the null pointer, for the operand and for the result. *)
Definition any_cast_ptr (T : CType) (operand : option addr) : M (option loc) :=
  match operand with
  | None => ret None
  | Some a =>
      let* c := get a in
      if decide (info c <> info_of T) then ret None
      else if NeedsAlloc T (capacity c) then
        let* p := read_ptr (buff c) in
        ret (Some (on_heap p))
      else ret (Some (in_buffer a))
  end.

(** Reading the [T] a pointer returned by [any_cast_ptr] points to. *)
Definition load (T : CType) (l : loc) : M Z :=
  match l with
  | in_buffer a => let* c := get a in read_obj T (buff c)
  | on_heap p => deref T p
  | _ => undefined
  end.

(** [any_cast<T>(sized_any<N>& operand)] *)
Definition any_cast (T : CType) (a : addr) : M Z :=
  let* r := any_cast_ptr T (Some a) in
  match r with
  | Some l => load T l
  | None => throw bad_any_cast
  end.

(** ** The older header (sized_any.hpp) where it differs *)

Module Legacy.

(** [swap(sized_any& other) noexcept]:
    [std::swap(buff, other.buff); std::swap(info, other.info);] *)
Definition swap (a b : addr) : M unit :=
  let* A := get a in
  let* B := get b in
  let* _ := put a (mk_any (capacity A) (info B) (buff B)) in
  put b (mk_any (capacity B) (info A) (buff A)).

End Legacy.

(** ** What a container holds *)

(** The value of type [T] that a buffer of capacity [N] at [l] represents,
    if it represents one: a pointer to a live [T] when [T] needs allocation
    at [N], else a [T] constructed in place whose interior pointers refer to
    [l] itself. *)
Definition stored (s : state) (l : loc) (T : CType) (N : nat) (b : slot) : option Z :=
  if NeedsAlloc T N then
    match b with
    | ptr p =>
        match heap s !! p with
        | Some (live T' v) => if decide (T' = T) then Some v else None
        | _ => None
        end
    | _ => None
    end
  else
    match b with
    | obj T' v self =>
        if decide (T' = T) then
          if holds_interior_pointer T then
            if decide (self = l) then Some v else None
          else Some v
        else None
    | _ => None
    end.

Inductive content : Type :=
  | empty
  | holding (T : CType) (v : Z)
  | broken.

Definition content_of (s : state) (l : loc) (c : sized_any) : content :=
  match info c with
  | info_void => empty
  | info_of T =>
      match stored s l T (capacity c) (buff c) with
      | Some v => holding T v
      | None => broken
      end
  end.

Definition content_at (s : state) (a : addr) : option content :=
  content_of s (in_buffer a) <$> objects s !! a.

(** The representation invariant of a container. *)
Definition wf_any (s : state) (l : loc) (c : sized_any) : Prop :=
  content_of s l c <> broken.

(** [operator new] never hands out a block that is in use. *)
Definition heap_fresh (s : state) : Prop :=
  forall p, next_block s <= p -> heap s !! p = None.

(** ** Some contained types, as on a 64-bit platform *)

Definition int_t : CType := mkCType "int" 4 true false.
Definition double_t : CType := mkCType "double" 8 true false.
Definition string_t : CType := mkCType "std::string" 32 true true.
Definition bytes64_t : CType := mkCType "Bytes<64>" 64 true false.
Definition throwing_move_t : CType := mkCType "ThrowingMove" 8 false false.
Definition vector_t : CType := mkCType "std::vector<int>" 24 true false.

Definition initial (budget : nat) : state := mk_state ∅ ∅ 0 budget [].

(** ** Notions used in the statements *)

(** What a computation returns when it completes. *)
Definition result_of {A} (o : outcome A) : option A :=
  match o with
  | Ok a _ => Some a
  | _ => None
  end.

(** The state with more events in its trace. *)
Definition log (es : list event) (s : state) : state :=
  mk_state (objects s) (heap s) (next_block s) (alloc_budget s) (trace s ++ es).

(** Only [put] and [forget] touch the containers' members. *)
Definition keeps_objects {A} (m : M A) : Prop :=
  forall s r s', m s = Ok r s' -> objects s' = objects s.

(** The container at [a] is heap-backed before and after, by the same
    block. *)
Definition reuses_heap_block (s s' : state) (a : addr) : Prop :=
  exists c c' p,
    objects s !! a = Some c /\ objects s' !! a = Some c' /\
    needsAlloc (info c) (capacity c) = true /\ buff c = ptr p /\
    needsAlloc (info c') (capacity c') = true /\ buff c' = ptr p.

(** The test [emplace] makes before reusing the block. *)
Definition emplace_reuse_test (T : CType) (c : sized_any) : bool :=
  NeedsAlloc T (capacity c) &&
  (needsAlloc (info c) (capacity c) && (size (info c) =? Size T)).

(** The three calls of [move] in [swap] go through the right descriptor when
    the two containers hold the same type, or are both heap-backed (so that
    each call only copies a pointer). *)
Definition swap_agrees (A B : sized_any) : Prop :=
  info A = info B \/
  (needsAlloc (info A) (capacity A) = true /\
   needsAlloc (info B) (capacity A) = true).

(** ** Concrete states *)

(** A second type of 32 bytes. *)
Definition other32_t : CType := mkCType "std::array<int, 8>" 32 true false.

(** A [sized_any<64>] at address 0 holding a [Bytes<64>] in place. *)
Definition big_inline_any : sized_any :=
  mk_any 64 (info_of bytes64_t) (obj bytes64_t 7 (in_buffer 0)).

(** An empty [sized_any<32>] at address 0. *)
Definition empty_at_0 : state :=
  mk_state {[ 0 := mk_any 32 info_void raw ]} ∅ 0 0 [].

(** A [sized_any<16>] at address 0 holding a [std::string] on the heap. *)
Definition heap_string_at_0 : state :=
  mk_state {[ 0 := mk_any 16 (info_of string_t) (ptr 5) ]}
           {[ 5 := live string_t 12 ]} 6 0 [].

(** Two [sized_any<32>], both holding the [int] 7. *)
Definition two_ints : state :=
  mk_state {[ 0 := mk_any 32 (info_of int_t) (obj int_t 7 (in_buffer 0));
              1 := mk_any 32 (info_of int_t) (obj int_t 7 (in_buffer 1)) ]}
           ∅ 0 0 [].

(** An empty [sized_any<32>] at address 0 and a [sized_any<32>] holding the
    [int] 42 at address 1. *)
Definition empty_and_int : state :=
  mk_state {[ 0 := mk_any 32 info_void raw;
              1 := mk_any 32 (info_of int_t) (obj int_t 42 (in_buffer 1)) ]}
           ∅ 0 0 [].

(** An empty [sized_any<64>] at address 0 and a [sized_any<32>] holding the
    [int] 42 at address 1. *)
Definition empty64_and_int32 : state :=
  mk_state {[ 0 := mk_any 64 info_void raw;
              1 := mk_any 32 (info_of int_t) (obj int_t 42 (in_buffer 1)) ]}
           ∅ 0 0 [].

(** Two [sized_any<32>] holding a [std::string] in place, each pointing into
    its own buffer. *)
Definition two_strings : state :=
  mk_state {[ 0 := mk_any 32 (info_of string_t) (obj string_t 1 (in_buffer 0));
              1 := mk_any 32 (info_of string_t) (obj string_t 2 (in_buffer 1)) ]}
           ∅ 0 0 [].

(** ** Ownership of heap blocks *)

(** The block a container keeps its value in, when it is heap-backed. *)
Definition owned_block (c : sized_any) : option addr :=
  if needsAlloc (info c) (capacity c) then
    match buff c with
    | ptr p => Some p
    | _ => None
    end
  else None.

(** Every container is well formed, no two containers keep their value in
    the same block, and every block of the free store is some container's:
    nothing dangles, nothing is shared, nothing leaks. *)
Definition store_ok (s : state) : Prop :=
  heap_fresh s /\
  (forall a c, objects s !! a = Some c -> wf_any s (in_buffer a) c) /\
  (forall a b ca cb p,
     objects s !! a = Some ca -> objects s !! b = Some cb ->
     owned_block ca = Some p -> owned_block cb = Some p -> a = b) /\
  (forall p, is_Some (heap s !! p) ->
     exists a c, objects s !! a = Some c /\ owned_block c = Some p).

(** The free store once a container's block, if it has one, is gone. *)
Definition heap_without (c : sized_any) (h : gmap addr block) : gmap addr block :=
  match owned_block c with
  | Some p => delete p h
  | None => h
  end.

(** What releasing the value of the container [c] living at [l] runs: the
    destructor, once, and the deallocation when the value is on the heap. *)
Definition release_events (l : loc) (c : sized_any) : list event :=
  match info c with
  | info_void => []
  | info_of T =>
      match owned_block c with
      | Some p => [ev_dtor T (on_heap p); ev_free p]
      | None => [ev_dtor T l]
      end
  end.

(** The ownership invariant while the temporary of an assignment is alive:
    the temporary is one more container, living outside the store. *)
Definition store_ok_with (s : state) (tmp : sized_any) : Prop :=
  heap_fresh s /\
  (forall a c, objects s !! a = Some c -> wf_any s (in_buffer a) c) /\
  wf_any s in_temporary tmp /\
  (forall a b ca cb p,
     objects s !! a = Some ca -> objects s !! b = Some cb ->
     owned_block ca = Some p -> owned_block cb = Some p -> a = b) /\
  (forall a c p,
     objects s !! a = Some c -> owned_block c = Some p ->
     owned_block tmp <> Some p) /\
  (forall p, is_Some (heap s !! p) ->
     owned_block tmp = Some p \/
     exists a c, objects s !! a = Some c /\ owned_block c = Some p).

(** ** The factory functions *)

(** [make_sized_any<N, T>(args...)], which requires [N >= sizeof(void* )]:
    the container is built in the caller's storage at [a]. *)
Definition make_sized_any {C : Constructors} (N : nat) (a : addr) (T : CType) (v : Z) : M unit :=
  construct_value direct_init N a T v.

(** The capacity [make_sized_any<T>(args...)] chooses,
    [std::max(sizeof(std::decay_t<T>), sizeof(void* ))]. *)
Definition fit_capacity (T : CType) : nat := Nat.max (sizeof T) pointer_size.

(** [make_sized_any<T>(args...)] *)
Definition make_sized_any_fit {C : Constructors} (a : addr) (T : CType) (v : Z) : M unit :=
  make_sized_any (fit_capacity T) a T v.

(** ** The descriptor of the two older headers

    In sized_any.hpp and in the intermediate version the descriptor reads
    the source through [getValueForCopying] and [getValueForMoving], and
    releases through [destroy] and [del]. *)

Module Older.

Definition getValueForCopying (T : CType) (from : slot) (fromCap : nat) : M Z :=
  if NeedsAlloc T fromCap then
    let* q := read_ptr from in
    deref T q
  else read_obj T from.

Definition getValueForMoving (T : CType) (from : slot) (fromCap : nat) : M Z :=
  if NeedsAlloc T fromCap then
    let* q := read_ptr from in
    deref T q
  else read_obj T from.

Definition copy {C : Constructors} (i : ITypeInfo) (lto : loc) (from to : slot) (fromCap toCap : nat)
  : M (slot * slot) :=
  match i with
  | info_void => ret (from, to)
  | info_of T =>
      if NeedsAlloc T toCap then
        let* v := getValueForCopying T from fromCap in
        let* p := new_object copy_ctor T v in
        ret (from, ptr p)
      else
        let* v := getValueForCopying T from fromCap in
        let* _ := run_ctor copy_ctor T lto v in
        ret (from, obj T v lto)
  end.

Definition destroy (i : ITypeInfo) (l : loc) (b : slot) (cap : nat) : M slot :=
  match i with
  | info_void => ret b
  | info_of T =>
      if NeedsAlloc T cap then
        let* p := read_ptr b in
        let* _ := destroy_at T p in
        ret b
      else
        let* _ := read_obj T b in
        let* _ := emit (ev_dtor T l) in
        ret raw
  end.

Definition del (i : ITypeInfo) (l : loc) (b : slot) (cap : nat) : M slot :=
  match i with
  | info_void => ret b
  | info_of T =>
      if NeedsAlloc T cap then
        let* p := read_ptr b in
        let* _ := operator_delete T p in
        ret b
      else
        let* _ := read_obj T b in
        let* _ := emit (ev_dtor T l) in
        ret raw
  end.

Definition move (i : ITypeInfo) (lfrom lto : loc) (from to : slot)
    (fromCap toCap : nat) : M (slot * slot) :=
  match i with
  | info_void => ret (from, to)
  | info_of T =>
      if NeedsAlloc T toCap then
        if NeedsAlloc T fromCap then
          let* q := read_ptr from in
          ret (from, ptr q)
        else
          let* v := read_obj T from in
          let* p := operator_new move_ctor T v in
          let* from' := del (info_of T) lfrom from fromCap in
          ret (from', ptr p)
      else
        let* v := getValueForMoving T from fromCap in
        let* _ := emit (ev_ctor move_ctor T lto) in
        let* from' := del (info_of T) lfrom from fromCap in
        ret (from', obj T v lto)
  end.

(** [emplace<ValueType>(Args&&...)] of the two older headers. *)
Definition emplace {C : Constructors} (T : CType) (v : Z) (a : addr) : M loc :=
  let* c := get a in
  let N := capacity c in
  if NeedsAlloc T N then
    if needsAlloc (info c) N && (size (info c) =? Size T) then
      let* b := destroy (info c) (in_buffer a) (buff c) N in
      let* p := read_ptr b in
      let* _ := construct_at direct_init T p v in
      let* _ := put a (mk_any N (info_of T) b) in
      ret (on_heap p)
    else
      let* b := del (info c) (in_buffer a) (buff c) N in
      let* _ := put a (mk_any N (info c) b) in
      let* p := new_object direct_init T v in
      let* _ := put a (mk_any N (info_of T) (ptr p)) in
      ret (on_heap p)
  else
    let* b := del (info c) (in_buffer a) (buff c) N in
    let* _ := put a (mk_any N (info c) b) in
    let* _ := run_ctor direct_init T (in_buffer a) v in
    let* _ := put a (mk_any N (info_of T) (obj T v (in_buffer a))) in
    ret (in_buffer a).

(** [reset()] and [~sized_any()] of sized_any.hpp: no test of the
    descriptor before [del]. *)
Definition reset (a : addr) : M unit :=
  let* c := get a in
  let* b := del (info c) (in_buffer a) (buff c) (capacity c) in
  put a (mk_any (capacity c) info_void b).

Definition destructor (a : addr) : M unit :=
  let* c := get a in
  let* _ := del (info c) (in_buffer a) (buff c) (capacity c) in
  forget a.

(** The capacity [make_sized_any<T>(args...)] of sized_any.hpp chooses. *)
Definition fit_capacity (T : CType) : nat := sizeof T.

(** *** Assignment in sized_any.hpp

    [operator=] goes through [replCopy] and [replMove], which work on the
    two buffers in place: [from] is the buffer of the container at [rhs],
    [to] the buffer of the container at [a]. *)

(** A store through [to]. *)
Definition write_buff (a : addr) (b : slot) : M unit :=
  let* c := get a in
  put a (mk_any (capacity c) (info c) b).

(** [toInfo.destroy(to, toCap)] and [toInfo.del(to, toCap)] *)
Definition destroy_buff (i : ITypeInfo) (a : addr) (cap : nat) : M unit :=
  let* c := get a in
  let* b := destroy i (in_buffer a) (buff c) cap in
  write_buff a b.

Definition del_buff (i : ITypeInfo) (a : addr) (cap : nat) : M unit :=
  let* c := get a in
  let* b := del i (in_buffer a) (buff c) cap in
  write_buff a b.

(** [new (to) T(...)]: the object is built in the buffer itself, which has
    room for it only when [sizeof(T) <= toCap]. *)
Definition placement_new {C : Constructors} (k : ctor_kind) (T : CType) (a : addr) (cap : nat) (v : Z)
  : M unit :=
  if sizeof T <=? cap then
    let* _ := run_ctor k T (in_buffer a) v in
    write_buff a (obj T v (in_buffer a))
  else undefined.

Definition replCopy {C : Constructors} (i : ITypeInfo) (rhs a : addr) (toInfo : ITypeInfo)
    (fromCap toCap : nat) : M unit :=
  match i with
  | info_void => ret tt
  | info_of T =>
      if NeedsAlloc T toCap then
        if needsAlloc toInfo toCap && (size toInfo =? Size T) then
          let* _ := destroy_buff toInfo a toCap in
          let* R := get rhs in
          let* v := getValueForCopying T (buff R) fromCap in
          placement_new copy_ctor T a toCap v
        else
          let* _ := del_buff toInfo a toCap in
          let* R := get rhs in
          let* v := getValueForCopying T (buff R) fromCap in
          let* p := new_object copy_ctor T v in
          write_buff a (ptr p)
      else
        let* _ := del_buff toInfo a toCap in
        let* R := get rhs in
        let* v := getValueForCopying T (buff R) fromCap in
        placement_new copy_ctor T a toCap v
  end.

Definition replMove {C : Constructors} (i : ITypeInfo) (rhs a : addr) (toInfo : ITypeInfo)
    (fromCap toCap : nat) : M unit :=
  match i with
  | info_void => ret tt
  | info_of T =>
      if NeedsAlloc T toCap then
        if NeedsAlloc T fromCap then
          let* _ := del_buff toInfo a toCap in
          let* R := get rhs in
          let* q := read_ptr (buff R) in
          write_buff a (ptr q)
        else if needsAlloc toInfo toCap && (size toInfo =? Size T) then
          let* _ := destroy_buff toInfo a toCap in
          let* R := get rhs in
          let* v := getValueForMoving T (buff R) fromCap in
          let* _ := placement_new move_ctor T a toCap v in
          del_buff (info_of T) rhs fromCap
        else
          let* _ := del_buff toInfo a toCap in
          let* R := get rhs in
          let* v := getValueForMoving T (buff R) fromCap in
          let* p := operator_new move_ctor T v in
          let* _ := write_buff a (ptr p) in
          del_buff (info_of T) rhs fromCap
      else
        let* _ := del_buff toInfo a toCap in
        let* R := get rhs in
        let* v := getValueForMoving T (buff R) fromCap in
        let* _ := placement_new move_ctor T a toCap v in
        del_buff (info_of T) rhs fromCap
  end.

(** [info = rhs.info;] *)
Definition set_info (a : addr) (i : ITypeInfo) : M unit :=
  let* c := get a in
  put a (mk_any (capacity c) i (buff c)).

(** [operator=(const sized_any<M>& rhs)] *)
Definition copy_assign_cross {C : Constructors} (a rhs : addr) : M unit :=
  let* This := get a in
  let* R := get rhs in
  let* _ := replCopy (info R) rhs a (info This) (capacity R) (capacity This) in
  set_info a (info R).

(** [operator=(const sized_any& rhs)] *)
Definition copy_assign {C : Constructors} (a rhs : addr) : M unit :=
  if decide (rhs = a) then ret tt else copy_assign_cross a rhs.

(** [operator=(sized_any<M>&& rhs)] *)
Definition move_assign_cross {C : Constructors} (a rhs : addr) : M unit :=
  if decide (rhs = a) then ret tt
  else
    let* This := get a in
    let* R := get rhs in
    let* _ := replMove (info R) rhs a (info This) (capacity R) (capacity This) in
    let* _ := set_info a (info R) in
    set_info rhs info_void.

(** [operator=(sized_any&& rhs) noexcept] *)
Definition move_assign {C : Constructors} (a rhs : addr) : M unit :=
  move_assign_cross a rhs.

End Older.

(** Two [sized_any<16>] holding a [std::string] each, on the heap; one
    more allocation succeeds. *)
Definition two_heap_strings : state :=
  mk_state {[ 0 := mk_any 16 (info_of string_t) (ptr 5);
              1 := mk_any 16 (info_of string_t) (ptr 6) ]}
           {[ 5 := live string_t 12; 6 := live string_t 34 ]} 7 1 [].

(** A [sized_any<16>] holding a [std::string] on the heap, and an empty
    one. *)
Definition string_and_empty : state :=
  mk_state {[ 0 := mk_any 16 (info_of string_t) (ptr 5);
              1 := mk_any 16 info_void raw ]}
           {[ 5 := live string_t 12 ]} 6 1 [].

(** Two [sized_any<32>], holding an [int] and a [double] in place. *)
Definition int_and_double : state :=
  mk_state {[ 0 := mk_any 32 (info_of int_t) (obj int_t 7 (in_buffer 0));
              1 := mk_any 32 (info_of double_t) (obj double_t 2 (in_buffer 1)) ]}
           ∅ 0 1 [].

(** Two [sized_any<16>] holding a [ThrowingMove] each, on the heap. *)
Definition two_heap_throwing : state :=
  mk_state {[ 0 := mk_any 16 (info_of throwing_move_t) (ptr 5);
              1 := mk_any 16 (info_of throwing_move_t) (ptr 6) ]}
           {[ 5 := live throwing_move_t 1; 6 := live throwing_move_t 2 ]} 7 1 [].

(** An empty [sized_any<32>] at address 0 and a [sized_any<64>] holding the
    [int] 42 at address 1. *)
Definition empty32_and_int64 : state :=
  mk_state {[ 0 := mk_any 32 info_void raw;
              1 := mk_any 64 (info_of int_t) (obj int_t 42 (in_buffer 1)) ]}
           ∅ 0 0 [].

(** A [sized_any<32>] holding the [int] 7 at address 0 and a [sized_any<64>]
    holding the [int] 42 at address 1. *)
Definition int32_and_int64 : state :=
  mk_state {[ 0 := mk_any 32 (info_of int_t) (obj int_t 7 (in_buffer 0));
              1 := mk_any 64 (info_of int_t) (obj int_t 42 (in_buffer 1)) ]}
           ∅ 0 0 [].

(** ** Constructors that return

    The statements below that name no instance of [Constructors] are about
    this one: they describe the runs in which the constructors of the
    contained types return. *)
#[global] Instance returning : Constructors := {|
  ctor_throws := fun _ _ _ _ => None;
  nothrow_move_returns := fun _ _ _ _ => eq_refl
|}.

(** Constructors whose copies run out of memory: every copy constructor
    throws [std::bad_alloc]. *)
Definition copies_fail : Constructors := {|
  ctor_throws := fun k _ _ _ =>
    match k with copy_ctor => Some bad_alloc | _ => None end;
  nothrow_move_returns := fun _ _ _ _ => eq_refl
|}.

(** * Properties *)

(** ** When the constructors return

    With [returning], a new-expression is [operator_new] and a constructor
    call adds its event and nothing else. *)

Lemma new_object_returning k T v : new_object k T v = operator_new k T v.
Proof. reflexivity. Qed.

Lemma run_ctor_returning k T l v : run_ctor k T l v = emit (ev_ctor k T l).
Proof. reflexivity. Qed.

(** ** The repository's tests, replayed on the model *)

(** [SizedAnyTest.Empty] *)
Example test_Empty :
  has_value (ctor_default 32) = false /\ type (info (ctor_default 32)) = "void".
Proof. split; reflexivity. Qed.

(** [SizedAnyTest.Int] *)
Example test_Int :
  result_of ((let* _ := construct_value copy_ctor 32 0 int_t 42 in
              let* c := get 0 in
              let* v := any_cast int_t 0 in
              ret (has_value c, type (info c), v, capacity c)) (initial 0))
  = Some (true, "int", 42%Z, 32).
Proof. vm_compute. reflexivity. Qed.

(** [SizedAnyTest.Move] *)
Example test_Move :
  result_of ((let* _ := construct_value copy_ctor 32 0 int_t 123 in
              let* _ := construct_move 32 1 0 in
              let* a := get 0 in
              let* b := get 1 in
              let* v := any_cast int_t 1 in
              ret (has_value b, v, has_value a)) (initial 0))
  = Some (true, 123%Z, false).
Proof. vm_compute. reflexivity. Qed.

(** [SizedAnyTest.Copy] *)
Example test_Copy :
  result_of ((let* _ := construct_value copy_ctor 32 0 int_t 55 in
              let* _ := construct_copy 32 1 0 in
              let* a := get 0 in
              let* b := get 1 in
              let* v := any_cast int_t 1 in
              ret (has_value b, v, has_value a)) (initial 0))
  = Some (true, 55%Z, true).
Proof. vm_compute. reflexivity. Qed.

(** [SizedAnyTest.Reset] *)
Example test_Reset :
  result_of ((let* _ := construct_value copy_ctor 32 0 int_t 99 in
              let* _ := reset 0 in
              let* a := get 0 in
              ret (has_value a)) (initial 0))
  = Some false.
Proof. vm_compute. reflexivity. Qed.

(** [SizedAnyTest.Swap] *)
Example test_Swap :
  result_of ((let* _ := construct_value copy_ctor 32 0 int_t 1 in
              let* _ := construct_value copy_ctor 32 1 int_t 2 in
              let* _ := swap 0 1 in
              let* va := any_cast int_t 0 in
              let* vb := any_cast int_t 1 in
              ret (va, vb)) (initial 0))
  = Some (2%Z, 1%Z).
Proof. vm_compute. reflexivity. Qed.

(** [SizedAnyTest.Emplace] *)
Example test_Emplace :
  result_of ((let* _ := construct_default 64 0 in
              let* _ := emplace vector_t 123 0 in
              any_cast vector_t 0) (initial 0))
  = Some 123%Z.
Proof. vm_compute. reflexivity. Qed.

(** [SizedAnyTest.BadCast] *)
Example test_BadCast :
  exists s,
    (let* _ := construct_value copy_ctor 32 0 int_t 42 in
     any_cast string_t 0) (initial 0) = Throw bad_any_cast s.
Proof. eexists. vm_compute. reflexivity. Qed.

(** ** The representation invariant, unfolded *)

Lemma NeedsAlloc_true_iff (T : CType) (cap : nat) :
  NeedsAlloc T cap = true <->
  (sizeof T > cap \/ is_nothrow_move_constructible T = false).
Proof.
  unfold NeedsAlloc. rewrite orb_true_iff, Nat.ltb_lt, negb_true_iff.
  unfold gt. tauto.
Qed.

(** A larger capacity never makes an allocation more necessary. *)
Lemma NeedsAlloc_mono (T : CType) (M N : nat) :
  M <= N -> NeedsAlloc T N = true -> NeedsAlloc T M = true.
Proof.
  rewrite !NeedsAlloc_true_iff. intros HMN [Hsz | Hmv]; [left; lia | by right].
Qed.

Lemma needsAlloc_mono (i : ITypeInfo) (M N : nat) :
  M <= N -> needsAlloc i N = true -> needsAlloc i M = true.
Proof.
  destruct i as [|T]; simpl; [done | apply NeedsAlloc_mono].
Qed.

Lemma stored_heap_inv s l T N b v :
  NeedsAlloc T N = true -> stored s l T N b = Some v ->
  exists p, b = ptr p /\ heap s !! p = Some (live T v).
Proof.
  unfold stored. intros ->. destruct b as [|T' v' self|p]; try done.
  destruct (heap s !! p) as [[T' v'|sz]|] eqn:Hp; try done.
  case_decide; [|done]. intros [= ->]. subst T'. exists p. by rewrite Hp.
Qed.

Lemma stored_inline_inv s l T N b v :
  NeedsAlloc T N = false -> stored s l T N b = Some v ->
  exists self, b = obj T v self /\ (holds_interior_pointer T = true -> self = l).
Proof.
  unfold stored. intros ->. destruct b as [|T' v' self|p]; try done.
  case_decide; [|done]. subst T'.
  destruct (holds_interior_pointer T).
  - case_decide; [|done]. intros [= ->]. by exists self.
  - intros [= ->]. exists self. split; [done|]. done.
Qed.

Lemma stored_heap_intro s l T N p v :
  NeedsAlloc T N = true -> heap s !! p = Some (live T v) ->
  stored s l T N (ptr p) = Some v.
Proof.
  unfold stored. intros -> ->. by rewrite decide_True.
Qed.

Lemma stored_inline_intro s l T N v :
  NeedsAlloc T N = false -> stored s l T N (obj T v l) = Some v.
Proof.
  unfold stored. intros ->. rewrite decide_True by done.
  destruct (holds_interior_pointer T); [by rewrite decide_True|done].
Qed.

Lemma wf_any_inv s l c :
  wf_any s l c ->
  info c = info_void \/
  exists T v, info c = info_of T /\ stored s l T (capacity c) (buff c) = Some v.
Proof.
  unfold wf_any, content_of. destruct (info c) as [|T]; [by left|].
  destruct (stored s l T (capacity c) (buff c)) as [v|] eqn:Hv; [|done].
  intros _. right. eauto.
Qed.

Lemma deref_live T p v s :
  heap s !! p = Some (live T v) -> deref T p s = Ok v s.
Proof.
  unfold deref. intros ->. by rewrite decide_True.
Qed.

Lemma read_obj_same T v self s : read_obj T (obj T v self) s = Ok v s.
Proof.
  unfold read_obj. by rewrite decide_True.
Qed.

(** ** Stepping through the monad *)

Lemma bind_Ok_inv {A B} (m : M A) (k : A -> M B) s r s' :
  bind m k s = Ok r s' ->
  exists x s1, m s = Ok x s1 /\ k x s1 = Ok r s'.
Proof.
  unfold bind. destruct (m s) as [x s1| |]; [eauto|done|done].
Qed.

Lemma bind_Ok {A B} (m : M A) (k : A -> M B) s x s1 :
  m s = Ok x s1 -> bind m k s = k x s1.
Proof.
  unfold bind. by intros ->.
Qed.

Lemma keeps_ret {A} (a : A) : keeps_objects (ret a).
Proof. by intros s r s' [= _ <-]. Qed.

Lemma keeps_bind {A B} (m : M A) (k : A -> M B) :
  keeps_objects m -> (forall x, keeps_objects (k x)) -> keeps_objects (bind m k).
Proof.
  intros Hm Hk s r s' H.
  apply bind_Ok_inv in H as (x & s1 & H1 & H2).
  rewrite (Hk _ _ _ _ H2). by apply Hm in H1.
Qed.

Lemma keeps_undefined {A} : keeps_objects (@undefined A).
Proof. by intros s r s'. Qed.

Lemma keeps_emit e : keeps_objects (emit e).
Proof. by intros s r s' [= _ <-]. Qed.

Lemma keeps_operator_new k T v : keeps_objects (operator_new k T v).
Proof.
  intros s r s'. unfold new_object, operator_new. destruct (alloc_budget s); [done|].
  by intros [= _ <-].
Qed.

Lemma keeps_deref T p : keeps_objects (deref T p).
Proof.
  intros s r s'. unfold deref.
  destruct (heap s !! p) as [[T' v|]|]; try done.
  case_decide; [|done]. by intros [= _ <-].
Qed.

Lemma keeps_set_heap (f : state -> gmap addr block) :
  keeps_objects (fun s => Ok tt (set_heap (f s) s)).
Proof. by intros s r s' [= _ <-]. Qed.

Lemma keeps_read_obj T b : keeps_objects (read_obj T b).
Proof.
  destruct b as [|T' v self|p]; simpl; try apply keeps_undefined.
  case_decide; [apply keeps_ret | apply keeps_undefined].
Qed.

Lemma keeps_read_ptr b : keeps_objects (read_ptr b).
Proof.
  destruct b; simpl; try apply keeps_undefined. apply keeps_ret.
Qed.

Lemma keeps_construct_at k T p v : keeps_objects (construct_at k T p v).
Proof.
  intros s r s'. unfold construct_at.
  destruct (heap s !! p) as [[T' v'|sz]|]; try done.
  case_decide; [|done]. by intros [= _ <-].
Qed.

Ltac keeps :=
  repeat first
    [ apply keeps_ret | apply keeps_undefined | apply keeps_emit
    | apply keeps_operator_new | apply keeps_deref | apply keeps_read_obj
    | apply keeps_read_ptr | apply keeps_construct_at
    | apply (keeps_set_heap (fun s => <[_ := _]> (heap s)))
    | apply (keeps_set_heap (fun s => delete _ (heap s)))
    | apply keeps_bind; [|intros ?]
    | match goal with
      | |- keeps_objects (let (_, _) := ?x in _) => destruct x
      | |- keeps_objects (let '(_, _) := ?x in _) => destruct x
      | |- keeps_objects (if ?b then _ else _) => destruct b
      | |- keeps_objects (match ?i with info_void => _ | info_of _ => _ end) =>
          destruct i
      end ].

Lemma keeps_operator_delete T p : keeps_objects (operator_delete T p).
Proof. unfold operator_delete. keeps. Qed.

Lemma keeps_destroy_at T p : keeps_objects (destroy_at T p).
Proof. unfold destroy_at. keeps. Qed.

Lemma keeps_Move T lf lt from to cf ct : keeps_objects (Move T lf lt from to cf ct).
Proof. unfold Move. keeps; apply keeps_operator_delete. Qed.

Lemma keeps_move i lf lt from to cf ct : keeps_objects (move i lf lt from to cf ct).
Proof. destruct i; simpl; [apply keeps_ret | apply keeps_Move]. Qed.

Lemma keeps_Copy T lt from to cf ct : keeps_objects (Copy T lt from to cf ct).
Proof. unfold Copy. keeps. Qed.

Lemma keeps_cleanUp i l b cap : keeps_objects (cleanUp i l b cap).
Proof.
  destruct i; simpl; [apply keeps_ret|]. unfold CleanUp.
  keeps; apply keeps_operator_delete.
Qed.

Lemma keeps_reset_at l c : keeps_objects (reset_at l c).
Proof. unfold reset_at. keeps. apply keeps_cleanUp. Qed.

Lemma keeps_swap_values la lb A B : keeps_objects (swap_values la lb A B).
Proof. unfold swap_values. keeps; apply keeps_move. Qed.

Lemma keeps_ctor_move N lo l other : keeps_objects (ctor_move N lo l other).
Proof. unfold ctor_move. keeps; apply keeps_move. Qed.

Lemma ctor_move_source_empty N lo l other s c o s' :
  ctor_move N lo l other s = Ok (c, o) s' ->
  info o = info_void /\ capacity o = capacity other /\
  info c = info other /\ capacity c = N.
Proof.
  unfold ctor_move. intros H.
  apply bind_Ok_inv in H as ([bo b] & s1 & _ & H).
  by injection H as <- <- _.
Qed.

(** An assignment through a temporary writes [*this] and nothing else. *)
Lemma swap_temporary_into_frame a tmp s s' r :
  swap_temporary_into a tmp s = Ok tt s' -> r <> a ->
  objects s' !! r = objects s !! r.
Proof.
  unfold swap_temporary_into. intros H Hne.
  apply bind_Ok_inv in H as (This & s1 & H1 & H).
  apply bind_Ok_inv in H as ([tmp' This'] & s2 & H2 & H).
  apply bind_Ok_inv in H as ([] & s3 & H3 & H).
  apply bind_Ok_inv in H as (t & s4 & H4 & H).
  injection H as <-.
  apply keeps_reset_at in H4. apply keeps_swap_values in H2.
  injection H3 as <-. simpl in H4.
  unfold get in H1. destruct (objects s !! a); [|done]. injection H1 as _ <-.
  rewrite H4, H2. by rewrite lookup_insert_ne.
Qed.

(** ** The four cases of [Move], and [CleanUp], on well-formed buffers *)

Lemma log_log es1 es2 s : log es2 (log es1 s) = log (es1 ++ es2) s.
Proof. unfold log. simpl. by rewrite app_assoc. Qed.

Lemma Move_inline_inline T lf lt v self to cf ct s :
  NeedsAlloc T cf = false -> NeedsAlloc T ct = false ->
  Move T lf lt (obj T v self) to cf ct s
  = Ok (raw, obj T v lt) (log [ev_ctor move_ctor T lt; ev_dtor T lf] s).
Proof.
  intros Hf Ht. unfold Move. rewrite Hf, Ht.
  unfold bind. rewrite read_obj_same. unfold emit, ret, log. simpl.
  by rewrite <- app_assoc.
Qed.

Lemma Move_heap_heap T lf lt p to cf ct s :
  NeedsAlloc T cf = true -> NeedsAlloc T ct = true ->
  Move T lf lt (ptr p) to cf ct s = Ok (ptr p, ptr p) s.
Proof.
  intros Hf Ht. unfold Move. by rewrite Hf, Ht.
Qed.

Lemma Move_heap_inline T lf lt p v to cf ct s :
  NeedsAlloc T cf = true -> NeedsAlloc T ct = false ->
  heap s !! p = Some (live T v) ->
  Move T lf lt (ptr p) to cf ct s
  = Ok (ptr p, obj T v lt)
       (set_heap (delete p (heap s))
          (log [ev_ctor move_ctor T lt; ev_dtor T (on_heap p); ev_free p] s)).
Proof.
  intros Hf Ht Hp. unfold Move. rewrite Hf, Ht.
  unfold bind. simpl. rewrite (deref_live _ _ _ _ Hp).
  unfold emit, operator_delete, bind, deref. simpl. rewrite Hp.
  rewrite decide_True by done. unfold emit, ret, log, set_heap. simpl.
  by rewrite <- !app_assoc.
Qed.

Lemma Move_inline_heap T lf lt v self to cf ct s n :
  NeedsAlloc T cf = false -> NeedsAlloc T ct = true ->
  alloc_budget s = S n ->
  Move T lf lt (obj T v self) to cf ct s
  = Ok (raw, ptr (next_block s))
       (mk_state (objects s) (<[next_block s := live T v]> (heap s))
                 (S (next_block s)) n
                 (trace s ++ [ev_alloc (next_block s) (sizeof T);
                              ev_ctor move_ctor T (on_heap (next_block s));
                              ev_dtor T lf])).
Proof.
  intros Hf Ht Hb. unfold Move. rewrite Hf, Ht.
  unfold bind. rewrite read_obj_same. unfold new_object, operator_new. rewrite Hb.
  unfold emit, ret. simpl. by rewrite <- app_assoc.
Qed.

Lemma CleanUp_inline T l v self cap s :
  NeedsAlloc T cap = false ->
  CleanUp T l (obj T v self) cap s = Ok raw (log [ev_dtor T l] s).
Proof.
  intros Hc. unfold CleanUp. rewrite Hc. unfold bind.
  by rewrite read_obj_same.
Qed.

Lemma CleanUp_heap T l p v cap s :
  NeedsAlloc T cap = true -> heap s !! p = Some (live T v) ->
  CleanUp T l (ptr p) cap s
  = Ok (ptr p) (set_heap (delete p (heap s))
                  (log [ev_dtor T (on_heap p); ev_free p] s)).
Proof.
  intros Hc Hp. unfold CleanUp. rewrite Hc. unfold bind. simpl.
  unfold operator_delete, bind. rewrite (deref_live _ _ _ _ Hp).
  unfold emit, ret, log, set_heap. simpl. by rewrite <- !app_assoc.
Qed.

Lemma Copy_inline_inline T lt v self to cf ct s :
  NeedsAlloc T cf = false -> NeedsAlloc T ct = false ->
  Copy T lt (obj T v self) to cf ct s
  = Ok (obj T v self, obj T v lt) (log [ev_ctor copy_ctor T lt] s).
Proof.
  intros Hf Ht. unfold Copy. rewrite Hf, Ht.
  unfold bind. by rewrite read_obj_same.
Qed.

(** Same-capacity [swap] of two values of one type stored in place. *)
Lemma swap_values_same_inline la lb A B T va vb sa sb s :
  info A = info_of T -> info B = info_of T ->
  capacity B = capacity A ->
  NeedsAlloc T (capacity A) = false ->
  buff A = obj T va sa -> buff B = obj T vb sb ->
  swap_values la lb A B s
  = Ok (mk_any (capacity A) (info_of T) (obj T vb la),
        mk_any (capacity A) (info_of T) (obj T va lb))
       (log [ev_ctor move_ctor T in_swap_tmp; ev_dtor T lb;
             ev_ctor move_ctor T lb; ev_dtor T la;
             ev_ctor move_ctor T la; ev_dtor T in_swap_tmp] s).
Proof.
  intros HA HB Hcap HN HbA HbB. unfold swap_values.
  rewrite HA, HB, HbA, HbB, Hcap. simpl.
  erewrite bind_Ok by (by apply Move_inline_inline). simpl.
  erewrite bind_Ok by (by apply Move_inline_inline). simpl.
  erewrite bind_Ok by (by apply Move_inline_inline). simpl.
  rewrite decide_False by (intros H; by apply H).
  unfold ret. by rewrite !log_log.
Qed.

(** Same-capacity [swap] of two heap-backed values, of any two types. *)
Lemma swap_values_heap la lb A B pa pb s :
  capacity B = capacity A ->
  needsAlloc (info A) (capacity A) = true ->
  needsAlloc (info B) (capacity A) = true ->
  buff A = ptr pa -> buff B = ptr pb ->
  swap_values la lb A B s
  = Ok (mk_any (capacity A) (info B) (ptr pb),
        mk_any (capacity A) (info A) (ptr pa)) s.
Proof.
  intros Hcap HA HB HbA HbB. unfold swap_values.
  destruct (info A) as [|TA] eqn:HiA; [done|].
  destruct (info B) as [|TB] eqn:HiB; [done|].
  simpl in *. rewrite HbA, HbB, Hcap.
  erewrite bind_Ok by (by apply Move_heap_heap). simpl.
  erewrite bind_Ok by (by apply Move_heap_heap). simpl.
  erewrite bind_Ok by (by apply Move_heap_heap). simpl.
  case_decide as Hd; [done|]. by rewrite Hd.
Qed.

Lemma get_Some a c s : objects s !! a = Some c -> get a s = Ok c s.
Proof. unfold get. by intros ->. Qed.

Lemma ctor_copy_inline N l other T v self s :
  info other = info_of T -> buff other = obj T v self ->
  NeedsAlloc T (capacity other) = false -> NeedsAlloc T N = false ->
  ctor_copy N l other s
  = Ok (mk_any N (info_of T) (obj T v l)) (log [ev_ctor copy_ctor T l] s).
Proof.
  intros HT Hb HM HN. unfold ctor_copy. rewrite HT, Hb. simpl.
  by erewrite bind_Ok by (by apply Copy_inline_inline).
Qed.

Lemma ctor_move_inline N lo l other T v self s :
  info other = info_of T -> buff other = obj T v self ->
  NeedsAlloc T (capacity other) = false -> NeedsAlloc T N = false ->
  ctor_move N lo l other s
  = Ok (mk_any N (info_of T) (obj T v l), mk_any (capacity other) info_void raw)
       (log [ev_ctor move_ctor T l; ev_dtor T lo] s).
Proof.
  intros HT Hb HM HN. unfold ctor_move. rewrite HT, Hb. simpl.
  by erewrite bind_Ok by (by apply Move_inline_inline).
Qed.

(** Assignment through a temporary when [*this] and the temporary hold the
    same type in place. *)
Lemma swap_temporary_into_same_inline a tmp This T vt st v self s :
  objects s !! a = Some This ->
  info This = info_of T -> buff This = obj T v self ->
  info tmp = info_of T -> buff tmp = obj T vt st ->
  capacity tmp = capacity This ->
  NeedsAlloc T (capacity This) = false ->
  swap_temporary_into a tmp s
  = Ok tt (set_objects
             (<[a := mk_any (capacity This) (info_of T) (obj T vt (in_buffer a))]>
                (objects s))
             (log [ev_ctor move_ctor T in_swap_tmp; ev_dtor T (in_buffer a);
                   ev_ctor move_ctor T (in_buffer a); ev_dtor T in_temporary;
                   ev_ctor move_ctor T in_temporary; ev_dtor T in_swap_tmp;
                   ev_dtor T in_temporary] s)).
Proof.
  intros Ha HT Hb HTt Hbt Hcap HN. unfold swap_temporary_into.
  erewrite bind_Ok by (by apply get_Some).
  erewrite bind_Ok
    by (eapply swap_values_same_inline; eauto; by rewrite Hcap).
  simpl. rewrite Hcap.
  unfold bind at 1. unfold put at 1.
  unfold reset_at. simpl.
  erewrite bind_Ok by (by erewrite bind_Ok by (by apply CleanUp_inline)).
  unfold ret, set_objects, log. simpl. by rewrite <- !app_assoc.
Qed.

(** ** Releasing the value of a well-formed container *)

Lemma owned_block_Some c p :
  owned_block c = Some p <->
  needsAlloc (info c) (capacity c) = true /\ buff c = ptr p.
Proof.
  unfold owned_block. destruct (needsAlloc (info c) (capacity c)).
  - destruct (buff c); split; try done; try (by intros [_ ?]).
    + by intros [= ->].
    + by intros [_ [= ->]].
  - split; [done | by intros [? _]].
Qed.

Lemma wf_owned_live s l c p :
  wf_any s l c -> owned_block c = Some p -> is_Some (heap s !! p).
Proof.
  intros Hwf Ho. apply owned_block_Some in Ho as [Hn Hb].
  destruct (wf_any_inv _ _ _ Hwf) as [Hv | (T & v & HT & Hst)];
    [by rewrite Hv in Hn|].
  rewrite HT in Hn. simpl in Hn.
  destruct (stored_heap_inv _ _ _ _ _ _ Hn Hst) as (q & Hq & Hl).
  rewrite Hb in Hq. injection Hq as <-. eauto.
Qed.

Lemma cleanUp_releases s l c :
  wf_any s l c ->
  exists b1,
    cleanUp (info c) l (buff c) (capacity c) s
    = Ok b1 (mk_state (objects s) (heap_without c (heap s)) (next_block s)
                      (alloc_budget s) (trace s ++ release_events l c)) /\
    (info c = info_void -> b1 = buff c).
Proof.
  intros Hwf. unfold heap_without, release_events, owned_block.
  destruct (wf_any_inv _ _ _ Hwf) as [Hv | (T & v & HT & Hst)].
  { rewrite Hv. simpl. exists (buff c). rewrite app_nil_r. by destruct s. }
  rewrite HT. simpl.
  destruct (NeedsAlloc T (capacity c)) eqn:HN.
  - destruct (stored_heap_inv _ _ _ _ _ _ HN Hst) as (p & -> & Hp).
    erewrite CleanUp_heap by done. by exists (ptr p).
  - destruct (stored_inline_inv _ _ _ _ _ _ HN Hst) as (self & -> & _).
    erewrite CleanUp_inline by done. by exists raw.
Qed.

Lemma release_events_empty l c : info c = info_void -> release_events l c = [].
Proof. unfold release_events. by intros ->. Qed.

Lemma heap_without_empty c h : info c = info_void -> heap_without c h = h.
Proof. unfold heap_without, owned_block. by intros ->. Qed.

Lemma lookup_heap_without c h q :
  heap_without c h !! q = if decide (owned_block c = Some q) then None else h !! q.
Proof.
  unfold heap_without. destruct (owned_block c) as [p|].
  - destruct (decide (Some p = Some q)) as [[= ->]|Hne].
    + apply lookup_delete_eq.
    + apply lookup_delete_ne. congruence.
  - by rewrite decide_False.
Qed.

(** ** C1: when move construction can fail *)

Lemma move_ctor_noexcept_iff (M N : nat) :
  move_ctor_noexcept M N = true <-> M <= N.
Proof.
  unfold move_ctor_noexcept. case_decide as HMN.
  - subst. split; [lia|done].
  - rewrite Nat.ltb_lt. lia.
Qed.

(** C1. Move construction of a [sized_any<N>] from a [sized_any<M>] is
    declared [noexcept] exactly when [M <= N]; with [M <= N] it always
    completes; and it fails exactly when the value was stored in place at
    [M], needs allocation at [N], and [operator new] fails, which requires
    [M > N]. *)
Theorem move_construction_noexcept (N : nat) (lother l : loc) (other : sized_any)
    (s : state) :
  wf_any s lother other ->
  (move_ctor_noexcept (capacity other) N = true <-> capacity other <= N) /\
  (capacity other <= N -> exists r s', ctor_move N lother l other s = Ok r s') /\
  (forall e s', ctor_move N lother l other s = Throw e s' <->
     e = bad_alloc /\ s' = s /\ alloc_budget s = 0 /\
     needsAlloc (info other) N = true /\
     needsAlloc (info other) (capacity other) = false) /\
  (needsAlloc (info other) N = true ->
   needsAlloc (info other) (capacity other) = false -> N < capacity other).
Proof.
  intros Hwf. split; [apply move_ctor_noexcept_iff|].
  assert (Hlt : needsAlloc (info other) N = true ->
                needsAlloc (info other) (capacity other) = false ->
                N < capacity other).
  { intros HN HM. destruct (decide (N < capacity other)) as [|Hge]; [done|].
    rewrite (needsAlloc_mono (info other) (capacity other) N) in HM by (done || lia).
    done. }
  destruct (wf_any_inv _ _ _ Hwf) as [Hv | (T & v & HT & Hst)].
  - (* the source is empty: the Void descriptor does nothing *)
    unfold ctor_move. rewrite Hv. simpl. unfold bind, ret. simpl.
    split; [eauto|]. split; [|done].
    intros e s'. split; [done|]. intros (_ & _ & _ & ? & _). done.
  - unfold ctor_move. rewrite HT in *. simpl in *. unfold Move, bind, ret.
    destruct (NeedsAlloc T N) eqn:HN, (NeedsAlloc T (capacity other)) eqn:HM.
    + destruct (stored_heap_inv _ _ _ _ _ _ HM Hst) as (p & -> & Hp). simpl.
      split; [eauto|]. split; [|done].
      intros e s'. split; [done|]. intros (_ & _ & _ & _ & ?). done.
    + destruct (stored_inline_inv _ _ _ _ _ _ HM Hst) as (self & -> & _).
      rewrite read_obj_same. unfold new_object, operator_new, emit.
      destruct (alloc_budget s) as [|n] eqn:Hb.
      * split; [intros Hle; specialize (Hlt eq_refl eq_refl); lia|].
        split; [|done].
        intros e s'. split; [by intros [= <- <-]|]. by intros (-> & -> & _).
      * split; [eauto|]. split; [|done].
        intros e s'. split; [done|]. intros (_ & _ & ? & _). done.
    + destruct (stored_heap_inv _ _ _ _ _ _ HM Hst) as (p & -> & Hp). simpl.
      rewrite (deref_live _ _ _ _ Hp). unfold emit, operator_delete, bind. simpl.
      unfold deref. simpl. rewrite Hp, decide_True by done. simpl.
      split; [eauto|]. split; [|done].
      intros e s'. split; [done|]. intros (_ & _ & _ & ? & _). done.
    + destruct (stored_inline_inv _ _ _ _ _ _ HM Hst) as (self & -> & _).
      rewrite read_obj_same. unfold emit. simpl.
      split; [eauto|]. split; [|done].
      intros e s'. split; [done|]. intros (_ & _ & _ & ? & _). done.
Qed.

Lemma move_construction_noexcept_witness :
  wf_any (initial 0) (in_buffer 0) big_inline_any /\
  ctor_move 32 (in_buffer 0) (in_buffer 1) big_inline_any (initial 0)
  = Throw bad_alloc (initial 0).
Proof.
  assert (Hwf : wf_any (initial 0) (in_buffer 0) big_inline_any)
    by (vm_compute; discriminate).
  split; [exact Hwf|].
  apply (move_construction_noexcept 32 (in_buffer 0) (in_buffer 1)
           big_inline_any (initial 0) Hwf).
  vm_compute. repeat split.
Defined.

(** ** C2: same-capacity [swap] *)

(** C2 on the code.  [a] is an empty [sized_any<32>], [b] a [sized_any<32>]
    holding the [int] 42.  [a.swap(b)] moves the 42 into [tmp], then calls
    [move] twice through [a]'s descriptor, which is the Void one and does
    nothing: [a] ends with the [int] descriptor over a buffer nobody wrote,
    [b] is empty, and the 42 is gone with [tmp].  Extracting from [a] reads
    raw storage, and so does the second [a.swap(b)]: the two swaps do not
    restore the original contents. *)
Theorem swap_empty_with_value_loses_value :
  content_at empty_and_int 0 = Some empty /\
  content_at empty_and_int 1 = Some (holding int_t 42) /\
  exists s1,
    swap 0 1 empty_and_int = Ok tt s1 /\
    objects s1 !! 0 = Some (mk_any 32 (info_of int_t) raw) /\
    objects s1 !! 1 = Some (mk_any 32 info_void raw) /\
    content_at s1 0 = Some broken /\
    content_at s1 1 = Some empty /\
    any_cast int_t 0 s1 = UB /\
    swap 0 1 s1 = UB.
Proof.
  split; [reflexivity|]. split; [reflexivity|].
  eexists. split; [vm_compute; reflexivity|].
  repeat split; vm_compute; reflexivity.
Qed.

(** The same for every capacity and every contained type: when [*this] is
    empty, [swap] hands it [other]'s descriptor and leaves its buffer as it
    was. *)
Lemma swap_never_writes_empty_this a b A B s s' :
  b <> a ->
  objects s !! a = Some A -> objects s !! b = Some B ->
  info A = info_void ->
  swap a b s = Ok tt s' ->
  objects s' !! a = Some (mk_any (capacity A) (info B) (buff A)).
Proof.
  intros Hne Ha Hb Hv H. unfold swap in H. rewrite decide_False in H by done.
  erewrite bind_Ok in H by (by apply get_Some).
  erewrite bind_Ok in H by (by apply get_Some).
  apply bind_Ok_inv in H as ([A' B'] & s1 & Hsw & H).
  apply bind_Ok_inv in H as ([] & s2 & Hp & H).
  injection Hp as <-. injection H as <-. simpl.
  rewrite lookup_insert_ne by done. rewrite lookup_insert_eq.
  unfold swap_values in Hsw. rewrite Hv in Hsw.
  apply bind_Ok_inv in Hsw as ([bB1 t1] & s3 & _ & Hsw). simpl in Hsw.
  unfold bind, ret in Hsw. simpl in Hsw.
  destruct (decide (info_void <> info B)) as [Hd | Hd]; injection Hsw as <- _ _.
  - done.
  - apply dec_stable in Hd. by rewrite <- Hd.
Qed.

(** In those cases [swap] exchanges the contents, and interior pointers of
    values stored in place refer to their new buffers. *)
Lemma swap_exchanges a b A B s :
  b <> a ->
  objects s !! a = Some A -> objects s !! b = Some B ->
  capacity B = capacity A ->
  wf_any s (in_buffer a) A -> wf_any s (in_buffer b) B ->
  swap_agrees A B ->
  exists s1 A' B',
    swap a b s = Ok tt s1 /\
    objects s1 !! a = Some A' /\ objects s1 !! b = Some B' /\
    info A' = info B /\ info B' = info A /\
    capacity A' = capacity A /\ capacity B' = capacity B /\
    content_of s1 (in_buffer a) A' = content_of s (in_buffer b) B /\
    content_of s1 (in_buffer b) B' = content_of s (in_buffer a) A.
Proof.
  intros Hne Ha Hb Hcap HwfA HwfB Hagree.
  unfold swap. rewrite decide_False by done.
  erewrite bind_Ok by (by apply get_Some).
  erewrite bind_Ok by (by apply get_Some).
  destruct (wf_any_inv _ _ _ HwfA) as [HvA | (TA & va & HTA & HstA)];
  destruct (wf_any_inv _ _ _ HwfB) as [HvB | (TB & vb & HTB & HstB)].
  - (* both empty *)
    unfold swap_values. rewrite HvA, HvB. simpl.
    unfold bind, put, ret, set_objects. simpl.
    do 3 eexists. split; [reflexivity|]. simpl.
    rewrite lookup_insert_ne by done. rewrite !lookup_insert_eq.
    repeat split; try done.
    + unfold content_of. simpl. by rewrite HvB.
    + unfold content_of. simpl. by rewrite HvA.
  - destruct Hagree as [He | [HnA _]]; [congruence | by rewrite HvA in HnA].
  - destruct Hagree as [He | [_ HnB]]; [congruence | by rewrite HvB in HnB].
  - destruct (NeedsAlloc TA (capacity A)) eqn:HNA.
    + (* both heap-backed *)
      assert (HNB : NeedsAlloc TB (capacity A) = true).
      { destruct Hagree as [He | [_ HnB]].
        - rewrite HTA, HTB in He. injection He as <-. done.
        - by rewrite HTB in HnB. }
      rewrite Hcap in HstB.
      destruct (stored_heap_inv _ _ _ _ _ _ HNA HstA) as (pa & HbA & Hpa).
      destruct (stored_heap_inv _ _ _ _ _ _ HNB HstB) as (pb & HbB & Hpb).
      erewrite bind_Ok
        by (eapply swap_values_heap; eauto; by rewrite ?HTA, ?HTB).
      simpl. unfold bind, put, ret, set_objects. simpl.
      do 3 eexists. split; [reflexivity|]. simpl.
      rewrite lookup_insert_ne by done. rewrite !lookup_insert_eq.
      repeat split; try done.
      * unfold content_of. simpl. rewrite ?HTB, ?Hcap, ?HstB.
        by erewrite stored_heap_intro.
      * unfold content_of. simpl. rewrite ?HTA, ?Hcap, ?HstA.
        by erewrite stored_heap_intro.
    + (* the same type, stored in place *)
      destruct Hagree as [He | [HnA _]];
        [|by rewrite HTA in HnA; simpl in HnA; congruence].
      rewrite HTA, HTB in He. injection He as <-.
      rewrite Hcap in HstB.
      destruct (stored_inline_inv _ _ _ _ _ _ HNA HstA) as (sa & HbA & _).
      destruct (stored_inline_inv _ _ _ _ _ _ HNA HstB) as (sb & HbB & _).
      erewrite bind_Ok by (by eapply swap_values_same_inline).
      simpl. unfold bind, put, ret, set_objects. simpl.
      do 3 eexists. split; [reflexivity|]. simpl.
      rewrite lookup_insert_ne by done. rewrite !lookup_insert_eq.
      repeat split; try done.
      * unfold content_of. simpl. rewrite ?HTB, ?Hcap, ?HstB.
        by rewrite stored_inline_intro.
      * unfold content_of. simpl. rewrite ?HTA, ?Hcap, ?HstA.
        by rewrite stored_inline_intro.
Qed.

(** In those cases [swap] is its own inverse. *)
Lemma swap_twice_restores a b A B s :
  b <> a ->
  objects s !! a = Some A -> objects s !! b = Some B ->
  capacity B = capacity A ->
  wf_any s (in_buffer a) A -> wf_any s (in_buffer b) B ->
  swap_agrees A B ->
  exists s2,
    (let* _ := swap a b in swap a b) s = Ok tt s2 /\
    content_at s2 a = content_at s a /\
    content_at s2 b = content_at s b.
Proof.
  intros Hne Ha Hb Hcap HwfA HwfB Hagree.
  destruct (swap_exchanges a b A B s) as
    (s1 & A1 & B1 & Hs1 & Ha1 & Hb1 & HiA1 & HiB1 & HcA1 & HcB1 & HA1 & HB1);
    try done.
  destruct (swap_exchanges a b A1 B1 s1) as
    (s2 & A2 & B2 & Hs2 & Ha2 & Hb2 & _ & _ & _ & _ & HA2 & HB2);
    try done.
  - congruence.
  - unfold wf_any. rewrite HA1. apply HwfB.
  - unfold wf_any. rewrite HB1. apply HwfA.
  - unfold swap_agrees in *. rewrite HiA1, HiB1, HcA1.
    destruct Hagree as [He | [H1 H2]]; [by left | by right].
  - exists s2. erewrite bind_Ok by exact Hs1. split; [exact Hs2|].
    unfold content_at. rewrite Ha2, Hb2, Ha, Hb. simpl.
    by rewrite HA2, HB2, HB1, HA1.
Qed.

(** The cross-capacity [swap], in its branch for a smaller [other], moves
    each value through the descriptor of the container it came from, and
    does exchange an empty container with one holding a value. *)
Lemma swap_cross_smaller_other_exchanges :
  exists s1,
    swap_cross 0 1 empty64_and_int32 = Ok tt s1 /\
    content_at s1 0 = Some (holding int_t 42) /\
    content_at s1 1 = Some empty.
Proof.
  eexists. split; [vm_compute; reflexivity|].
  split; vm_compute; reflexivity.
Qed.

(** The older header exchanges the raw buffers: a value stored in place
    that points into its own storage then points into the other container,
    whereas the descriptor-driven [swap] rebuilds it where it now lives. *)
Lemma legacy_swap_breaks_interior_pointers :
  (exists s1,
     Legacy.swap 0 1 two_strings = Ok tt s1 /\
     objects s1 !! 0 = Some (mk_any 32 (info_of string_t) (obj string_t 2 (in_buffer 1))) /\
     content_at s1 0 = Some broken /\
     content_at s1 1 = Some broken) /\
  (exists s1,
     swap 0 1 two_strings = Ok tt s1 /\
     content_at s1 0 = Some (holding string_t 2) /\
     content_at s1 1 = Some (holding string_t 1)).
Proof.
  split; eexists; (split; [vm_compute; reflexivity|]);
    repeat split; vm_compute; reflexivity.
Qed.


(** ** C3: when [emplace] reuses the heap block *)

(** Releasing the representation of a well-formed container succeeds and
    takes nothing from the allocator. *)
Lemma cleanUp_wf s l c :
  wf_any s l c ->
  exists b1 s1,
    cleanUp (info c) l (buff c) (capacity c) s = Ok b1 s1 /\
    objects s1 = objects s /\ next_block s1 = next_block s /\
    alloc_budget s1 = alloc_budget s /\
    (forall q, heap s !! q = None -> heap s1 !! q = None).
Proof.
  intros Hwf.
  destruct (wf_any_inv _ _ _ Hwf) as [Hv | (T & v & HT & Hst)].
  { rewrite Hv. simpl. exists (buff c), s. by repeat split. }
  rewrite HT. simpl.
  destruct (NeedsAlloc T (capacity c)) eqn:HN.
  - destruct (stored_heap_inv _ _ _ _ _ _ HN Hst) as (p & -> & Hp).
    erewrite CleanUp_heap by done. do 2 eexists. split; [reflexivity|].
    simpl. repeat split; try done.
    intros q Hq. destruct (decide (q = p)) as [->|Hne].
    + by rewrite lookup_delete_eq.
    + by rewrite lookup_delete_ne.
  - destruct (stored_inline_inv _ _ _ _ _ _ HN Hst) as (self & -> & _).
    erewrite CleanUp_inline by done. do 2 eexists. split; [reflexivity|].
    by repeat split.
Qed.

Lemma emplace_reuse T v a c T0 v0 p s :
  objects s !! a = Some c ->
  info c = info_of T0 -> buff c = ptr p ->
  heap s !! p = Some (live T0 v0) ->
  NeedsAlloc T (capacity c) = true ->
  NeedsAlloc T0 (capacity c) = true ->
  sizeof T0 = sizeof T ->
  emplace T v a s
  = Ok (on_heap p)
       (mk_state (<[a := mk_any (capacity c) (info_of T) (ptr p)]> (objects s))
                 (<[p := live T v]> (heap s))
                 (next_block s) (alloc_budget s)
                 (trace s ++ [ev_dtor T0 (on_heap p);
                              ev_ctor direct_init T (on_heap p)])).
Proof.
  intros Ha HT0 Hb Hp HN HN0 Hsz. unfold emplace.
  erewrite bind_Ok by (by apply get_Some). simpl.
  rewrite HN, HT0. simpl. rewrite HN0. unfold Size. rewrite Hsz, Nat.eqb_refl.
  simpl. rewrite Hb.
  unfold DestructReuseHeap, destroy_at, bind. simpl.
  rewrite (deref_live _ _ _ _ Hp). unfold emit, set_heap. simpl.
  unfold construct_at. simpl. rewrite lookup_insert_eq.
  rewrite decide_True by lia. unfold put, set_objects, ret. simpl.
  by rewrite insert_insert_eq, <- app_assoc.
Qed.

Lemma emplace_fresh_heap T v a c b1 s1 n s :
  objects s !! a = Some c ->
  NeedsAlloc T (capacity c) = true ->
  emplace_reuse_test T c = false ->
  cleanUp (info c) (in_buffer a) (buff c) (capacity c) s = Ok b1 s1 ->
  objects s1 = objects s ->
  alloc_budget s1 = S n ->
  emplace T v a s
  = Ok (on_heap (next_block s1))
       (mk_state (<[a := mk_any (capacity c) (info_of T) (ptr (next_block s1))]>
                    (objects s))
                 (<[next_block s1 := live T v]> (heap s1))
                 (S (next_block s1)) n
                 (trace s1 ++ [ev_alloc (next_block s1) (sizeof T);
                               ev_ctor direct_init T (on_heap (next_block s1))])).
Proof.
  intros Ha HN Htest Hclean Hobj Hbud. unfold emplace.
  erewrite bind_Ok by (by apply get_Some). simpl.
  unfold emplace_reuse_test in Htest. rewrite HN in *. simpl in Htest.
  rewrite Htest.
  erewrite bind_Ok by exact Hclean.
  unfold bind, put, new_object, operator_new, set_objects, ret. simpl. rewrite Hbud. simpl.
  by rewrite Hobj, !insert_insert_eq.
Qed.

Lemma emplace_inline T v a c b1 s1 s :
  objects s !! a = Some c ->
  NeedsAlloc T (capacity c) = false ->
  cleanUp (info c) (in_buffer a) (buff c) (capacity c) s = Ok b1 s1 ->
  objects s1 = objects s ->
  emplace T v a s
  = Ok (in_buffer a)
       (mk_state (<[a := mk_any (capacity c) (info_of T) (obj T v (in_buffer a))]>
                    (objects s))
                 (heap s1) (next_block s1) (alloc_budget s1)
                 (trace s1 ++ [ev_ctor direct_init T (in_buffer a)])).
Proof.
  intros Ha HN Hclean Hobj. unfold emplace.
  erewrite bind_Ok by (by apply get_Some). simpl. rewrite HN.
  erewrite bind_Ok by exact Hclean.
  unfold bind, put, emit, set_objects, ret. simpl.
  by rewrite Hobj, !insert_insert_eq.
Qed.

Lemma emplace_reuse_test_true T c :
  emplace_reuse_test T c = true <->
  NeedsAlloc T (capacity c) = true /\
  needsAlloc (info c) (capacity c) = true /\
  size (info c) = sizeof T.
Proof.
  unfold emplace_reuse_test, Size.
  rewrite !andb_true_iff, Nat.eqb_eq. tauto.
Qed.

(** C3. [emplace] keeps the container's heap block exactly when the new
    type and the contained type both need allocation at the container's
    capacity and have the same size: then the old value is destroyed and the
    new one built in the same block, with no allocation and no deallocation.
    In every other case the old representation is released first, in full:
    [CleanUp] runs the old value's destructor, once, and deallocates its
    block when it had one, so that the block is no longer in the free store;
    only then is the new value built, in a block the allocator hands out
    afresh or in place. *)
Theorem emplace_reuses_heap_iff (T : CType) (v : Z) (a : addr) (c : sized_any)
    (s : state) :
  objects s !! a = Some c ->
  wf_any s (in_buffer a) c ->
  heap_fresh s ->
  (emplace_reuse_test T c = false -> NeedsAlloc T (capacity c) = true ->
   0 < alloc_budget s) ->
  exists l s',
    emplace T v a s = Ok l s' /\
    content_at s' a = Some (holding T v) /\
    (reuses_heap_block s s' a <->
       NeedsAlloc T (capacity c) = true /\
       needsAlloc (info c) (capacity c) = true /\
       size (info c) = sizeof T) /\
    (reuses_heap_block s s' a ->
       next_block s' = next_block s /\ alloc_budget s' = alloc_budget s /\
       exists T0 p,
         info c = info_of T0 /\ buff c = ptr p /\ l = on_heap p /\
         trace s' = trace s ++ [ev_dtor T0 (on_heap p);
                                ev_ctor direct_init T (on_heap p)] /\
         heap s' = <[p := live T v]> (heap s)) /\
    (~ reuses_heap_block s s' a ->
       (exists b1,
          cleanUp (info c) (in_buffer a) (buff c) (capacity c) s
          = Ok b1 (mk_state (objects s) (heap_without c (heap s)) (next_block s)
                            (alloc_budget s)
                            (trace s ++ release_events (in_buffer a) c))) /\
       (forall p, owned_block c = Some p -> heap s' !! p = None) /\
       if NeedsAlloc T (capacity c)
       then l = on_heap (next_block s) /\
            heap s !! next_block s = None /\
            heap s' = <[next_block s := live T v]> (heap_without c (heap s)) /\
            trace s' = trace s ++ release_events (in_buffer a) c ++
                       [ev_alloc (next_block s) (sizeof T);
                        ev_ctor direct_init T (on_heap (next_block s))]
       else l = in_buffer a /\
            heap s' = heap_without c (heap s) /\
            trace s' = trace s ++ release_events (in_buffer a) c ++
                       [ev_ctor direct_init T (in_buffer a)]).
Proof.
  intros Ha Hwf Hfresh Hbudget.
  destruct (emplace_reuse_test T c) eqn:Htest.
  - (* the block is reused *)
    pose proof Htest as Hcond.
    apply emplace_reuse_test_true in Hcond as (HN & HN0 & Hsz).
    destruct (wf_any_inv _ _ _ Hwf) as [Hv | (T0 & v0 & HT0 & Hst)];
      [by rewrite Hv in HN0|].
    rewrite HT0 in HN0, Hsz. simpl in HN0, Hsz.
    destruct (stored_heap_inv _ _ _ _ _ _ HN0 Hst) as (p & Hb & Hp).
    do 2 eexists. split; [by eapply emplace_reuse|].
    assert (Hreuse : reuses_heap_block s
      (mk_state (<[a := mk_any (capacity c) (info_of T) (ptr p)]> (objects s))
                (<[p := live T v]> (heap s)) (next_block s) (alloc_budget s)
                (trace s ++ [ev_dtor T0 (on_heap p);
                             ev_ctor direct_init T (on_heap p)])) a).
    { exists c, (mk_any (capacity c) (info_of T) (ptr p)), p. simpl.
      rewrite lookup_insert_eq, HT0. by repeat split. }
    split.
    { unfold content_at, content_of. simpl. rewrite lookup_insert_eq. simpl.
      erewrite stored_heap_intro; [done|done|]. simpl. apply lookup_insert_eq. }
    split; [split; [intros _; by apply emplace_reuse_test_true | done]|].
    split; [|done].
    intros _. simpl. repeat split. by exists T0, p.
  - (* the old representation is released, the new value built afresh *)
    destruct (cleanUp_releases _ _ _ Hwf) as (b1 & Hclean & _).
    assert (Hgone : forall h p, owned_block c = Some p ->
              heap_without c h !! p = None).
    { intros h p Hp. rewrite lookup_heap_without. by rewrite decide_True. }
    destruct (NeedsAlloc T (capacity c)) eqn:HN.
    + specialize (Hbudget eq_refl eq_refl).
      destruct (alloc_budget s) as [|n] eqn:Hn; [lia|].
      do 2 eexists. split.
      { eapply emplace_fresh_heap; [done | done | done | exact Hclean | done | done]. }
      simpl.
      assert (Hno : ~ reuses_heap_block s
        (mk_state (<[a := mk_any (capacity c) (info_of T) (ptr (next_block s))]>
                     (objects s))
                  (<[next_block s := live T v]> (heap_without c (heap s)))
                  (S (next_block s)) n
                  ((trace s ++ release_events (in_buffer a) c) ++
                   [ev_alloc (next_block s) (sizeof T);
                    ev_ctor direct_init T (on_heap (next_block s))])) a).
      { intros (c0 & c' & p & Hc0 & Hc' & Hn0 & Hb0 & _ & Hb'). simpl in Hc'.
        rewrite lookup_insert_eq in Hc'. injection Hc' as <-. simpl in Hb'.
        injection Hb' as Hp. rewrite Ha in Hc0. injection Hc0 as <-.
        destruct (wf_any_inv _ _ _ Hwf) as [Hv | (T0 & v0 & HT0 & Hst)];
          [by rewrite Hv in Hn0|].
        rewrite HT0 in Hn0. simpl in Hn0.
        destruct (stored_heap_inv _ _ _ _ _ _ Hn0 Hst) as (q & Hb & Hq).
        rewrite Hb in Hb0. injection Hb0 as ->.
        rewrite Hfresh in Hq by lia. done. }
      split.
      { unfold content_at, content_of. simpl. rewrite lookup_insert_eq. simpl.
        erewrite stored_heap_intro; [done|done|]. simpl. apply lookup_insert_eq. }
      split.
      { split; [done|]. intros (_ & Hc).
        assert (emplace_reuse_test T c = true)
          by (apply emplace_reuse_test_true; by rewrite HN).
        congruence. }
      split; [done|].
      intros _. split; [by exists b1|]. split.
      { intros p Hp. simpl.
        destruct (wf_owned_live _ _ _ _ Hwf Hp) as [blk Hblk].
        rewrite lookup_insert_ne; [by apply Hgone|].
        intros <-. rewrite Hfresh in Hblk by lia. done. }
      split; [done|]. split; [by apply Hfresh|]. split; [done|].
      by rewrite <- app_assoc.
    + do 2 eexists. split.
      { eapply emplace_inline; [done | done | exact Hclean | done]. }
      simpl.
      assert (Hno : ~ reuses_heap_block s
        (mk_state (<[a := mk_any (capacity c) (info_of T) (obj T v (in_buffer a))]>
                     (objects s))
                  (heap_without c (heap s)) (next_block s) (alloc_budget s)
                  ((trace s ++ release_events (in_buffer a) c) ++
                   [ev_ctor direct_init T (in_buffer a)])) a).
      { intros (c0 & c' & p & _ & Hc' & _ & _ & _ & Hb'). simpl in Hc'.
        rewrite lookup_insert_eq in Hc'. by injection Hc' as <-. }
      split.
      { unfold content_at, content_of. simpl. rewrite lookup_insert_eq. simpl.
        by rewrite stored_inline_intro. }
      split; [split; [done | by intros (? & _)]|].
      split; [done|].
      intros _. split; [by exists b1|]. split; [intros p Hp; by apply Hgone|].
      split; [done|]. split; [done|]. by rewrite <- app_assoc.
Qed.

Lemma emplace_reuses_heap_iff_witness :
  (exists l s',
     emplace other32_t 3 0 heap_string_at_0 = Ok l s' /\
     reuses_heap_block heap_string_at_0 s' 0) /\
  (exists l s',
     emplace int_t 3 0 heap_string_at_0 = Ok l s' /\
     heap s' !! 5 = None /\
     trace s' = [ev_dtor string_t (on_heap 5); ev_free 5;
                 ev_ctor direct_init int_t (in_buffer 0)]).
Proof.
  split.
  - destruct (emplace_reuses_heap_iff other32_t 3 0
                (mk_any 16 (info_of string_t) (ptr 5)) heap_string_at_0)
      as (l & s' & H1 & _ & H2 & _).
    + reflexivity.
    + vm_compute. discriminate.
    + intros p Hp. simpl in Hp.
      apply lookup_singleton_ne. lia.
    + vm_compute. discriminate.
    + exists l, s'. split; [exact H1|]. apply H2. vm_compute. repeat split.
  - destruct (emplace_reuses_heap_iff int_t 3 0
                (mk_any 16 (info_of string_t) (ptr 5)) heap_string_at_0)
      as (l & s' & H1 & _ & H2 & _ & H3).
    + reflexivity.
    + vm_compute. discriminate.
    + intros p Hp. simpl in Hp.
      apply lookup_singleton_ne. lia.
    + intros _ Hn. vm_compute in Hn. discriminate.
    + destruct H3 as (_ & Hgone & _ & _ & Htrace).
      { intros Hr. apply H2 in Hr as (Hn & _). vm_compute in Hn. discriminate. }
      exists l, s'. split; [exact H1|]. split.
      * apply Hgone. reflexivity.
      * rewrite Htrace. reflexivity.
Defined.

(** ** C4: a value put in comes out, under its own type only *)

(** C4. For every type [T], every other type [U] and every capacity
    [N >= sizeof(void* )]: a container constructed from a [T] of value [v]
    yields [v] when extracted as [T], and extraction as [U] fails: the
    reference form throws [bad_any_cast], the pointer form returns null. *)
Theorem value_round_trip (k : ctor_kind) (T U : CType) (N : nat) (a : addr)
    (v : Z) (s : state) :
  pointer_size <= N ->
  (NeedsAlloc T N = true -> 0 < alloc_budget s) ->
  U <> T ->
  exists s',
    construct_value k N a T v s = Ok tt s' /\
    content_at s' a = Some (holding T v) /\
    any_cast T a s' = Ok v s' /\
    any_cast U a s' = Throw bad_any_cast s' /\
    any_cast_ptr U (Some a) s' = Ok None s'.
Proof.
  intros _ Hbudget HU.
  unfold construct_value, ctor_value.
  destruct (NeedsAlloc T N) eqn:HN.
  - specialize (Hbudget eq_refl).
    unfold bind at 1. unfold bind at 1. unfold new_object, operator_new.
    destruct (alloc_budget s) as [|n] eqn:Hb; [lia|].
    simpl. eexists. split; [reflexivity|].
    unfold content_at, content_of, any_cast, any_cast_ptr, bind, get, stored. simpl.
    rewrite lookup_insert_eq. simpl. rewrite HN. rewrite lookup_insert_eq.
    rewrite !decide_True by done. split; [done|].
    rewrite decide_False by (intros H; by apply H). simpl.
    unfold deref. simpl. rewrite lookup_insert_eq. rewrite decide_True by done.
    split; [done|].
    rewrite decide_True by congruence. done.
  - simpl. unfold bind, emit, put. simpl. eexists. split; [reflexivity|].
    unfold content_at, content_of, any_cast, any_cast_ptr, bind, get. simpl.
    rewrite lookup_insert_eq. simpl. rewrite stored_inline_intro by done.
    split; [done|].
    rewrite decide_False by (intros H; by apply H). rewrite HN. simpl.
    unfold bind, get. simpl. rewrite lookup_insert_eq. simpl.
    rewrite decide_True by done.
    split; [done|].
    rewrite decide_True by congruence. done.
Qed.

Lemma value_round_trip_witness :
  exists s',
    construct_value copy_ctor 32 0 int_t 42 (initial 0) = Ok tt s' /\
    any_cast int_t 0 s' = Ok 42%Z s' /\
    any_cast double_t 0 s' = Throw bad_any_cast s'.
Proof.
  destruct (value_round_trip copy_ctor int_t double_t 32 0 42 (initial 0))
    as (s' & H1 & _ & H2 & H3 & _).
  - unfold pointer_size. lia.
  - vm_compute. discriminate.
  - discriminate.
  - exists s'. repeat split; assumption.
Defined.

(** ** C5: what a move leaves behind *)

(** Move construction completes unless an allocation is newly required and
    fails. *)
Lemma ctor_move_total N lo l other s :
  wf_any s lo other ->
  (0 < alloc_budget s \/ needsAlloc (info other) N = false \/
   needsAlloc (info other) (capacity other) = true) ->
  exists c o s', ctor_move N lo l other s = Ok (c, o) s'.
Proof.
  intros Hwf Hcase. unfold ctor_move.
  destruct (wf_any_inv _ _ _ Hwf) as [Hv | (T & v & HT & Hst)].
  { rewrite Hv. simpl. unfold bind, ret. eauto. }
  rewrite HT in *. simpl in *.
  destruct (NeedsAlloc T N) eqn:HN, (NeedsAlloc T (capacity other)) eqn:HM.
  - destruct (stored_heap_inv _ _ _ _ _ _ HM Hst) as (p & -> & Hp).
    erewrite bind_Ok by (by apply Move_heap_heap). simpl. unfold ret. eauto.
  - destruct (stored_inline_inv _ _ _ _ _ _ HM Hst) as (self & -> & _).
    destruct Hcase as [Hb | [? | ?]]; try done.
    destruct (alloc_budget s) as [|n] eqn:Hn; [lia|].
    erewrite bind_Ok by (by eapply Move_inline_heap). simpl. unfold ret. eauto.
  - destruct (stored_heap_inv _ _ _ _ _ _ HM Hst) as (p & -> & Hp).
    erewrite bind_Ok by (by eapply Move_heap_inline). simpl. unfold ret. eauto.
  - destruct (stored_inline_inv _ _ _ _ _ _ HM Hst) as (self & -> & _).
    erewrite bind_Ok by (by apply Move_inline_inline). simpl. unfold ret. eauto.
Qed.

(** Move assignment from another container completes when the two
    containers hold the same type, or are both heap-backed. *)
Lemma move_assign_completes a rhs This R s :
  rhs <> a ->
  objects s !! a = Some This -> objects s !! rhs = Some R ->
  capacity R = capacity This ->
  wf_any s (in_buffer a) This -> wf_any s (in_buffer rhs) R ->
  swap_agrees R This ->
  exists s', move_assign a rhs s = Ok tt s'.
Proof.
  intros Hne Ha Hr Hcap HwfT HwfR Hagree.
  unfold move_assign. rewrite decide_False by done.
  erewrite bind_Ok by (by apply get_Some).
  erewrite bind_Ok by (by apply get_Some).
  assert (Ha' : forall o s0, objects s0 = objects s ->
            objects (set_objects (<[rhs := o]> (objects s0)) s0) !! a = Some This).
  { intros o s0 Hs0. simpl. rewrite lookup_insert_ne by done. by rewrite Hs0. }
  destruct (wf_any_inv _ _ _ HwfR) as [HvR | (T & v & HT & Hst)];
  destruct (wf_any_inv _ _ _ HwfT) as [HvT | (T' & v' & HT' & Hst')].
  - (* both empty *)
    unfold ctor_move. rewrite HvR. simpl.
    unfold bind at 1. unfold bind at 1. simpl. unfold bind, put at 1. simpl.
    unfold swap_temporary_into.
    erewrite bind_Ok by (apply get_Some; by apply Ha').
    unfold swap_values. rewrite HvT. simpl.
    unfold bind, put, reset_at, ret. simpl. eauto.
  - destruct Hagree as [He | [Hn _]]; [congruence | by rewrite HvR in Hn].
  - destruct Hagree as [He | [_ Hn]]; [congruence | by rewrite HvT in Hn].
  - destruct (NeedsAlloc T (capacity R)) eqn:HN.
    + (* both heap-backed *)
      assert (HN' : NeedsAlloc T' (capacity R) = true).
      { destruct Hagree as [He | [_ Hn]].
        - rewrite HT, HT' in He. injection He as <-. done.
        - by rewrite HT' in Hn. }
      rewrite <- Hcap in Hst'.
      destruct (stored_heap_inv _ _ _ _ _ _ HN Hst) as (p & Hb & Hp).
      destruct (stored_heap_inv _ _ _ _ _ _ HN' Hst') as (p' & Hb' & Hp').
      unfold ctor_move. rewrite HT, Hb, <- Hcap. simpl.
      erewrite bind_Ok
        by (erewrite bind_Ok by (by apply Move_heap_heap); reflexivity).
      simpl. unfold bind at 1. unfold put at 1.
      unfold swap_temporary_into.
      erewrite bind_Ok by (apply get_Some; by apply Ha').
      erewrite bind_Ok
        by (eapply swap_values_heap; simpl; eauto; by rewrite ?HT').
      simpl. unfold bind at 1. unfold put at 1.
      unfold reset_at. simpl. rewrite HT'. simpl.
      erewrite bind_Ok
        by (erewrite bind_Ok by (by eapply CleanUp_heap); reflexivity).
      unfold ret. eauto.
    + (* the same type, stored in place *)
      destruct Hagree as [He | [Hn _]];
        [|by rewrite HT in Hn; simpl in Hn; congruence].
      rewrite HT, HT' in He. injection He as <-.
      rewrite <- Hcap in Hst'.
      destruct (stored_inline_inv _ _ _ _ _ _ HN Hst) as (self & Hb & _).
      destruct (stored_inline_inv _ _ _ _ _ _ HN Hst') as (self' & Hb' & _).
      erewrite bind_Ok
        by (eapply ctor_move_inline; eauto; by rewrite <- Hcap).
      simpl. unfold bind at 1. unfold put at 1.
      erewrite swap_temporary_into_same_inline;
        [eauto | by apply Ha' | eauto | eauto | done | done | by simpl
        | by rewrite <- Hcap].
Qed.

(** C5, as the code has it.  Move construction leaves its source empty, for
    every contained type and every pair of capacities, and completes whenever
    the allocation it may need succeeds; move assignment from another
    container leaves that container empty, and completes when the two hold
    the same type or are both heap-backed; move assignment of a container to
    itself is skipped and leaves it as it was. *)
Theorem move_leaves_source_empty :
  (forall N lo l other s c o s',
     ctor_move N lo l other s = Ok (c, o) s' ->
     info o = info_void /\ has_value o = false) /\
  (forall N lo l other s,
     wf_any s lo other ->
     capacity other <= N \/ 0 < alloc_budget s ->
     exists c o s', ctor_move N lo l other s = Ok (c, o) s') /\
  (forall N a src s s',
     src <> a ->
     construct_move N a src s = Ok tt s' ->
     exists o, objects s' !! src = Some o /\
               info o = info_void /\ has_value o = false) /\
  (forall a rhs s s',
     rhs <> a ->
     move_assign a rhs s = Ok tt s' \/ move_assign_cross a rhs s = Ok tt s' ->
     exists o, objects s' !! rhs = Some o /\
               info o = info_void /\ has_value o = false) /\
  (forall a rhs s This R,
     rhs <> a ->
     objects s !! a = Some This -> objects s !! rhs = Some R ->
     capacity R = capacity This ->
     wf_any s (in_buffer a) This -> wf_any s (in_buffer rhs) R ->
     swap_agrees R This ->
     exists s', move_assign a rhs s = Ok tt s') /\
  (forall a s, move_assign a a s = Ok tt s).
Proof.
  assert (Hempty : forall o, info o = info_void -> has_value o = false).
  { intros o Ho. unfold has_value. by rewrite decide_True. }
  split.
  { intros N lo l other s c o s' H.
    apply ctor_move_source_empty in H as (Ho & _). auto. }
  split.
  { intros N lo l other s Hwf Hcase. apply ctor_move_total; [done|].
    destruct Hcase as [Hle | Hb]; [|by left].
    destruct (needsAlloc (info other) N) eqn:HN; [|by right; left].
    right; right. by apply (needsAlloc_mono _ _ N). }
  split.
  { intros N a src s s' Hne H. unfold construct_move in H.
    apply bind_Ok_inv in H as (other & s1 & _ & H).
    apply bind_Ok_inv in H as ([c o] & s2 & Hm & H).
    apply bind_Ok_inv in H as ([] & s3 & Hp & H).
    injection Hp as <-. injection H as <-. simpl.
    apply ctor_move_source_empty in Hm as (Ho & _).
    exists o. rewrite lookup_insert_ne by done. rewrite lookup_insert_eq. auto. }
  split.
  { assert (Hbody : forall a rhs s s',
      rhs <> a ->
      (let* This := get a in
       let* R := get rhs in
       let* (tmp, R') := ctor_move (capacity This) (in_buffer rhs) in_temporary R in
       let* _ := put rhs R' in
       swap_temporary_into a tmp) s = Ok tt s' ->
      exists o, objects s' !! rhs = Some o /\
                info o = info_void /\ has_value o = false).
    { intros a rhs s s' Hne H.
      apply bind_Ok_inv in H as (This & s1 & _ & H).
      apply bind_Ok_inv in H as (R & s2 & _ & H).
      apply bind_Ok_inv in H as ([tmp o] & s3 & Hm & H).
      apply bind_Ok_inv in H as ([] & s4 & Hp & H).
      injection Hp as <-.
      apply ctor_move_source_empty in Hm as (Ho & _).
      exists o. rewrite (swap_temporary_into_frame _ _ _ _ rhs H Hne). simpl.
      rewrite lookup_insert_eq. auto. }
    intros a rhs s s' Hne [H | H].
    - unfold move_assign in H. rewrite decide_False in H by done. eauto.
    - unfold move_assign_cross in H. eauto. }
  split; [intros a rhs s This R; apply move_assign_completes|].
  intros a s. unfold move_assign. by rewrite decide_True.
Qed.

(** C5 as stated fails on [a = std::move(a)]: the container is the source of
    the move assignment and still holds its value afterwards. *)
Lemma move_assign_self_keeps_value :
  exists s',
    move_assign 0 0 two_ints = Ok tt s' /\
    exists c, objects s' !! 0 = Some c /\ has_value c = true.
Proof.
  exists two_ints. split; [reflexivity|].
  exists (mk_any 32 (info_of int_t) (obj int_t 7 (in_buffer 0))).
  split; reflexivity.
Qed.

Lemma move_leaves_source_empty_witness :
  exists s' o,
    move_assign 0 1 two_ints = Ok tt s' /\
    objects s' !! 1 = Some o /\ has_value o = false.
Proof.
  destruct move_leaves_source_empty as (_ & _ & _ & H & _ & _).
  assert (Hrun : exists s', move_assign 0 1 two_ints = Ok tt s')
    by (eexists; vm_compute; reflexivity).
  destruct Hrun as (s' & Hs').
  destruct (H 0 1 two_ints s') as (o & Ho & _ & Hv).
  - lia.
  - left. exact Hs'.
  - exists s', o. repeat split; assumption.
Defined.

(** ** C6: the pointer form of [any_cast] *)

(** C6. The pointer-returning [any_cast] never throws and changes nothing:
    on a null operand it returns null without looking at any container; on a
    container it returns null exactly when the container's descriptor is not
    the requested type's, and otherwise a pointer to the contained value. *)
Theorem any_cast_ptr_total (T : CType) (s : state) :
  any_cast_ptr T None s = Ok None s /\
  forall (a : addr) (c : sized_any),
    objects s !! a = Some c ->
    wf_any s (in_buffer a) c ->
    exists r,
      any_cast_ptr T (Some a) s = Ok r s /\
      (r = None <-> info c <> info_of T) /\
      (forall l, r = Some l ->
         exists v, load T l s = Ok v s /\
                   content_of s (in_buffer a) c = holding T v).
Proof.
  split; [done|]. intros a c Ha Hwf.
  unfold any_cast_ptr, bind, get. rewrite Ha.
  destruct (decide (info c <> info_of T)) as [Hne | Heq].
  { exists None. split; [done|]. split; [done|]. intros l [=]. }
  apply dec_stable in Heq.
  destruct (wf_any_inv _ _ _ Hwf) as [Hv | (T' & v & HT' & Hst)]; [congruence|].
  assert (T' = T) by congruence. subst T'.
  unfold content_of. rewrite Heq, Hst.
  destruct (NeedsAlloc T (capacity c)) eqn:HN.
  - destruct (stored_heap_inv _ _ _ _ _ _ HN Hst) as (p & Hb & Hp).
    rewrite Hb. simpl. exists (Some (on_heap p)).
    split; [done|]. split; [split; [done | by intros []]|].
    intros l [= <-]. exists v. simpl. by rewrite (deref_live _ _ _ _ Hp).
  - destruct (stored_inline_inv _ _ _ _ _ _ HN Hst) as (self & Hb & _).
    exists (Some (in_buffer a)).
    split; [done|]. split; [split; [done | by intros []]|].
    intros l [= <-]. exists v. simpl. unfold bind, get. rewrite Ha, Hb.
    by rewrite read_obj_same.
Qed.

Lemma any_cast_ptr_total_witness :
  exists r,
    any_cast_ptr string_t (Some 0) heap_string_at_0 = Ok r heap_string_at_0 /\
    (r = None <-> info_of string_t <> info_of string_t).
Proof.
  destruct (any_cast_ptr_total string_t heap_string_at_0) as [_ H].
  destruct (H 0 (mk_any 16 (info_of string_t) (ptr 5))) as (r & Hr & Hn & _).
  - reflexivity.
  - vm_compute. discriminate.
  - exists r. split; assumption.
Defined.

(** ** C7: self-assignment and self-swap *)

(** C7. Assigning a container to itself (by copy or by move) and swapping it
    with itself do nothing at all, whatever it holds: the check compares
    addresses.  Two distinct containers holding equal values of one type are
    not taken for the same one: the assignment between them runs the copy. *)
Theorem self_assignment_is_noop (s : state) (a : addr) :
  copy_assign a a s = Ok tt s /\
  move_assign a a s = Ok tt s /\
  swap a a s = Ok tt s /\
  forall (r : addr) (c c' : sized_any) (T : CType) (v : Z) (self self' : loc),
    r <> a ->
    objects s !! a = Some c ->
    objects s !! r = Some c' ->
    capacity c' = capacity c ->
    info c = info_of T -> info c' = info_of T ->
    NeedsAlloc T (capacity c) = false ->
    buff c = obj T v self -> buff c' = obj T v self' ->
    exists s',
      copy_assign a r s = Ok tt s' /\
      trace s' = trace s ++
        [ev_ctor copy_ctor T in_temporary;
         ev_ctor move_ctor T in_swap_tmp; ev_dtor T (in_buffer a);
         ev_ctor move_ctor T (in_buffer a); ev_dtor T in_temporary;
         ev_ctor move_ctor T in_temporary; ev_dtor T in_swap_tmp;
         ev_dtor T in_temporary] /\
      objects s' !! r = Some c'.
Proof.
  unfold copy_assign, move_assign, swap. rewrite !decide_True by done.
  do 3 (split; [done|]).
  intros r c c' T v self self' Hne Ha Hr Hcap HT HT' HN Hb Hb'.
  rewrite decide_False by done.
  erewrite bind_Ok by (by apply get_Some).
  erewrite bind_Ok by (by apply get_Some).
  erewrite bind_Ok by (eapply ctor_copy_inline; eauto; by rewrite Hcap).
  erewrite swap_temporary_into_same_inline; eauto.
  eexists. split; [reflexivity|]. simpl. split.
  - by rewrite <- !app_assoc.
  - by rewrite lookup_insert_ne.
Qed.

Lemma self_assignment_is_noop_witness :
  copy_assign 0 0 two_ints = Ok tt two_ints /\
  exists s', copy_assign 0 1 two_ints = Ok tt s' /\ trace s' <> trace two_ints.
Proof.
  destruct (self_assignment_is_noop two_ints 0) as (H1 & _ & _ & H2).
  split; [exact H1|].
  destruct (H2 1 (mk_any 32 (info_of int_t) (obj int_t 7 (in_buffer 0)))
              (mk_any 32 (info_of int_t) (obj int_t 7 (in_buffer 1)))
              int_t 7%Z (in_buffer 0) (in_buffer 1)) as (s' & Hs & Ht & _).
  - lia.
  - reflexivity.
  - reflexivity.
  - reflexivity.
  - reflexivity.
  - reflexivity.
  - reflexivity.
  - reflexivity.
  - reflexivity.
  - exists s'. split; [exact Hs|]. rewrite Ht. discriminate.
Defined.

(** ** C8: the allocation predicate *)

(** C8. For every contained type [T] and every capacity, the descriptor's
    [needsAlloc] answers true exactly when [sizeof(T)] exceeds the capacity or
    [T] is not nothrow-move-constructible. *)
Theorem needsAlloc_spec (T : CType) (cap : nat) :
  needsAlloc (info_of T) cap = true <->
  (sizeof T > cap \/ is_nothrow_move_constructible T = false).
Proof.
  simpl. apply NeedsAlloc_true_iff.
Qed.

(** A type that fits but whose move constructor may throw is heap-backed at
    every capacity; a type that fits and moves without throwing is not. *)
Example needsAlloc_examples :
  needsAlloc (info_of throwing_move_t) 64 = true /\
  needsAlloc (info_of int_t) 8 = false /\
  needsAlloc (info_of string_t) 16 = true /\
  needsAlloc (info_of string_t) 32 = false.
Proof. repeat split. Qed.

(** ** C9: a move between two heap-backed representations *)

(** C9. When the contained type needs allocation at the source capacity and
    at the destination capacity, move construction copies the pointer: no
    constructor runs, nothing is allocated or freed, and the pointer
    [any_cast] yields on the destination afterwards is the pointer it yielded
    on the source before. *)
Theorem move_transfers_heap_pointer (T : CType) (N : nat) (a src : addr)
    (other : sized_any) (s : state) :
  objects s !! src = Some other ->
  info other = info_of T ->
  wf_any s (in_buffer src) other ->
  NeedsAlloc T (capacity other) = true ->
  NeedsAlloc T N = true ->
  exists p s',
    any_cast_ptr T (Some src) s = Ok (Some (on_heap p)) s /\
    Move T (in_buffer src) (in_buffer a) (buff other) raw (capacity other) N s
    = Ok (buff other, ptr p) s /\
    construct_move N a src s = Ok tt s' /\
    any_cast_ptr T (Some a) s' = Ok (Some (on_heap p)) s' /\
    trace s' = trace s /\ heap s' = heap s /\
    next_block s' = next_block s /\ alloc_budget s' = alloc_budget s.
Proof.
  intros Hsrc HT Hwf HM HN.
  destruct (wf_any_inv _ _ _ Hwf) as [Hv | (T' & v & HT' & Hst)]; [congruence|].
  assert (T' = T) by congruence. subst T'.
  destruct (stored_heap_inv _ _ _ _ _ _ HM Hst) as (p & Hb & Hp).
  exists p.
  eexists. split.
  { unfold any_cast_ptr, bind, get. rewrite Hsrc, HT.
    rewrite decide_False by (intros H; by apply H).
    by rewrite HM, Hb. }
  split.
  { unfold Move, bind. by rewrite HN, HM, Hb. }
  split.
  { unfold construct_move, ctor_move, bind, get. rewrite Hsrc, HT. simpl.
    unfold Move, bind. rewrite HN, HM, Hb. simpl. reflexivity. }
  simpl. split; [|done].
  unfold any_cast_ptr, bind, get. simpl. rewrite lookup_insert_eq. simpl.
  rewrite decide_False by (intros H; by apply H).
  by rewrite HN.
Qed.

Lemma move_transfers_heap_pointer_witness :
  exists p s',
    any_cast_ptr string_t (Some 0) heap_string_at_0 = Ok (Some (on_heap p)) heap_string_at_0 /\
    construct_move 24 1 0 heap_string_at_0 = Ok tt s' /\
    any_cast_ptr string_t (Some 1) s' = Ok (Some (on_heap p)) s' /\
    trace s' = trace heap_string_at_0.
Proof.
  destruct (move_transfers_heap_pointer string_t 24 1 0
              (mk_any 16 (info_of string_t) (ptr 5)) heap_string_at_0)
    as (p & s' & H1 & _ & H2 & H3 & H4 & _).
  - reflexivity.
  - reflexivity.
  - vm_compute. discriminate.
  - reflexivity.
  - reflexivity.
  - exists p, s'. repeat split; assumption.
Defined.

(** ** C10: the empty container *)

(** C10. [reset()] and the destructor on an empty container return right
    after the descriptor comparison: whatever the buffer holds, nothing is
    destroyed, nothing is deallocated and the buffer is not read; every
    operation of the Void descriptor leaves its buffers and the state as
    they are. *)
Theorem reset_of_empty (s : state) (a : addr) (c : sized_any) :
  objects s !! a = Some c ->
  info c = info_void ->
  reset a s = Ok tt s /\
  destructor a s = Ok tt (set_objects (delete a (objects s)) s) /\
  (forall l b cap, cleanUp info_void l b cap s = Ok b s) /\
  (forall b, destructReuseHeap info_void b s = Ok b s) /\
  (forall lf lt from to cf ct, move info_void lf lt from to cf ct s = Ok (from, to) s) /\
  (forall lt from to cf ct, copy info_void lt from to cf ct s = Ok (from, to) s).
Proof.
  intros Ha Hi.
  assert (Hr : reset a s = Ok tt s).
  { unfold reset, bind, get. rewrite Ha. by rewrite decide_True. }
  split; [exact Hr|]. split; [|done].
  unfold destructor, bind. by rewrite Hr.
Qed.

Lemma reset_of_empty_witness : reset 0 empty_at_0 = Ok tt empty_at_0.
Proof.
  apply (reset_of_empty empty_at_0 0 (mk_any 32 info_void raw)); reflexivity.
Defined.

(** * Further properties of the code *)

(** ** Frames *)

(** A representation stays valid as long as its own block is untouched. *)
Lemma stored_frame s s' l T N b v :
  stored s l T N b = Some v ->
  (forall p, b = ptr p -> NeedsAlloc T N = true -> heap s' !! p = heap s !! p) ->
  stored s' l T N b = Some v.
Proof.
  unfold stored. destruct (NeedsAlloc T N); [|done].
  destruct b as [| |p]; try done. intros H Hf. by rewrite (Hf p).
Qed.

Lemma content_of_frame s s' l c :
  (forall p, owned_block c = Some p -> heap s' !! p = heap s !! p) ->
  content_of s' l c = content_of s l c.
Proof.
  intros Hf. unfold content_of. destruct (info c) as [|T] eqn:Hi; [done|].
  assert (stored s' l T (capacity c) (buff c) = stored s l T (capacity c) (buff c))
    as ->; [|done].
  unfold stored. destruct (NeedsAlloc T (capacity c)) eqn:HN; [|done].
  destruct (buff c) as [| |p] eqn:Hb; try done.
  rewrite (Hf p); [done|]. apply owned_block_Some. by rewrite Hi.
Qed.

Lemma wf_any_frame s s' l c :
  wf_any s l c ->
  (forall p, owned_block c = Some p -> heap s' !! p = heap s !! p) ->
  wf_any s' l c.
Proof.
  unfold wf_any. intros H Hf. by rewrite (content_of_frame s s').
Qed.

(** ** What [move] and [copy] do to a well-formed buffer *)

(** [move] carries the value over, whatever the two capacities: the
    destination then represents what the source represented; blocks other
    than the source's are untouched, and the source's block is freed exactly
    when the value moves from the heap into a buffer. *)
Lemma move_transfers i lf lt from to cf ct s :
  wf_any s lf (mk_any cf i from) ->
  heap_fresh s ->
  (needsAlloc i ct = true -> needsAlloc i cf = false -> 0 < alloc_budget s) ->
  exists from' to' s',
    move i lf lt from to cf ct s = Ok (from', to') s' /\
    objects s' = objects s /\
    heap_fresh s' /\
    next_block s <= next_block s' /\
    content_of s' lt (mk_any ct i to') = content_of s lf (mk_any cf i from) /\
    (i = info_void -> to' = to /\ from' = from /\ s' = s) /\
    (forall q, is_Some (heap s !! q) ->
       owned_block (mk_any cf i from) <> Some q \/ needsAlloc i ct = true ->
       heap s' !! q = heap s !! q) /\
    (forall q, owned_block (mk_any cf i from) = Some q ->
       needsAlloc i ct = false -> heap s' !! q = None) /\
    (forall q, is_Some (heap s' !! q) ->
       is_Some (heap s !! q) \/ owned_block (mk_any ct i to') = Some q) /\
    alloc_budget s =
      (if needsAlloc i ct && negb (needsAlloc i cf) then 1 else 0) + alloc_budget s' /\
    (forall q, owned_block (mk_any ct i to') = Some q ->
       owned_block (mk_any cf i from) = Some q \/ heap s !! q = None) /\
    (forall q, owned_block (mk_any cf i from) = Some q ->
       needsAlloc i ct = true -> owned_block (mk_any ct i to') = Some q).
Proof.
  intros Hwf Hfresh Hbudget.
  destruct (wf_any_inv _ _ _ Hwf) as [Hv | (T & v & HT & Hst)]; simpl in *.
  { subst i. simpl. exists from, to, s. unfold ret.
    repeat split; try done. auto. }
  subst i. simpl in *.
  unfold content_of. simpl. rewrite Hst.
  destruct (NeedsAlloc T ct) eqn:Ht, (NeedsAlloc T cf) eqn:Hf.
  - (* heap to heap *)
    destruct (stored_heap_inv _ _ _ _ _ _ Hf Hst) as (p & -> & Hp).
    exists (ptr p), (ptr p), s. rewrite Move_heap_heap by done.
    assert (Ho : forall c, owned_block (mk_any c (info_of T) (ptr p)) =
                           if NeedsAlloc T c then Some p else None)
      by (intros c; unfold owned_block; simpl; by destruct (NeedsAlloc T c)).
    rewrite !Ho, Ht, Hf.
    repeat split; try done; auto.
    by rewrite (stored_heap_intro _ _ _ _ _ _ Ht Hp).
  - (* in place to heap *)
    destruct (stored_inline_inv _ _ _ _ _ _ Hf Hst) as (self & -> & _).
    specialize (Hbudget eq_refl eq_refl).
    destruct (alloc_budget s) as [|n] eqn:Hn; [lia|].
    do 3 eexists. split; [by eapply Move_inline_heap|]. simpl.
    assert (Ho1 : owned_block (mk_any cf (info_of T) (obj T v self)) = None)
      by (unfold owned_block; simpl; by rewrite Hf).
    assert (Ho2 : owned_block (mk_any ct (info_of T) (ptr (next_block s)))
                  = Some (next_block s))
      by (unfold owned_block; simpl; by rewrite Ht).
    rewrite Ho1, Ho2.
    split; [done|]. split.
    { intros q Hq. simpl in *. rewrite lookup_insert_ne by lia.
      apply Hfresh. lia. }
    split; [lia|]. split.
    { erewrite stored_heap_intro; [done|done|]. simpl. apply lookup_insert_eq. }
    split; [done|]. split.
    { intros q [blk Hq] _. rewrite lookup_insert_ne; [done|].
      intros <-. rewrite Hfresh in Hq by lia. done. }
    split; [done|]. split.
    { intros q Hq. destruct (decide (q = next_block s)) as [->|Hne].
      + by right.
      + left. by rewrite lookup_insert_ne in Hq. }
    split; [done|]. split; [|done].
    intros q [= <-]. right. by apply Hfresh.
  - (* heap to in place *)
    destruct (stored_heap_inv _ _ _ _ _ _ Hf Hst) as (p & -> & Hp).
    do 3 eexists. split; [by eapply Move_heap_inline|]. simpl.
    assert (Ho1 : owned_block (mk_any cf (info_of T) (ptr p)) = Some p)
      by (unfold owned_block; simpl; by rewrite Hf).
    assert (Ho2 : owned_block (mk_any ct (info_of T) (obj T v lt)) = None)
      by (unfold owned_block; simpl; by rewrite Ht).
    rewrite Ho1, Ho2.
    split; [done|]. split.
    { intros q Hq. simpl in *. destruct (decide (q = p)) as [->|Hne].
      - by rewrite lookup_delete_eq.
      - rewrite lookup_delete_ne by done. by apply Hfresh. }
    split; [lia|]. split.
    { by rewrite stored_inline_intro. }
    split; [done|]. split.
    { intros q _ [Hq | Hq]; [|done]. rewrite lookup_delete_ne; [done|].
      intros <-. by apply Hq. }
    split.
    { intros q [= <-] _. apply lookup_delete_eq. }
    split.
    { intros q Hq. left. destruct (decide (q = p)) as [->|Hne].
      + by rewrite lookup_delete_eq in Hq; destruct Hq.
      + by rewrite lookup_delete_ne in Hq. }
    done.
  - (* in place to in place *)
    destruct (stored_inline_inv _ _ _ _ _ _ Hf Hst) as (self & -> & _).
    do 3 eexists. split; [by eapply Move_inline_inline|]. simpl.
    assert (Ho : forall c b, NeedsAlloc T c = false ->
                 owned_block (mk_any c (info_of T) b) = None)
      by (intros c b Hc; unfold owned_block; simpl; by rewrite Hc).
    rewrite !Ho by done.
    repeat split; try done; auto.
    by rewrite stored_inline_intro.
Qed.

(** [copy] builds a second value equal to the first: the source and every
    block in use are untouched, and a heap-backed copy lives in a block that
    was not in use. *)
Lemma copy_transfers i lf lt from to cf ct s :
  wf_any s lf (mk_any cf i from) ->
  heap_fresh s ->
  (needsAlloc i ct = true -> 0 < alloc_budget s) ->
  exists to' s',
    copy i lt from to cf ct s = Ok (from, to') s' /\
    objects s' = objects s /\
    heap_fresh s' /\
    content_of s' lt (mk_any ct i to') = content_of s lf (mk_any cf i from) /\
    (i = info_void -> to' = to /\ s' = s) /\
    (forall q, is_Some (heap s !! q) -> heap s' !! q = heap s !! q) /\
    (forall q, owned_block (mk_any ct i to') = Some q -> heap s !! q = None) /\
    (forall q, is_Some (heap s' !! q) ->
       is_Some (heap s !! q) \/ owned_block (mk_any ct i to') = Some q) /\
    (needsAlloc i ct = false -> heap s' = heap s /\ alloc_budget s' = alloc_budget s).
Proof.
  intros Hwf Hfresh Hbudget.
  destruct (wf_any_inv _ _ _ Hwf) as [Hv | (T & v & HT & Hst)]; simpl in *.
  { subst i. simpl. exists to, s. unfold ret. repeat split; try done. auto. }
  subst i. simpl in *.
  unfold content_of. simpl. rewrite Hst.
  assert (Hget : forall (k : Z -> M (slot * slot)) s0,
            heap s0 = heap s ->
            (if NeedsAlloc T cf
             then let* q := read_ptr from in let* v := deref T q in k v
             else let* v := read_obj T from in k v) s0 = k v s0).
  { intros k s0 Hs0. destruct (NeedsAlloc T cf) eqn:Hf.
    - destruct (stored_heap_inv _ _ _ _ _ _ Hf Hst) as (p & -> & Hp).
      unfold bind. simpl. unfold deref. rewrite Hs0, Hp. by rewrite decide_True.
    - destruct (stored_inline_inv _ _ _ _ _ _ Hf Hst) as (self & -> & _).
      unfold bind. by rewrite read_obj_same. }
  unfold Copy. destruct (NeedsAlloc T ct) eqn:Ht.
  - specialize (Hbudget eq_refl).
    destruct (alloc_budget s) as [|n] eqn:Hn; [lia|].
    exists (ptr (next_block s)).
    eexists. split.
    { rewrite (Hget (fun v => let* p := new_object copy_ctor T v in
                              ret (from, ptr p)) s eq_refl).
      unfold bind, new_object, operator_new. rewrite Hn. reflexivity. }
    simpl. split; [done|]. split.
    { intros q Hq. simpl in *. rewrite lookup_insert_ne by lia.
      apply Hfresh. lia. }
    split.
    { erewrite stored_heap_intro; [done|done|]. simpl. apply lookup_insert_eq. }
    split; [done|]. split.
    { intros q [blk Hq]. rewrite lookup_insert_ne; [done|].
      intros <-. rewrite Hfresh in Hq by lia. done. }
    split.
    { intros q Hq. unfold owned_block in Hq. simpl in Hq. rewrite Ht in Hq.
      injection Hq as <-. by apply Hfresh. }
    split; [|done].
    intros q Hq. destruct (decide (q = next_block s)) as [->|Hne].
    + right. unfold owned_block. simpl. by rewrite Ht.
    + left. by rewrite lookup_insert_ne in Hq.
  - exists (obj T v lt). eexists. split.
    { rewrite (Hget (fun v => let* _ := run_ctor copy_ctor T lt v in
                              ret (from, obj T v lt)) s eq_refl).
      reflexivity. }
    simpl. repeat split; try done.
    + by rewrite stored_inline_intro.
    + intros q Hq. unfold owned_block in Hq. simpl in Hq. by rewrite Ht in Hq.
    + auto.
Qed.

(** ** Releasing a value *)

(** What [reset] does, step by step. *)
Lemma reset_runs (a : addr) (c : sized_any) (s : state) :
  objects s !! a = Some c ->
  wf_any s (in_buffer a) c ->
  exists s' c',
    reset a s = Ok tt s' /\
    objects s' = <[a := c']> (objects s) /\
    info c' = info_void /\ capacity c' = capacity c /\ has_value c' = false /\
    heap s' = heap_without c (heap s) /\
    trace s' = trace s ++ release_events (in_buffer a) c /\
    next_block s' = next_block s /\ alloc_budget s' = alloc_budget s /\
    reset a s' = Ok tt s'.
Proof.
  intros Ha Hwf. unfold reset at 1.
  erewrite bind_Ok by (by apply get_Some).
  destruct (decide (info c = info_void)) as [Hv | Hne].
  - exists s, c. unfold ret.
    rewrite release_events_empty, heap_without_empty, app_nil_r by done.
    rewrite insert_id by done.
    assert (Hhv : has_value c = false) by (unfold has_value; by rewrite decide_True).
    repeat split; try done.
    unfold reset. erewrite bind_Ok by (by apply get_Some).
    by rewrite decide_True.
  - destruct (cleanUp_releases _ _ _ Hwf) as (b1 & Hclean & _).
    erewrite bind_Ok by exact Hclean.
    do 2 eexists. split; [reflexivity|]. simpl.
    repeat split; try done.
    unfold reset. unfold bind, get. simpl. by rewrite lookup_insert_eq.
Qed.

(** X1. On a well-formed container the destructor leaves exactly this state: the
    object is gone, its heap block (if it has one) is deallocated, the
    contained value's destructor has run once (through [delete] for a
    heap-backed value, in place otherwise) and nothing else has changed; for
    an empty container no event is added. *)
Theorem destructor_releases (a : addr) (c : sized_any) (s : state) :
  objects s !! a = Some c ->
  wf_any s (in_buffer a) c ->
  destructor a s
  = Ok tt (mk_state (delete a (objects s)) (heap_without c (heap s))
                    (next_block s) (alloc_budget s)
                    (trace s ++ release_events (in_buffer a) c)).
Proof.
  intros Ha Hwf. unfold destructor.
  destruct (reset_runs a c s Ha Hwf)
    as (s' & c' & Hr & Ho & _ & _ & _ & Hh & Ht & Hn & Hb & _).
  erewrite bind_Ok by exact Hr. unfold forget, set_objects.
  rewrite Ho, Hh, Ht, Hn, Hb. by rewrite delete_insert_eq.
Qed.

Lemma destructor_releases_witness :
  destructor 0 heap_string_at_0
  = Ok tt (mk_state ∅ ∅ 6 0 [ev_dtor string_t (on_heap 5); ev_free 5]).
Proof.
  rewrite (destructor_releases 0 (mk_any 16 (info_of string_t) (ptr 5))
             heap_string_at_0).
  - vm_compute. reflexivity.
  - reflexivity.
  - vm_compute. discriminate.
Defined.

(** ** Constructors *)

(** What copy construction does: the new container holds a copy in a block
    of its own, and the source is as it was. *)
Lemma construct_copy_runs (N : nat) (a src : addr) (other : sized_any)
    (s : state) :
  objects s !! src = Some other ->
  objects s !! a = None ->
  wf_any s (in_buffer src) other ->
  heap_fresh s ->
  (needsAlloc (info other) N = true -> 0 < alloc_budget s) ->
  exists s' c,
    construct_copy N a src s = Ok tt s' /\
    objects s' = <[a := c]> (objects s) /\
    capacity c = N /\ info c = info other /\
    content_of s' (in_buffer a) c = content_of s (in_buffer src) other /\
    content_at s' src = content_at s src /\
    heap_fresh s' /\
    (forall q, is_Some (heap s !! q) -> heap s' !! q = heap s !! q) /\
    (forall q, owned_block c = Some q ->
       heap s !! q = None /\ owned_block other <> Some q) /\
    (forall q, is_Some (heap s' !! q) ->
       is_Some (heap s !! q) \/ owned_block c = Some q) /\
    (needsAlloc (info other) N = false ->
     heap s' = heap s /\ alloc_budget s' = alloc_budget s).
Proof.
  intros Hsrc Ha Hwf Hfresh Hbudget.
  assert (Hne : src <> a) by (intros ->; congruence).
  assert (Hwf' : wf_any s (in_buffer src)
                   (mk_any (capacity other) (info other) (buff other)))
    by (by destruct other).
  destruct (copy_transfers (info other) (in_buffer src) (in_buffer a)
              (buff other) raw (capacity other) N s Hwf' Hfresh Hbudget)
    as (to' & s1 & Hc & Hobj & Hfr & Hcont & _ & Hold & Hnew & Hall & Hsame).
  unfold construct_copy, ctor_copy.
  erewrite bind_Ok by (by apply get_Some).
  erewrite bind_Ok by (erewrite bind_Ok by exact Hc; reflexivity).
  unfold put. exists (set_objects (<[a := mk_any N (info other) to']> (objects s1)) s1),
    (mk_any N (info other) to').
  split; [done|]. simpl. rewrite Hobj.
  split; [done|]. split; [done|]. split; [done|]. split.
  { rewrite (content_of_frame s1) by done.
    rewrite Hcont. by destruct other. }
  split.
  { unfold content_at. simpl. rewrite lookup_insert_ne by done. rewrite Hsrc. simpl.
    f_equal. apply content_of_frame. simpl. intros p Hp. apply Hold.
    by eapply wf_owned_live. }
  split; [done|]. split; [done|]. split; [|done].
  intros q Hq. split; [by apply Hnew|].
  intros Ho. apply Hnew in Hq.
  destruct (wf_owned_live _ _ _ _ Hwf Ho) as [blk Hblk]. congruence.
Qed.

(** *** When the constructors of the contained type may throw

    The lemmas and the theorem of this part hold for every instance of
    [Constructors]. *)

Lemma bind_total_Throw {A B} (m : M A) (k : A -> M B) s e s' :
  (forall x s1, exists y s2, k x s1 = Ok y s2) ->
  bind m k s = Throw e s' <-> m s = Throw e s'.
Proof.
  intros Hk. unfold bind. destruct (m s) as [x s1|e1 s1|].
  - destruct (Hk x s1) as (y & s2 & ->). by split.
  - split; by intros [= -> ->].
  - by split.
Qed.

Lemma bind_total_UB {A B} (m : M A) (k : A -> M B) s :
  (forall x s1, exists y s2, k x s1 = Ok y s2) ->
  bind m k s = UB <-> m s = UB.
Proof.
  intros Hk. unfold bind. destruct (m s) as [x s1|e1 s1|].
  - destruct (Hk x s1) as (y & s2 & ->). by split.
  - by split.
  - by split.
Qed.

(** A new-expression throws when the allocation fails, or when the
    constructor throws; the block it took is then given back. *)
Lemma new_object_throws {C : Constructors} k T v s e s' :
  new_object k T v s = Throw e s' <->
  (alloc_budget s = 0 /\ e = bad_alloc /\ s' = s) \/
  (0 < alloc_budget s /\ ctor_throws k T v s = Some e /\ s' = failed_new T s).
Proof.
  unfold new_object. destruct (alloc_budget s) as [|n] eqn:Hn.
  - split.
    + intros [= <- <-]. by left.
    + intros [(_ & -> & ->) | (? & _)]; [done | lia].
  - destruct (ctor_throws k T v s) as [e1|] eqn:He.
    + split.
      * intros [= <- <-]. right. split; [lia | done].
      * intros [(? & _) | (_ & [= <-] & ->)]; [done | done].
    + split; [done|]. by intros [(? & _) | (_ & ? & _)].
Qed.

Lemma new_object_defined {C : Constructors} k T v s : new_object k T v s <> UB.
Proof.
  unfold new_object. destruct (alloc_budget s); [done|].
  by destruct (ctor_throws k T v s).
Qed.

Lemma run_ctor_throws {C : Constructors} k T l v s e s' :
  run_ctor k T l v s = Throw e s' <-> ctor_throws k T v s = Some e /\ s' = s.
Proof.
  unfold run_ctor. destruct (ctor_throws k T v s) as [e1|].
  - split; [by intros [= <- <-] | by intros ([= <-] & ->)].
  - split; [done | by intros (? & _)].
Qed.

Lemma run_ctor_defined {C : Constructors} k T l v s : run_ctor k T l v s <> UB.
Proof. unfold run_ctor. by destruct (ctor_throws k T v s). Qed.

(** [Copy] on a well-formed source reads the value and hands it to the copy
    constructor. *)
Lemma Copy_reads {C : Constructors} T l lto from to cf ct v s :
  stored s l T cf from = Some v ->
  Copy T lto from to cf ct s
  = if NeedsAlloc T ct
    then bind (new_object copy_ctor T v) (fun p => ret (from, ptr p)) s
    else bind (run_ctor copy_ctor T lto v) (fun _ => ret (from, obj T v lto)) s.
Proof.
  intros Hst. unfold Copy.
  destruct (NeedsAlloc T ct), (NeedsAlloc T cf) eqn:Hf.
  - destruct (stored_heap_inv _ _ _ _ _ _ Hf Hst) as (p & -> & Hp).
    unfold bind at 1. simpl. unfold bind at 1. by rewrite (deref_live _ _ _ _ Hp).
  - destruct (stored_inline_inv _ _ _ _ _ _ Hf Hst) as (self & -> & _).
    unfold bind at 1. by rewrite read_obj_same.
  - destruct (stored_heap_inv _ _ _ _ _ _ Hf Hst) as (p & -> & Hp).
    unfold bind at 1. simpl. unfold bind at 1. by rewrite (deref_live _ _ _ _ Hp).
  - destruct (stored_inline_inv _ _ _ _ _ _ Hf Hst) as (self & -> & _).
    unfold bind at 1. by rewrite read_obj_same.
Qed.

(** X2. How construction from a value and copy construction fail, whatever
    the constructors of the contained type do.  They throw exactly when the
    block the value needs cannot be allocated ([std::bad_alloc], with the
    state unchanged), or when the constructor of the contained type throws:
    that exception propagates, after the block allocated for the value has
    been given back, or with the state unchanged when the value is built in
    place.  Either way no container has been created and the free store is
    as it was.  On a well-formed source they are never undefined. *)
Theorem construction_fails_cleanly {C : Constructors} (k : ctor_kind) (N : nat)
    (a src : addr) (T : CType) (v : Z) (other : sized_any) (s : state) :
  objects s !! src = Some other ->
  wf_any s (in_buffer src) other ->
  (forall e s',
     construct_value k N a T v s = Throw e s' <->
     if NeedsAlloc T N
     then (alloc_budget s = 0 /\ e = bad_alloc /\ s' = s) \/
          (0 < alloc_budget s /\ ctor_throws k T v s = Some e /\
           s' = failed_new T s)
     else ctor_throws k T v s = Some e /\ s' = s) /\
  construct_value k N a T v s <> UB /\
  (forall e s',
     construct_copy N a src s = Throw e s' <->
     exists U u,
       content_of s (in_buffer src) other = holding U u /\
       if NeedsAlloc U N
       then (alloc_budget s = 0 /\ e = bad_alloc /\ s' = s) \/
            (0 < alloc_budget s /\ ctor_throws copy_ctor U u s = Some e /\
             s' = failed_new U s)
       else ctor_throws copy_ctor U u s = Some e /\ s' = s) /\
  construct_copy N a src s <> UB /\
  (forall e s',
     construct_value k N a T v s = Throw e s' \/
     construct_copy N a src s = Throw e s' ->
     objects s' = objects s /\ heap s' = heap s).
Proof.
  intros Hsrc Hwf.
  assert (Hput : forall (x : sized_any) s1, exists y s2, put a x s1 = Ok y s2)
    by (intros x s1; unfold put; eauto).
  assert (Hval : forall e s',
     construct_value k N a T v s = Throw e s' <->
     if NeedsAlloc T N
     then (alloc_budget s = 0 /\ e = bad_alloc /\ s' = s) \/
          (0 < alloc_budget s /\ ctor_throws k T v s = Some e /\
           s' = failed_new T s)
     else ctor_throws k T v s = Some e /\ s' = s).
  { intros e s'. unfold construct_value. rewrite bind_total_Throw by done.
    unfold ctor_value. destruct (NeedsAlloc T N).
    - rewrite bind_total_Throw by (intros; unfold ret; eauto).
      apply new_object_throws.
    - rewrite bind_total_Throw by (intros; unfold ret; eauto).
      apply run_ctor_throws. }
  assert (Hcopy : forall e s',
     construct_copy N a src s = Throw e s' <->
     exists U u,
       content_of s (in_buffer src) other = holding U u /\
       if NeedsAlloc U N
       then (alloc_budget s = 0 /\ e = bad_alloc /\ s' = s) \/
            (0 < alloc_budget s /\ ctor_throws copy_ctor U u s = Some e /\
             s' = failed_new U s)
       else ctor_throws copy_ctor U u s = Some e /\ s' = s).
  { intros e s'. unfold construct_copy.
    erewrite bind_Ok by (by apply get_Some).
    rewrite bind_total_Throw by done. unfold ctor_copy.
    rewrite bind_total_Throw by (intros [x y] s1; unfold ret; eauto).
    unfold content_of.
    destruct (wf_any_inv _ _ _ Hwf) as [Hv | (U & u & HU & Hst)].
    { rewrite Hv. simpl. unfold ret. split; [done|]. by intros (? & ? & ? & _). }
    rewrite HU, Hst. simpl.
    rewrite (Copy_reads U (in_buffer src) _ _ _ _ _ u) by done.
    split.
    - intros H. exists U, u. split; [done|]. revert H.
      destruct (NeedsAlloc U N).
      + rewrite bind_total_Throw by (intros; unfold ret; eauto).
        apply new_object_throws.
      + rewrite bind_total_Throw by (intros; unfold ret; eauto).
        apply run_ctor_throws.
    - intros (U' & u' & [= <- <-] & H). revert H.
      destruct (NeedsAlloc U N).
      + rewrite bind_total_Throw by (intros; unfold ret; eauto).
        apply new_object_throws.
      + rewrite bind_total_Throw by (intros; unfold ret; eauto).
        apply run_ctor_throws. }
  split; [done|]. split.
  { unfold construct_value. rewrite bind_total_UB by done.
    unfold ctor_value. destruct (NeedsAlloc T N).
    - rewrite bind_total_UB by (intros; unfold ret; eauto).
      apply new_object_defined.
    - rewrite bind_total_UB by (intros; unfold ret; eauto).
      apply run_ctor_defined. }
  split; [done|]. split.
  { unfold construct_copy.
    erewrite bind_Ok by (by apply get_Some).
    rewrite bind_total_UB by done. unfold ctor_copy.
    rewrite bind_total_UB by (intros [x y] s1; unfold ret; eauto).
    destruct (wf_any_inv _ _ _ Hwf) as [Hv | (U & u & HU & Hst)].
    { by rewrite Hv. }
    rewrite HU. simpl. rewrite (Copy_reads U (in_buffer src) _ _ _ _ _ u) by done.
    destruct (NeedsAlloc U N).
    - rewrite bind_total_UB by (intros; unfold ret; eauto).
      apply new_object_defined.
    - rewrite bind_total_UB by (intros; unfold ret; eauto).
      apply run_ctor_defined. }
  intros e s' [H | H].
  - apply Hval in H. destruct (NeedsAlloc T N).
    + by destruct H as [(_ & _ & ->) | (_ & _ & ->)].
    + by destruct H as (_ & ->).
  - apply Hcopy in H as (U & u & _ & H). destruct (NeedsAlloc U N).
    + by destruct H as [(_ & _ & ->) | (_ & _ & ->)].
    + by destruct H as (_ & ->).
Qed.

Lemma construction_fails_cleanly_witness :
  construct_copy 16 1 0 heap_string_at_0 = Throw bad_alloc heap_string_at_0 /\
  construct_copy (C := copies_fail) 32 2 0 two_strings
  = Throw bad_alloc two_strings.
Proof.
  split.
  - destruct (construction_fails_cleanly copy_ctor 16 1 0 string_t 3
                (mk_any 16 (info_of string_t) (ptr 5)) heap_string_at_0)
      as (_ & _ & H & _).
    + reflexivity.
    + vm_compute. discriminate.
    + apply H. exists string_t, 12%Z. split; [reflexivity|].
      left. repeat split.
  - destruct (construction_fails_cleanly (C := copies_fail) copy_ctor 32 2 0
                string_t 3
                (mk_any 32 (info_of string_t) (obj string_t 1 (in_buffer 0)))
                two_strings)
      as (_ & _ & H & _).
    + reflexivity.
    + vm_compute. discriminate.
    + apply H. exists string_t, 1%Z. split; [reflexivity|].
      split; reflexivity.
Defined.

(** What move construction does, for every pair of capacities. *)
Lemma construct_move_runs (N : nat) (a src : addr) (other : sized_any)
    (s : state) :
  objects s !! src = Some other ->
  a <> src ->
  wf_any s (in_buffer src) other ->
  heap_fresh s ->
  (needsAlloc (info other) N = true ->
   needsAlloc (info other) (capacity other) = false -> 0 < alloc_budget s) ->
  exists s' c o,
    construct_move N a src s = Ok tt s' /\
    objects s' = <[a := c]> (<[src := o]> (objects s)) /\
    capacity c = N /\ info c = info other /\
    capacity o = capacity other /\ info o = info_void /\
    content_of s' (in_buffer a) c = content_of s (in_buffer src) other /\
    heap_fresh s' /\
    (forall q, is_Some (heap s !! q) ->
       owned_block other <> Some q \/ needsAlloc (info other) N = true ->
       heap s' !! q = heap s !! q) /\
    (forall q, owned_block other = Some q ->
       needsAlloc (info other) N = false -> heap s' !! q = None) /\
    (forall q, is_Some (heap s' !! q) ->
       is_Some (heap s !! q) \/ owned_block c = Some q) /\
    alloc_budget s =
      (if needsAlloc (info other) N && negb (needsAlloc (info other) (capacity other))
       then 1 else 0) + alloc_budget s' /\
    (forall q, owned_block c = Some q ->
       owned_block other = Some q \/ heap s !! q = None) /\
    (forall q, owned_block other = Some q ->
       needsAlloc (info other) N = true -> owned_block c = Some q).
Proof.
  intros Hsrc Hne Hwf Hfresh Hbudget.
  assert (Heta : mk_any (capacity other) (info other) (buff other) = other)
    by (by destruct other).
  destruct (move_transfers (info other) (in_buffer src) (in_buffer a)
              (buff other) raw (capacity other) N s)
    as (from' & to' & s1 & Hm & Hobj & Hfr & _ & Hcont & _ & Hold & Hgone & Hnew
        & Hbud & Hfrom & Hkeep);
    [by rewrite Heta | done | done |].
  rewrite Heta in *.
  unfold construct_move, ctor_move.
  erewrite bind_Ok by (by apply get_Some).
  erewrite bind_Ok by (erewrite bind_Ok by exact Hm; reflexivity).
  simpl. unfold bind, put. simpl.
  do 3 eexists. split; [reflexivity|]. simpl. rewrite Hobj.
  split; [done|]. do 4 (split; [done|]).
  split; [by rewrite (content_of_frame s1) by done|].
  done.
Qed.

(** ** The ownership invariant *)

Lemma store_ok_update2 s s' a b ca cb :
  store_ok s -> a <> b ->
  objects s' = <[a := ca]> (<[b := cb]> (objects s)) ->
  heap_fresh s' ->
  wf_any s' (in_buffer a) ca -> wf_any s' (in_buffer b) cb ->
  (forall q, owned_block ca = Some q -> owned_block cb = Some q -> False) ->
  (forall x c q, x <> a -> x <> b ->
     objects s !! x = Some c -> owned_block c = Some q ->
     heap s' !! q = heap s !! q /\
     owned_block ca <> Some q /\ owned_block cb <> Some q) ->
  (forall q, is_Some (heap s' !! q) ->
     owned_block ca = Some q \/ owned_block cb = Some q \/
     exists x c, x <> a /\ x <> b /\ objects s !! x = Some c /\
                 owned_block c = Some q) ->
  store_ok s'.
Proof.
  intros (Hfresh & Hwf & Hshare & Hown) Hab Hobj Hfresh' Hwfa Hwfb Hdis Hrest Hall.
  assert (Hlook : forall x c, objects s' !! x = Some c ->
            (x = a /\ c = ca) \/ (x = b /\ c = cb) \/
            (x <> a /\ x <> b /\ objects s !! x = Some c)).
  { intros x c. rewrite Hobj.
    destruct (decide (x = a)) as [->|Hxa].
    { rewrite lookup_insert_eq. intros [= <-]. by left. }
    rewrite lookup_insert_ne by done.
    destruct (decide (x = b)) as [->|Hxb].
    { rewrite lookup_insert_eq. intros [= <-]. right; by left. }
    rewrite lookup_insert_ne by done. intros H. right; by right. }
  split; [done|]. split; [|split].
  - intros x c Hx. destruct (Hlook _ _ Hx) as [[-> ->] | [[-> ->] | (Hxa & Hxb & Hold)]];
      [done | done |].
    apply (wf_any_frame s); [by eapply Hwf|].
    intros p Hp. by destruct (Hrest x c p Hxa Hxb Hold Hp) as (-> & _).
  - intros x y cx cy p Hx Hy Hox Hoy.
    destruct (Hlook _ _ Hx) as [[-> ->] | [[-> ->] | (Hxa & Hxb & Hxold)]];
    destruct (Hlook _ _ Hy) as [[-> ->] | [[-> ->] | (Hya & Hyb & Hyold)]];
      try done.
    + by destruct (Hdis p).
    + by destruct (Hrest y cy p Hya Hyb Hyold Hoy) as (_ & ? & _).
    + by destruct (Hdis p).
    + by destruct (Hrest y cy p Hya Hyb Hyold Hoy) as (_ & _ & ?).
    + by destruct (Hrest x cx p Hxa Hxb Hxold Hox) as (_ & ? & _).
    + by destruct (Hrest x cx p Hxa Hxb Hxold Hox) as (_ & _ & ?).
    + by eapply Hshare.
  - intros q Hq. destruct (Hall q Hq) as [Ho | [Ho | (x & c & Hxa & Hxb & Hx & Ho)]].
    + exists a, ca. rewrite Hobj, lookup_insert_eq. done.
    + exists b, cb. rewrite Hobj, lookup_insert_ne, lookup_insert_eq by done. done.
    + exists x, c. rewrite Hobj, !lookup_insert_ne by done. done.
Qed.

Lemma store_ok_update1 s s' a ca :
  store_ok s ->
  objects s' = <[a := ca]> (objects s) ->
  heap_fresh s' ->
  wf_any s' (in_buffer a) ca ->
  (forall x c q, x <> a ->
     objects s !! x = Some c -> owned_block c = Some q ->
     heap s' !! q = heap s !! q /\ owned_block ca <> Some q) ->
  (forall q, is_Some (heap s' !! q) ->
     owned_block ca = Some q \/
     exists x c, x <> a /\ objects s !! x = Some c /\ owned_block c = Some q) ->
  store_ok s'.
Proof.
  intros (Hfresh & Hwf & Hshare & Hown) Hobj Hfresh' Hwfa Hrest Hall.
  assert (Hlook : forall x c, objects s' !! x = Some c ->
            (x = a /\ c = ca) \/ (x <> a /\ objects s !! x = Some c)).
  { intros x c. rewrite Hobj.
    destruct (decide (x = a)) as [->|Hxa].
    { rewrite lookup_insert_eq. intros [= <-]. by left. }
    rewrite lookup_insert_ne by done. intros H. by right. }
  split; [done|]. split; [|split].
  - intros x c Hx. destruct (Hlook _ _ Hx) as [[-> ->] | (Hxa & Hold)]; [done|].
    apply (wf_any_frame s); [by eapply Hwf|].
    intros p Hp. by destruct (Hrest x c p Hxa Hold Hp) as (-> & _).
  - intros x y cx cy p Hx Hy Hox Hoy.
    destruct (Hlook _ _ Hx) as [[-> ->] | (Hxa & Hxold)];
    destruct (Hlook _ _ Hy) as [[-> ->] | (Hya & Hyold)]; try done.
    + by destruct (Hrest y cy p Hya Hyold Hoy) as (_ & ?).
    + by destruct (Hrest x cx p Hxa Hxold Hox) as (_ & ?).
    + by eapply Hshare.
  - intros q Hq. destruct (Hall q Hq) as [Ho | (x & c & Hxa & Hx & Ho)].
    + exists a, ca. rewrite Hobj, lookup_insert_eq. done.
    + exists x, c. rewrite Hobj, !lookup_insert_ne by done. done.
Qed.

Lemma store_ok_owner s a c q :
  store_ok s -> objects s !! a = Some c -> owned_block c = Some q ->
  is_Some (heap s !! q).
Proof.
  intros (_ & Hwf & _) Ha Ho. eapply wf_owned_live; [by eapply Hwf | done].
Qed.

Lemma store_ok_live_below s q :
  store_ok s -> is_Some (heap s !! q) -> q < next_block s.
Proof.
  intros (Hfresh & _) [blk Hq].
  destruct (decide (q < next_block s)) as [|Hge]; [done|].
  rewrite Hfresh in Hq by lia. done.
Qed.

Lemma store_ok_wf s a c :
  store_ok s -> objects s !! a = Some c -> wf_any s (in_buffer a) c.
Proof. intros (_ & Hwf & _) Ha. by eapply Hwf. Qed.

Lemma store_ok_fresh s : store_ok s -> heap_fresh s.
Proof. by intros (? & _). Qed.

(** The invariant on the concrete states used below. *)
Ltac lookup_cases H :=
  simpl in H;
  repeat first
    [ apply lookup_insert_Some in H as [[<- <-] | [? H]]
    | apply lookup_singleton_Some in H as [<- <-]
    | (rewrite lookup_empty in H; discriminate H) ].

Ltac store_ok_concrete :=
  split; [|split; [|split]];
  [ intros p Hp; simpl in Hp |- *;
    repeat (rewrite lookup_insert_ne by lia);
    first [ apply lookup_empty | apply lookup_singleton_ne; lia ]
  | intros a c Ha; lookup_cases Ha; vm_compute; discriminate
  | intros a b ca cb p Ha Hb Hoa Hob; lookup_cases Ha; lookup_cases Hb;
    try reflexivity; vm_compute in Hoa, Hob; congruence
  | intros p [blk Hp]; lookup_cases Hp;
    first [ (exists 0; eexists; split; [reflexivity | vm_compute; reflexivity])
          | (exists 1; eexists; split; [reflexivity | vm_compute; reflexivity]) ] ].

Lemma store_ok_two_heap_strings : store_ok two_heap_strings.
Proof. store_ok_concrete. Qed.

Lemma store_ok_string_and_empty : store_ok string_and_empty.
Proof. store_ok_concrete. Qed.

Lemma store_ok_int_and_double : store_ok int_and_double.
Proof. store_ok_concrete. Qed.

Lemma store_ok_two_heap_throwing : store_ok two_heap_throwing.
Proof. store_ok_concrete. Qed.

Lemma store_ok_new_object s a x c :
  objects s !! a = None -> objects s !! x = Some c -> x <> a.
Proof. intros Ha Hx ->. congruence. Qed.

Lemma value_construction_keeps k N a T v s :
  store_ok s -> objects s !! a = None ->
  (NeedsAlloc T N = true -> 0 < alloc_budget s) ->
  exists s', construct_value k N a T v s = Ok tt s' /\ store_ok s' /\
             content_at s' a = Some (holding T v).
Proof.
  intros Hok Ha Hbudget. unfold construct_value, ctor_value.
  destruct (NeedsAlloc T N) eqn:HN.
  - specialize (Hbudget eq_refl). unfold bind, new_object, operator_new.
    destruct (alloc_budget s) as [|n] eqn:Hn; [lia|]. simpl.
    eexists. split; [reflexivity|].
    assert (Hst : forall s0 l, heap s0 = <[next_block s := live T v]> (heap s) ->
              stored s0 l T N (ptr (next_block s)) = Some v).
    { intros s0 l Hs0. eapply stored_heap_intro; [done|]. rewrite Hs0.
      apply lookup_insert_eq. }
    split.
    + eapply (store_ok_update1 s); [done | reflexivity | | | |].
      * intros q Hq. simpl in *. rewrite lookup_insert_ne by lia.
        apply (store_ok_fresh _ Hok). lia.
      * unfold wf_any, content_of. simpl. by rewrite Hst.
      * intros x c q Hx Hc Ho. simpl.
        pose proof (store_ok_live_below _ _ Hok (store_ok_owner _ _ _ _ Hok Hc Ho)).
        split; [apply lookup_insert_ne; lia|].
        unfold owned_block. simpl. rewrite HN. intros [=]. lia.
      * intros q Hq. simpl in Hq.
        destruct (decide (q = next_block s)) as [->|Hne].
        { left. unfold owned_block. simpl. by rewrite HN. }
        right. rewrite lookup_insert_ne in Hq by done.
        destruct Hok as (_ & _ & _ & Hown).
        destruct (Hown q Hq) as (x & c & Hx & Ho).
        exists x, c. split; [by eapply store_ok_new_object|done].
    + unfold content_at, content_of. simpl. rewrite lookup_insert_eq. simpl.
      by rewrite Hst.
  - unfold bind, emit, put. simpl. eexists. split; [reflexivity|].
    split.
    + eapply (store_ok_update1 s); [done | reflexivity | | | |].
      * apply (store_ok_fresh _ Hok).
      * unfold wf_any, content_of. simpl. by rewrite stored_inline_intro.
      * intros x c q Hx Hc Ho. simpl. split; [done|].
        unfold owned_block. simpl. by rewrite HN.
      * intros q Hq. simpl in Hq. right.
        destruct Hok as (_ & _ & _ & Hown).
        destruct (Hown q Hq) as (x & c & Hx & Ho).
        exists x, c. split; [by eapply store_ok_new_object|done].
    + unfold content_at, content_of. simpl. rewrite lookup_insert_eq. simpl.
      by rewrite stored_inline_intro.
Qed.

Lemma copy_construction_keeps N a src other s :
  store_ok s -> objects s !! a = None ->
  objects s !! src = Some other ->
  (needsAlloc (info other) N = true -> 0 < alloc_budget s) ->
  exists s', construct_copy N a src s = Ok tt s' /\ store_ok s' /\
             content_at s' a = content_at s src /\
             content_at s' src = content_at s src.
Proof.
  intros Hok Ha Hsrc Hbudget.
  destruct (construct_copy_runs N a src other s)
    as (s' & c & Hrun & Hobj & Hcap & Hinfo & Hcont & Hsrc' & Hfr & Hold & Hnew
        & Hall & _);
    [done | done | by eapply store_ok_wf | by apply store_ok_fresh | done |].
  exists s'. split; [done|]. split.
  - eapply (store_ok_update1 s); [done | exact Hobj | done | | |].
    + unfold wf_any. rewrite Hcont. by eapply store_ok_wf.
    + intros x cx q Hx Hcx Ho.
      pose proof (store_ok_owner _ _ _ _ Hok Hcx Ho) as Hlive.
      split; [by apply Hold|]. intros Hc. apply Hnew in Hc as [Hnone _].
      rewrite Hnone in Hlive. by destruct Hlive.
    + intros q Hq. destruct (Hall q Hq) as [Hlive | Ho]; [|by left].
      right. destruct Hok as (_ & _ & _ & Hown).
      destruct (Hown q Hlive) as (x & cx & Hx & Ho).
      exists x, cx. split; [by eapply store_ok_new_object|done].
  - split; [|done]. unfold content_at at 1. rewrite Hobj, lookup_insert_eq. simpl.
    rewrite Hcont. unfold content_at. by rewrite Hsrc.
Qed.

Lemma owned_block_empty c : info c = info_void -> owned_block c = None.
Proof. unfold owned_block. by intros ->. Qed.

Lemma wf_any_empty s l c : info c = info_void -> wf_any s l c.
Proof. unfold wf_any, content_of. by intros ->. Qed.

Lemma move_construction_keeps N a src other s :
  store_ok s -> objects s !! a = None ->
  objects s !! src = Some other ->
  (needsAlloc (info other) N = true ->
   needsAlloc (info other) (capacity other) = false -> 0 < alloc_budget s) ->
  exists s', construct_move N a src s = Ok tt s' /\ store_ok s' /\
             content_at s' a = content_at s src /\
             content_at s' src = Some empty.
Proof.
  intros Hok Ha Hsrc Hbudget.
  assert (Hne : a <> src) by (intros ->; congruence).
  destruct (construct_move_runs N a src other s)
    as (s' & c & o & Hrun & Hobj & Hcap & Hinfo & Hcapo & Hinfoo & Hcont & Hfr
        & Hold & Hgone & Hnew & _ & Hfrom & Hkeep);
    [done | done | by eapply store_ok_wf | by apply store_ok_fresh | done |].
  exists s'. split; [done|]. split.
  - eapply (store_ok_update2 s); [done | exact Hne | exact Hobj | done | | | | |].
    + unfold wf_any. rewrite Hcont. by eapply store_ok_wf.
    + by apply wf_any_empty.
    + intros q _. by rewrite owned_block_empty.
    + intros x cx q Hxa Hxs Hcx Ho.
      pose proof (store_ok_owner _ _ _ _ Hok Hcx Ho) as Hlive.
      assert (Hnot : owned_block other <> Some q).
      { intros Ho'. destruct Hok as (_ & _ & Hshare & _).
        by apply Hxs, (Hshare x src cx other q). }
      split; [apply Hold; auto|]. split; [|by rewrite owned_block_empty].
      intros Hc. destruct (Hfrom q Hc) as [? | Hnone]; [done|].
      rewrite Hnone in Hlive. by destruct Hlive.
    + intros q Hq. destruct (Hnew q Hq) as [Hlive | Ho]; [|by left].
      destruct Hok as (_ & _ & _ & Hown).
      destruct (Hown q Hlive) as (x & cx & Hx & Ho).
      destruct (decide (x = src)) as [->|Hxs].
      * left. rewrite Hsrc in Hx. injection Hx as <-. apply Hkeep; [done|].
        destruct (needsAlloc (info other) N) eqn:HN; [done|].
        rewrite (Hgone q Ho eq_refl) in Hq. by destruct Hq.
      * right; right. exists x, cx.
        split; [by eapply store_ok_new_object|done].
  - unfold content_at. rewrite Hobj, lookup_insert_eq.
    rewrite lookup_insert_ne, lookup_insert_eq by done. rewrite Hsrc. simpl.
    split; [by rewrite Hcont|]. unfold content_of. by rewrite Hinfoo.
Qed.

(** X3. The four constructors keep the ownership invariant (every container
    well formed, no heap block shared by two containers, no live block
    without an owner): a default-constructed container is empty, one
    constructed from a value holds it, a copy holds what the source holds
    and leaves the source as it was, and a move holds what the source held
    and leaves the source empty. *)
Theorem constructors_keep_store_ok (k : ctor_kind) (N : nat) (a src : addr)
    (T : CType) (v : Z) (other : sized_any) (s : state) :
  store_ok s ->
  objects s !! a = None ->
  objects s !! src = Some other ->
  0 < alloc_budget s ->
  (exists s', construct_default N a s = Ok tt s' /\ store_ok s' /\
              content_at s' a = Some empty) /\
  (exists s', construct_value k N a T v s = Ok tt s' /\ store_ok s' /\
              content_at s' a = Some (holding T v)) /\
  (exists s', construct_copy N a src s = Ok tt s' /\ store_ok s' /\
              content_at s' a = content_at s src /\
              content_at s' src = content_at s src) /\
  (exists s', construct_move N a src s = Ok tt s' /\ store_ok s' /\
              content_at s' a = content_at s src /\
              content_at s' src = Some empty).
Proof.
  intros Hok Ha Hsrc Hbudget.
  split; [|split; [by apply value_construction_keeps|
           split; [by eapply copy_construction_keeps
                  | by eapply move_construction_keeps]]].
  unfold construct_default, put. eexists. split; [reflexivity|]. split.
  - eapply (store_ok_update1 s); [done | reflexivity | | | |].
    + apply (store_ok_fresh _ Hok).
    + by apply wf_any_empty.
    + intros x c q Hx Hc Ho. simpl. split; [done|]. by rewrite owned_block_empty.
    + intros q Hq. simpl in Hq. right.
      destruct Hok as (_ & _ & _ & Hown).
      destruct (Hown q Hq) as (x & c & Hx & Ho).
      exists x, c. split; [by eapply store_ok_new_object|done].
  - unfold content_at. simpl. by rewrite lookup_insert_eq.
Qed.

Lemma constructors_keep_store_ok_witness :
  exists s',
    construct_move 64 2 0 two_heap_strings = Ok tt s' /\ store_ok s' /\
    content_at s' 2 = Some (holding string_t 12) /\
    content_at s' 0 = Some empty.
Proof.
  destruct (constructors_keep_store_ok copy_ctor 64 2 0 int_t 1
              (mk_any 16 (info_of string_t) (ptr 5)) two_heap_strings)
    as (_ & _ & _ & s' & H1 & H2 & H3 & H4).
  - exact store_ok_two_heap_strings.
  - reflexivity.
  - reflexivity.
  - simpl. lia.
  - exists s'. split; [exact H1|]. split; [exact H2|]. split; [|exact H4].
    rewrite H3. reflexivity.
Defined.

Lemma reset_keeps a c s :
  store_ok s -> objects s !! a = Some c ->
  exists s', reset a s = Ok tt s' /\ store_ok s' /\
             content_at s' a = Some empty /\
             (forall b, b <> a -> content_at s' b = content_at s b).
Proof.
  intros Hok Ha.
  destruct (reset_runs a c s Ha (store_ok_wf _ _ _ Hok Ha))
    as (s' & c' & Hr & Hobj & Hinfo & _ & _ & Hheap & _ & Hnext & _ & _).
  assert (Hrest : forall x cx q, x <> a ->
            objects s !! x = Some cx -> owned_block cx = Some q ->
            heap s' !! q = heap s !! q).
  { intros x cx q Hx Hcx Ho. rewrite Hheap, lookup_heap_without.
    rewrite decide_False; [done|]. intros Hc.
    destruct Hok as (_ & _ & Hshare & _). by apply Hx, (Hshare x a cx c q). }
  exists s'. split; [done|]. split; [|split].
  - eapply (store_ok_update1 s); [done | exact Hobj | | | |].
    + intros q Hq. rewrite Hheap, lookup_heap_without. case_decide; [done|].
      apply (store_ok_fresh _ Hok). by rewrite <- Hnext.
    + by apply wf_any_empty.
    + intros x cx q Hx Hcx Ho. split; [by eapply Hrest|].
      by rewrite owned_block_empty.
    + intros q Hq. right. rewrite Hheap, lookup_heap_without in Hq.
      case_decide as Hc; [by destruct Hq|].
      destruct Hok as (_ & _ & _ & Hown).
      destruct (Hown q Hq) as (x & cx & Hx & Ho).
      exists x, cx. split; [|done]. intros ->. congruence.
  - unfold content_at. rewrite Hobj, lookup_insert_eq. simpl.
    unfold content_of. by rewrite Hinfo.
  - intros b Hb. unfold content_at. rewrite Hobj, lookup_insert_ne by done.
    destruct (objects s !! b) as [cb|] eqn:Hcb; [|done]. simpl. f_equal.
    apply content_of_frame. intros p Hp. by eapply Hrest.
Qed.

Lemma store_ok_forget_empty s a c :
  store_ok s -> objects s !! a = Some c -> info c = info_void ->
  store_ok (set_objects (delete a (objects s)) s).
Proof.
  intros (Hfresh & Hwf & Hshare & Hown) Ha Hv.
  assert (Hlook : forall x cx, delete a (objects s) !! x = Some cx ->
            x <> a /\ objects s !! x = Some cx).
  { intros x cx. destruct (decide (x = a)) as [->|Hx].
    - by rewrite lookup_delete_eq.
    - by rewrite lookup_delete_ne. }
  split; [done|]. split; [|split]; simpl.
  - intros x cx Hx. apply Hlook in Hx as [_ Hx].
    apply (wf_any_frame s); [by eapply Hwf | done].
  - intros x y cx cy p Hx Hy. apply Hlook in Hx as [_ Hx].
    apply Hlook in Hy as [_ Hy]. by eapply Hshare.
  - intros q Hq. destruct (Hown q Hq) as (x & cx & Hx & Ho).
    exists x, cx. split; [|done]. rewrite lookup_delete_ne; [done|].
    intros ->. rewrite Ha in Hx. injection Hx as <-.
    by rewrite owned_block_empty in Ho.
Qed.

(** X4. [reset] and the destructor keep the ownership invariant and leave the
    content of every other container as it was; after [reset] the container
    is empty, after the destructor it is gone. *)
Theorem release_keeps_store_ok (a : addr) (c : sized_any) (s : state) :
  store_ok s ->
  objects s !! a = Some c ->
  (exists s', reset a s = Ok tt s' /\ store_ok s' /\
              content_at s' a = Some empty /\
              (forall b, b <> a -> content_at s' b = content_at s b)) /\
  (exists s', destructor a s = Ok tt s' /\ store_ok s' /\
              objects s' !! a = None /\
              (forall b, b <> a -> content_at s' b = content_at s b)).
Proof.
  intros Hok Ha. split; [by eapply reset_keeps|].
  destruct (reset_keeps a c s Hok Ha) as (s1 & Hr & Hok1 & Hc1 & Hrest).
  unfold destructor. erewrite bind_Ok by exact Hr. unfold forget.
  eexists. split; [reflexivity|].
  unfold content_at in Hc1.
  destruct (objects s1 !! a) as [c1|] eqn:Hc1a; [|done].
  assert (Hv : info c1 = info_void).
  { injection Hc1 as Hc1. unfold content_of in Hc1.
    destruct (info c1) as [|T1]; [done|].
    by destruct (stored s1 (in_buffer a) T1 (capacity c1) (buff c1)). }
  split; [by eapply store_ok_forget_empty|]. simpl.
  split; [apply lookup_delete_eq|].
  intros b Hb. rewrite <- (Hrest b Hb). unfold content_at. simpl.
  by rewrite lookup_delete_ne.
Qed.

Lemma release_keeps_store_ok_witness :
  exists s',
    reset 0 two_heap_strings = Ok tt s' /\ store_ok s' /\
    content_at s' 0 = Some empty /\
    content_at s' 1 = Some (holding string_t 34).
Proof.
  destruct (release_keeps_store_ok 0 (mk_any 16 (info_of string_t) (ptr 5))
              two_heap_strings)
    as ((s' & H1 & H2 & H3 & H4) & _).
  - exact store_ok_two_heap_strings.
  - reflexivity.
  - exists s'. split; [exact H1|]. split; [exact H2|]. split; [exact H3|].
    rewrite H4 by lia. reflexivity.
Defined.

(** X5. [emplace] keeps the ownership invariant, in each of its three branches
    (block reused, block replaced, value in place), provided the allocation
    it may need succeeds: the container then holds the new value, the
    returned reference reads it, and the other containers are as they
    were. *)
Theorem emplace_keeps_store_ok (T : CType) (v : Z) (a : addr) (c : sized_any)
    (s : state) :
  store_ok s ->
  objects s !! a = Some c ->
  (emplace_reuse_test T c = false -> NeedsAlloc T (capacity c) = true ->
   0 < alloc_budget s) ->
  exists l s',
    emplace T v a s = Ok l s' /\ store_ok s' /\
    content_at s' a = Some (holding T v) /\
    load T l s' = Ok v s' /\
    (forall b, b <> a -> content_at s' b = content_at s b).
Proof.
  intros Hok Ha Hbudget.
  pose proof (store_ok_wf _ _ _ Hok Ha) as Hwf.
  pose proof (store_ok_fresh _ Hok) as Hfresh.
  assert (Hother : forall s' x cx q,
            heap s' !! q = heap s !! q \/
            (owned_block c <> Some q ->
             q <> next_block s -> heap s' !! q = heap s !! q) ->
            x <> a -> objects s !! x = Some cx -> owned_block cx = Some q ->
            heap s' !! q = heap s !! q /\ owned_block c <> Some q /\
            q <> next_block s).
  { intros s' x cx q Hh Hx Hcx Ho.
    assert (Hn : owned_block c <> Some q).
    { intros Hc. destruct Hok as (_ & _ & Hshare & _).
      by apply Hx, (Hshare x a cx c q). }
    pose proof (store_ok_live_below _ _ Hok (store_ok_owner _ _ _ _ Hok Hcx Ho)).
    split; [|split; [done|lia]]. destruct Hh as [|Hh]; [done|]. apply Hh; [done|lia]. }
  assert (Hcontent : forall s' b,
            (forall x cx q, x <> a -> objects s !! x = Some cx ->
               owned_block cx = Some q -> heap s' !! q = heap s !! q) ->
            (exists ca, objects s' = <[a := ca]> (objects s)) ->
            b <> a -> content_at s' b = content_at s b).
  { intros s' b Hh (ca & Hobj) Hb. unfold content_at.
    rewrite Hobj, lookup_insert_ne by done.
    destruct (objects s !! b) as [cb|] eqn:Hcb; [|done]. simpl. f_equal.
    apply content_of_frame. intros p Hp. by eapply Hh. }
  destruct (emplace_reuse_test T c) eqn:Htest.
  - (* the block is reused *)
    pose proof Htest as Hcond.
    apply emplace_reuse_test_true in Hcond as (HN & HN0 & Hsz).
    destruct (wf_any_inv _ _ _ Hwf) as [Hv | (T0 & v0 & HT0 & Hst)];
      [by rewrite Hv in HN0|].
    rewrite HT0 in HN0, Hsz. simpl in HN0, Hsz.
    destruct (stored_heap_inv _ _ _ _ _ _ HN0 Hst) as (p & Hbuf & Hp).
    assert (Hoc : owned_block c = Some p)
      by (apply owned_block_Some; by rewrite HT0).
    do 2 eexists. split; [by eapply emplace_reuse|].
    assert (Hst' : forall s0 l, heap s0 = <[p := live T v]> (heap s) ->
              stored s0 l T (capacity c) (ptr p) = Some v).
    { intros s0 l Hs0. eapply stored_heap_intro; [done|]. rewrite Hs0.
      apply lookup_insert_eq. }
    assert (Hframe : forall x cx q, x <> a -> objects s !! x = Some cx ->
              owned_block cx = Some q ->
              <[p := live T v]> (heap s) !! q = heap s !! q).
    { intros x cx q Hx Hcx Ho.
      destruct (Hother s x cx q (or_introl eq_refl) Hx Hcx Ho) as (_ & Hn & _).
      apply lookup_insert_ne. congruence. }
    split; [|split; [|split]].
    + eapply (store_ok_update1 s); [done | reflexivity | | | |].
      * intros q Hq. simpl in *. rewrite lookup_insert_ne; [by apply Hfresh|].
        intros <-. rewrite Hfresh in Hp by done. done.
      * unfold wf_any, content_of. simpl. by rewrite Hst'.
      * intros x cx q Hx Hcx Ho. simpl. split; [by eapply Hframe|].
        destruct (Hother s x cx q (or_introl eq_refl) Hx Hcx Ho) as (_ & Hn & _).
        unfold owned_block. simpl. rewrite HN. congruence.
      * intros q Hq. simpl in Hq.
        destruct (decide (q = p)) as [->|Hne].
        { left. unfold owned_block. simpl. by rewrite HN. }
        right. rewrite lookup_insert_ne in Hq by done.
        destruct Hok as (_ & _ & _ & Hown).
        destruct (Hown q Hq) as (x & cx & Hx & Ho).
        exists x, cx. split; [|done]. intros ->. congruence.
    + unfold content_at, content_of. simpl. rewrite lookup_insert_eq. simpl.
      by rewrite Hst'.
    + simpl. unfold deref. simpl. rewrite lookup_insert_eq.
      by rewrite decide_True.
    + intros b0 Hb0. apply Hcontent; [exact Hframe | by eexists | done].
  - (* release, then build afresh *)
    destruct (cleanUp_releases _ _ _ Hwf) as (b1 & Hclean & _).
    assert (Hframe : forall x cx q, x <> a -> objects s !! x = Some cx ->
              owned_block cx = Some q ->
              heap_without c (heap s) !! q = heap s !! q).
    { intros x cx q Hx Hcx Ho.
      destruct (Hother s x cx q (or_introl eq_refl) Hx Hcx Ho) as (_ & Hn & _).
      rewrite lookup_heap_without. by rewrite decide_False. }
    destruct (NeedsAlloc T (capacity c)) eqn:HN.
    + specialize (Hbudget eq_refl eq_refl).
      destruct (alloc_budget s) as [|n] eqn:Hn; [lia|].
      do 2 eexists. split; [by eapply emplace_fresh_heap|]. simpl.
      assert (Hst' : forall s0 l,
                heap s0 = <[next_block s := live T v]> (heap_without c (heap s)) ->
                stored s0 l T (capacity c) (ptr (next_block s)) = Some v).
      { intros s0 l Hs0. eapply stored_heap_intro; [done|]. rewrite Hs0.
        apply lookup_insert_eq. }
      assert (Hframe' : forall x cx q, x <> a -> objects s !! x = Some cx ->
                owned_block cx = Some q ->
                <[next_block s := live T v]> (heap_without c (heap s)) !! q
                = heap s !! q).
      { intros x cx q Hx Hcx Ho.
        destruct (Hother s x cx q (or_introl eq_refl) Hx Hcx Ho) as (_ & _ & Hq).
        rewrite lookup_insert_ne by done. by eapply Hframe. }
      split; [|split; [|split]].
      * eapply (store_ok_update1 s); [done | reflexivity | | | |].
        -- intros q Hq. simpl in *. rewrite lookup_insert_ne by lia.
           rewrite lookup_heap_without. case_decide; [done|].
           apply Hfresh. lia.
        -- unfold wf_any, content_of. simpl. by rewrite Hst'.
        -- intros x cx q Hx Hcx Ho. simpl. split; [by eapply Hframe'|].
           destruct (Hother s x cx q (or_introl eq_refl) Hx Hcx Ho) as (_ & _ & Hq).
           unfold owned_block. simpl. rewrite HN. congruence.
        -- intros q Hq. simpl in Hq.
           destruct (decide (q = next_block s)) as [->|Hne].
           { left. unfold owned_block. simpl. by rewrite HN. }
           right. rewrite lookup_insert_ne in Hq by done.
           rewrite lookup_heap_without in Hq.
           case_decide as Hc; [by destruct Hq|].
           destruct Hok as (_ & _ & _ & Hown).
           destruct (Hown q Hq) as (x & cx & Hx & Ho).
           exists x, cx. split; [|done]. intros ->. congruence.
      * unfold content_at, content_of. simpl. rewrite lookup_insert_eq. simpl.
        by rewrite Hst'.
      * unfold deref. simpl. rewrite lookup_insert_eq. by rewrite decide_True.
      * intros b0 Hb0. apply Hcontent; [exact Hframe' | by eexists | done].
    + do 2 eexists. split; [by eapply emplace_inline|]. simpl.
      split; [|split; [|split]].
      * eapply (store_ok_update1 s); [done | reflexivity | | | |].
        -- intros q Hq. simpl in *.
           rewrite lookup_heap_without. case_decide; [done|]. by apply Hfresh.
        -- unfold wf_any, content_of. simpl. by rewrite stored_inline_intro.
        -- intros x cx q Hx Hcx Ho. simpl. split; [by eapply Hframe|].
           unfold owned_block. simpl. by rewrite HN.
        -- intros q Hq. simpl in Hq. right.
           rewrite lookup_heap_without in Hq.
           case_decide as Hc; [by destruct Hq|].
           destruct Hok as (_ & _ & _ & Hown).
           destruct (Hown q Hq) as (x & cx & Hx & Ho).
           exists x, cx. split; [|done]. intros ->. congruence.
      * unfold content_at, content_of. simpl. rewrite lookup_insert_eq. simpl.
        by rewrite stored_inline_intro.
      * unfold bind, get. simpl. rewrite lookup_insert_eq. simpl.
        by rewrite decide_True.
      * intros b0 Hb0. apply Hcontent; [exact Hframe | by eexists | done].
Qed.

Lemma emplace_keeps_store_ok_witness :
  exists l s',
    emplace vector_t 9 0 two_heap_strings = Ok l s' /\ store_ok s' /\
    content_at s' 0 = Some (holding vector_t 9).
Proof.
  destruct (emplace_keeps_store_ok vector_t 9 0
              (mk_any 16 (info_of string_t) (ptr 5)) two_heap_strings)
    as (l & s' & H1 & H2 & H3 & _).
  - exact store_ok_two_heap_strings.
  - reflexivity.
  - intros _ _. simpl. lia.
  - exists l, s'. split; [exact H1|]. split; [exact H2 | exact H3].
Defined.

(** X6. When [emplace] has to allocate a new block and the allocation fails,
    the old value has already been released: [std::bad_alloc] leaves the
    container with its old descriptor over a buffer whose value is gone, so
    that a container which held a value is left broken, and [reset] and the
    destructor are undefined on it. *)
Theorem emplace_allocation_failure (T : CType) (v : Z) (a : addr) (c : sized_any)
    (s : state) :
  objects s !! a = Some c ->
  wf_any s (in_buffer a) c ->
  NeedsAlloc T (capacity c) = true ->
  emplace_reuse_test T c = false ->
  alloc_budget s = 0 ->
  exists s' b1,
    emplace T v a s = Throw bad_alloc s' /\
    objects s' = <[a := mk_any (capacity c) (info c) b1]> (objects s) /\
    heap s' = heap_without c (heap s) /\
    trace s' = trace s ++ release_events (in_buffer a) c /\
    (has_value c = true ->
     content_at s' a = Some broken /\ reset a s' = UB /\ destructor a s' = UB).
Proof.
  intros Ha Hwf HN Htest Hn.
  destruct (cleanUp_releases _ _ _ Hwf) as (b1 & Hclean & _).
  unfold emplace. erewrite bind_Ok by (by apply get_Some). simpl.
  unfold emplace_reuse_test in Htest. rewrite HN in *. simpl in Htest.
  rewrite Htest. erewrite bind_Ok by exact Hclean.
  unfold bind at 1. unfold put at 1. unfold bind at 1. unfold new_object at 1.
  simpl. rewrite Hn.
  do 2 eexists. split; [reflexivity|]. simpl. do 3 (split; [done|]).
  intros Hhv. unfold has_value in Hhv.
  destruct (decide (info c = info_void)) as [|Hne]; [done|].
  assert (Hreset : reset a
            (set_objects (<[a := mk_any (capacity c) (info c) b1]> (objects s))
               (mk_state (objects s) (heap_without c (heap s)) (next_block s) 0
                  (trace s ++ release_events (in_buffer a) c))) = UB /\
          content_at
            (set_objects (<[a := mk_any (capacity c) (info c) b1]> (objects s))
               (mk_state (objects s) (heap_without c (heap s)) (next_block s) 0
                  (trace s ++ release_events (in_buffer a) c))) a = Some broken).
  { unfold reset, content_at, content_of, bind, get. simpl.
    rewrite lookup_insert_eq. simpl. rewrite decide_False by done.
    destruct (wf_any_inv _ _ _ Hwf) as [Hv | (T0 & v0 & HT0 & Hst)]; [done|].
    rewrite HT0 in *. simpl. unfold CleanUp, stored.
    unfold heap_without, owned_block in *. rewrite HT0 in *. simpl in *.
    destruct (NeedsAlloc T0 (capacity c)) eqn:HN0.
    - destruct (stored_heap_inv _ _ _ _ _ _ HN0 Hst) as (p & Hb & Hp).
      rewrite Hb in *. rewrite (CleanUp_heap _ _ _ _ _ _ HN0 Hp) in Hclean.
      injection Hclean as <-. simpl.
      unfold operator_delete, bind, deref. simpl. by rewrite lookup_delete_eq.
    - destruct (stored_inline_inv _ _ _ _ _ _ HN0 Hst) as (self & Hb & _).
      rewrite Hb in *. rewrite (CleanUp_inline _ _ _ _ _ _ HN0) in Hclean.
      by injection Hclean as <-. }
  destruct Hreset as [Hreset Hbroken].
  split; [done|]. split; [done|]. unfold destructor, bind. by rewrite Hreset.
Qed.

Lemma emplace_allocation_failure_witness :
  exists s',
    emplace vector_t 9 0 heap_string_at_0 = Throw bad_alloc s' /\
    content_at s' 0 = Some broken /\ destructor 0 s' = UB.
Proof.
  destruct (emplace_allocation_failure vector_t 9 0
              (mk_any 16 (info_of string_t) (ptr 5)) heap_string_at_0)
    as (s' & b1 & H1 & _ & _ & _ & H2).
  - reflexivity.
  - vm_compute. discriminate.
  - reflexivity.
  - reflexivity.
  - reflexivity.
  - destruct H2 as (H3 & _ & H4); [reflexivity|].
    exists s'. repeat split; assumption.
Defined.

(** ** Extraction *)



(** ** The cross-capacity [swap] *)

Lemma mk_any_eta c : mk_any (capacity c) (info c) (buff c) = c.
Proof. by destruct c. Qed.

Lemma owned_needsAlloc c q :
  owned_block c = Some q -> needsAlloc (info c) (capacity c) = true.
Proof. intros H. by apply owned_block_Some in H as [? _]. Qed.

(** X8. [swap] with a container of smaller capacity exchanges the contents of
    the two containers, whatever they hold, provided the allocation that
    moving the value of [*this] into the smaller buffer may need
    succeeds. *)
Theorem swap_cross_smaller_exchanges (a b : addr) (A B : sized_any) (s : state) :
  a <> b ->
  objects s !! a = Some A -> objects s !! b = Some B ->
  capacity B < capacity A ->
  wf_any s (in_buffer a) A -> wf_any s (in_buffer b) B ->
  heap_fresh s ->
  (forall q, owned_block A = Some q -> owned_block B = Some q -> False) ->
  (needsAlloc (info A) (capacity B) = true ->
   needsAlloc (info A) (capacity A) = false -> 0 < alloc_budget s) ->
  exists s' A' B',
    swap_cross a b s = Ok tt s' /\
    objects s' = <[b := B']> (<[a := A']> (objects s)) /\
    capacity A' = capacity A /\ capacity B' = capacity B /\
    info A' = info B /\ info B' = info A /\
    content_of s' (in_buffer a) A' = content_of s (in_buffer b) B /\
    content_of s' (in_buffer b) B' = content_of s (in_buffer a) A /\
    heap_fresh s'.
Proof.
  intros Hab Ha Hb Hlt HwfA HwfB Hfresh Hsep Hbudget.
  (* this's value goes to tmp *)
  destruct (move_transfers (info A) (in_buffer a) in_swap_tmp (buff A) raw
              (capacity A) (capacity B) s)
    as (bA1 & t1 & s1 & Hm1 & Hobj1 & Hfr1 & _ & Hc1 & _ & Hold1 & _ & _ & _
        & Hfrom1 & _);
    [by rewrite mk_any_eta | done | done |].
  rewrite mk_any_eta in *.
  assert (Hlive1 : forall q, is_Some (heap s !! q) -> heap s1 !! q = heap s !! q).
  { intros q Hq. apply Hold1; [done|].
    destruct (decide (owned_block A = Some q)) as [Ho|]; [right|by left].
    apply owned_needsAlloc in Ho.
    apply (needsAlloc_mono _ (capacity B) (capacity A)); [lia|done]. }
  assert (HwfB1 : wf_any s1 (in_buffer b) (mk_any (capacity B) (info B) (buff B))).
  { rewrite mk_any_eta. apply (wf_any_frame s); [done|].
    intros p Hp. apply Hlive1. by eapply wf_owned_live. }
  (* other's value goes to this *)
  destruct (move_transfers (info B) (in_buffer b) (in_buffer a) (buff B) bA1
              (capacity B) (capacity A) s1)
    as (bB1 & bA2 & s2 & Hm2 & Hobj2 & Hfr2 & _ & Hc2 & _ & Hold2 & _ & _ & _ & _ & _);
    [done | done | |].
  { intros H1 H2.
    rewrite (needsAlloc_mono _ (capacity B) (capacity A)) in H2
      by (lia || done).
    done. }
  rewrite mk_any_eta in *.
  assert (Hwft1 : wf_any s1 in_swap_tmp (mk_any (capacity B) (info A) t1))
    by (unfold wf_any; rewrite Hc1; exact HwfA).
  assert (Hct2 : content_of s2 in_swap_tmp (mk_any (capacity B) (info A) t1)
                 = content_of s1 in_swap_tmp (mk_any (capacity B) (info A) t1)).
  { apply content_of_frame.
    intros q Hq. apply Hold2; [by eapply wf_owned_live|]. left.
    intros HoB. destruct (Hfrom1 q Hq) as [HoA | Hnone].
    - by apply (Hsep q).
    - destruct (wf_owned_live _ _ _ _ HwfB HoB) as [blk Hblk]. congruence. }
  (* tmp goes to other *)
  destruct (move_transfers (info A) in_swap_tmp (in_buffer b) t1 bB1
              (capacity B) (capacity B) s2)
    as (t2 & bB2 & s3 & Hm3 & Hobj3 & Hfr3 & _ & Hc3 & _ & Hold3 & _ & _ & _ & _ & _);
    [by unfold wf_any; rewrite Hct2 | done | |].
  { intros H1 H2. congruence. }
  assert (HwfA2 : wf_any s2 (in_buffer a) (mk_any (capacity A) (info B) bA2)).
  { unfold wf_any. rewrite Hc2.
    rewrite (content_of_frame s s1); [exact HwfB|].
    intros p Hp. apply Hlive1. by eapply wf_owned_live. }
  assert (HcA3 : content_of s3 (in_buffer a) (mk_any (capacity A) (info B) bA2)
                 = content_of s2 (in_buffer a) (mk_any (capacity A) (info B) bA2)).
  { apply content_of_frame. intros q Hq.
    apply Hold3; [by eapply wf_owned_live|].
    destruct (decide (owned_block (mk_any (capacity B) (info A) t1) = Some q)) as [Ho|];
      [right | by left].
    by apply owned_needsAlloc in Ho. }
  unfold swap_cross.
  erewrite bind_Ok by (by apply get_Some).
  erewrite bind_Ok by (by apply get_Some).
  assert (Hrun : swap_values_cross (in_buffer a) (in_buffer b) A B s
                 = Ok (mk_any (capacity A) (info B) bA2,
                       mk_any (capacity B) (info A) bB2) s3).
  { unfold swap_values_cross.
    assert (Hltb : (capacity B <? capacity A) = true) by (apply Nat.ltb_lt; lia).
    rewrite Hltb.
    erewrite bind_Ok.
    2:{ erewrite bind_Ok by exact Hm1. simpl.
        erewrite bind_Ok by exact Hm2. simpl.
        erewrite bind_Ok by exact Hm3. reflexivity. }
    simpl. case_decide as Hd; [done|]. by rewrite Hd. }
  erewrite bind_Ok by exact Hrun. simpl.
  unfold bind, put. simpl.
  do 3 eexists. split; [reflexivity|]. simpl.
  rewrite Hobj3, Hobj2, Hobj1.
  split; [done|]. do 4 (split; [done|]).
  split; [|split; [|done]].
  - rewrite (content_of_frame s3) by done. rewrite HcA3, Hc2.
    apply content_of_frame. intros p Hp. apply Hlive1. by eapply wf_owned_live.
  - rewrite (content_of_frame s3) by done. by rewrite Hc3, Hct2, Hc1.
Qed.

Lemma swap_cross_smaller_exchanges_witness :
  exists s' A' B',
    swap_cross 0 1 empty64_and_int32 = Ok tt s' /\
    objects s' = <[1 := B']> (<[0 := A']> (objects empty64_and_int32)) /\
    content_of s' (in_buffer 0) A' = holding int_t 42 /\
    content_of s' (in_buffer 1) B' = empty.
Proof.
  destruct (swap_cross_smaller_exchanges 0 1 (mk_any 64 info_void raw)
              (mk_any 32 (info_of int_t) (obj int_t 42 (in_buffer 1)))
              empty64_and_int32)
    as (s' & A' & B' & H1 & H2 & _ & _ & _ & _ & H3 & H4 & _).
  - lia.
  - reflexivity.
  - reflexivity.
  - simpl. lia.
  - vm_compute. discriminate.
  - vm_compute. discriminate.
  - intros p _. apply lookup_empty.
  - intros q Hq. vm_compute in Hq. discriminate.
  - intros Hn. vm_compute in Hn. discriminate.
  - exists s', A', B'. repeat split; assumption.
Defined.

(** X9. [swap] with a container of a capacity at least that of [*this], when
    [*this] is empty: the last [move] goes through the descriptor of
    [*this], which does nothing, so the buffer of [*this] is never written;
    [*this] ends with the descriptor of the other container's value over
    its old buffer, and the other container ends empty. *)
Theorem swap_cross_larger_never_writes_empty_this (a b : addr) (A B : sized_any)
    (s : state) :
  a <> b ->
  objects s !! a = Some A -> objects s !! b = Some B ->
  capacity A <= capacity B ->
  info A = info_void ->
  wf_any s (in_buffer b) B ->
  heap_fresh s ->
  (needsAlloc (info B) (capacity A) = true ->
   needsAlloc (info B) (capacity B) = false -> 0 < alloc_budget s) ->
  exists s' bB,
    swap_cross a b s = Ok tt s' /\
    objects s' !! a = Some (mk_any (capacity A) (info B) (buff A)) /\
    objects s' !! b = Some (mk_any (capacity B) info_void bB) /\
    (has_value B = true -> buff A = raw -> content_at s' a = Some broken).
Proof.
  intros Hab Ha Hb Hle Hv HwfB Hfresh Hbudget.
  destruct (move_transfers (info B) (in_buffer b) in_swap_tmp (buff B) raw
              (capacity B) (capacity A) s)
    as (bB1 & t1 & s1 & Hm1 & Hobj1 & _);
    [by rewrite mk_any_eta | done | done |].
  unfold swap_cross.
  erewrite bind_Ok by (by apply get_Some).
  erewrite bind_Ok by (by apply get_Some).
  assert (Hrun : swap_values_cross (in_buffer a) (in_buffer b) A B s
                 = Ok (mk_any (capacity A) (info B) (buff A),
                       mk_any (capacity B) info_void bB1) s1).
  { unfold swap_values_cross.
    assert (Hltb : (capacity B <? capacity A) = false) by (apply Nat.ltb_ge; lia).
    rewrite Hltb, Hv.
    erewrite bind_Ok.
    2:{ erewrite bind_Ok by exact Hm1. simpl. unfold bind, ret. simpl. reflexivity. }
    simpl. case_decide as Hd; [done|]. by rewrite <- Hd. }
  erewrite bind_Ok by exact Hrun. simpl. unfold bind, put. simpl.
  do 2 eexists. split; [reflexivity|]. simpl.
  rewrite lookup_insert_ne, !lookup_insert_eq by done.
  split; [done|]. split; [done|].
  intros Hhv Hraw. unfold content_at. simpl.
  rewrite lookup_insert_ne, lookup_insert_eq by done. simpl.
  unfold has_value in Hhv. unfold content_of. simpl.
  destruct (info B) as [|T]; [done|]. rewrite Hraw. unfold stored.
  by destruct (NeedsAlloc T (capacity A)).
Qed.

Lemma swap_cross_larger_never_writes_empty_this_witness :
  exists s',
    swap_cross 0 1 empty32_and_int64 = Ok tt s' /\
    content_at s' 0 = Some broken.
Proof.
  destruct (swap_cross_larger_never_writes_empty_this 0 1 (mk_any 32 info_void raw)
              (mk_any 64 (info_of int_t) (obj int_t 42 (in_buffer 1)))
              empty32_and_int64)
    as (s' & bB & H1 & _ & _ & H2).
  - lia.
  - reflexivity.
  - reflexivity.
  - simpl. lia.
  - reflexivity.
  - vm_compute. discriminate.
  - intros p _. apply lookup_empty.
  - intros Hn. vm_compute in Hn. discriminate.
  - exists s'. split; [assumption|]. apply H2; reflexivity.
Defined.

(** When the two descriptors agree at a capacity, [move] between two buffers
    of that capacity does the same through either. *)
Lemma move_agree i j lf lt from to N s :
  wf_any s lf (mk_any N j from) ->
  i = j \/ (needsAlloc i N = true /\ needsAlloc j N = true) ->
  move i lf lt from to N N s = move j lf lt from to N N s.
Proof.
  intros Hwf [-> | [Hi Hj]]; [done|].
  destruct i as [|TA]; [done|]. destruct j as [|TB]; [done|]. simpl in *.
  destruct (wf_any_inv _ _ _ Hwf) as [? | (T & v & HT & Hst)]; [done|].
  simpl in *. injection HT as <-.
  destruct (stored_heap_inv _ _ _ _ _ _ Hj Hst) as (p & -> & _).
  by rewrite !Move_heap_heap.
Qed.

(** X10. [swap] with a container of a capacity at least that of [*this]
    exchanges the contents of the two containers when their types agree
    (same contained type, or both values heap-backed at the capacity of
    [*this]), provided the one allocation that moving the other value into
    the smaller capacity may need succeeds. *)
Theorem swap_cross_larger_exchanges (a b : addr) (A B : sized_any) (s : state) :
  a <> b ->
  objects s !! a = Some A -> objects s !! b = Some B ->
  capacity A <= capacity B ->
  wf_any s (in_buffer a) A -> wf_any s (in_buffer b) B ->
  heap_fresh s ->
  (forall q, owned_block A = Some q -> owned_block B = Some q -> False) ->
  swap_agrees A B ->
  (needsAlloc (info B) (capacity A) = true ->
   needsAlloc (info B) (capacity B) = false -> 0 < alloc_budget s) ->
  exists s' A' B',
    swap_cross a b s = Ok tt s' /\
    objects s' = <[b := B']> (<[a := A']> (objects s)) /\
    capacity A' = capacity A /\ capacity B' = capacity B /\
    info A' = info B /\ info B' = info A /\
    content_of s' (in_buffer a) A' = content_of s (in_buffer b) B /\
    content_of s' (in_buffer b) B' = content_of s (in_buffer a) A /\
    heap_fresh s'.
Proof.
  intros Hab Ha Hb Hle HwfA HwfB Hfresh Hsep Hagree Hbudget.
  (* other's value goes to tmp *)
  destruct (move_transfers (info B) (in_buffer b) in_swap_tmp (buff B) raw
              (capacity B) (capacity A) s)
    as (bB1 & t1 & s1 & Hm1 & Hobj1 & Hfr1 & _ & Hc1 & _ & Hold1 & _ & _ & _
        & Hfrom1 & _);
    [by rewrite mk_any_eta | done | done |].
  rewrite mk_any_eta in *.
  assert (HwfA1 : wf_any s1 (in_buffer a) (mk_any (capacity A) (info A) (buff A))).
  { rewrite mk_any_eta. apply (wf_any_frame s); [done|].
    intros p Hp. apply Hold1; [exact (wf_owned_live _ _ _ _ HwfA Hp)|]. left.
    intros HoB. by apply (Hsep p). }
  (* this's value goes to other *)
  destruct (move_transfers (info A) (in_buffer a) (in_buffer b) (buff A) bB1
              (capacity A) (capacity B) s1)
    as (bA1 & bB2 & s2 & Hm2 & Hobj2 & Hfr2 & _ & Hc2 & _ & Hold2 & _ & _ & _ & _ & _);
    [done | done | |].
  { intros H1 H2.
    rewrite (needsAlloc_mono _ (capacity A) (capacity B)) in H2
      by (lia || done).
    done. }
  rewrite mk_any_eta in *.
  assert (Hwft1 : wf_any s1 in_swap_tmp (mk_any (capacity A) (info B) t1))
    by (unfold wf_any; rewrite Hc1; exact HwfB).
  assert (Hct2 : content_of s2 in_swap_tmp (mk_any (capacity A) (info B) t1)
                 = content_of s1 in_swap_tmp (mk_any (capacity A) (info B) t1)).
  { apply content_of_frame.
    intros q Hq. apply Hold2; [exact (wf_owned_live _ _ _ _ Hwft1 Hq)|]. left.
    intros HoA. destruct (Hfrom1 q Hq) as [HoB | Hnone].
    - by apply (Hsep q).
    - destruct (wf_owned_live _ _ _ _ HwfA HoA) as [blk Hblk]. congruence. }
  assert (Hwft2 : wf_any s2 in_swap_tmp (mk_any (capacity A) (info B) t1))
    by (unfold wf_any; by rewrite Hct2).
  (* tmp goes to this, through the descriptor of this *)
  destruct (move_transfers (info B) in_swap_tmp (in_buffer a) t1 bA1
              (capacity A) (capacity A) s2)
    as (t2 & bA2 & s3 & Hm3 & Hobj3 & Hfr3 & _ & Hc3 & _ & Hold3 & _ & _ & _ & _ & _);
    [done | done | |].
  { intros H1 H2. congruence. }
  rewrite <- (move_agree (info A) (info B)) in Hm3 by done.
  assert (HwfB2 : wf_any s2 (in_buffer b) (mk_any (capacity B) (info A) bB2)).
  { unfold wf_any. rewrite Hc2. exact HwfA1. }
  assert (HcB3 : content_of s3 (in_buffer b) (mk_any (capacity B) (info A) bB2)
                 = content_of s2 (in_buffer b) (mk_any (capacity B) (info A) bB2)).
  { apply content_of_frame. intros q Hq.
    apply Hold3; [exact (wf_owned_live _ _ _ _ HwfB2 Hq)|].
    destruct (decide (owned_block (mk_any (capacity A) (info B) t1) = Some q)) as [Ho|];
      [right | by left].
    by apply owned_needsAlloc in Ho. }
  unfold swap_cross.
  erewrite bind_Ok by (by apply get_Some).
  erewrite bind_Ok by (by apply get_Some).
  assert (Hrun : swap_values_cross (in_buffer a) (in_buffer b) A B s
                 = Ok (mk_any (capacity A) (info B) bA2,
                       mk_any (capacity B) (info A) bB2) s3).
  { unfold swap_values_cross.
    assert (Hltb : (capacity B <? capacity A) = false) by (apply Nat.ltb_ge; lia).
    rewrite Hltb.
    erewrite bind_Ok.
    2:{ erewrite bind_Ok by exact Hm1. simpl.
        erewrite bind_Ok by exact Hm2. simpl.
        erewrite bind_Ok by exact Hm3. reflexivity. }
    simpl. case_decide as Hd; [done|]. by rewrite Hd. }
  erewrite bind_Ok by exact Hrun. simpl.
  unfold bind, put. simpl.
  do 3 eexists. split; [reflexivity|]. simpl.
  rewrite Hobj3, Hobj2, Hobj1.
  split; [done|]. do 4 (split; [done|]).
  split; [|split; [|done]].
  - rewrite (content_of_frame s3) by done. by rewrite Hc3, Hct2, Hc1.
  - rewrite (content_of_frame s3) by done. rewrite HcB3, Hc2.
    apply content_of_frame. intros p Hp.
    apply Hold1; [exact (wf_owned_live _ _ _ _ HwfA Hp)|]. left.
    intros HoB. by apply (Hsep p).
Qed.

Lemma swap_cross_larger_exchanges_witness :
  exists s' A' B',
    swap_cross 0 1 int32_and_int64 = Ok tt s' /\
    objects s' = <[1 := B']> (<[0 := A']> (objects int32_and_int64)) /\
    content_of s' (in_buffer 0) A' = holding int_t 42 /\
    content_of s' (in_buffer 1) B' = holding int_t 7.
Proof.
  destruct (swap_cross_larger_exchanges 0 1
              (mk_any 32 (info_of int_t) (obj int_t 7 (in_buffer 0)))
              (mk_any 64 (info_of int_t) (obj int_t 42 (in_buffer 1)))
              int32_and_int64)
    as (s' & A' & B' & H1 & H2 & _ & _ & _ & _ & H3 & H4 & _).
  - lia.
  - reflexivity.
  - reflexivity.
  - simpl. lia.
  - vm_compute. discriminate.
  - vm_compute. discriminate.
  - intros p _. apply lookup_empty.
  - intros q Hq. vm_compute in Hq. discriminate.
  - left. reflexivity.
  - intros Hn. vm_compute in Hn. discriminate.
  - exists s', A', B'. repeat split; assumption.
Defined.

(** ** Assignment through a temporary *)

(** Same-capacity [swap] of two well-formed values whose descriptors agree:
    the two exchange contents and blocks, and the free store is untouched. *)
Lemma swap_values_exchanges la lb A B s :
  capacity B = capacity A ->
  wf_any s la A -> wf_any s lb B ->
  swap_agrees A B ->
  exists A' B' s1,
    swap_values la lb A B s = Ok (A', B') s1 /\
    objects s1 = objects s /\ heap s1 = heap s /\
    next_block s1 = next_block s /\ alloc_budget s1 = alloc_budget s /\
    capacity A' = capacity A /\ capacity B' = capacity B /\
    info A' = info B /\ info B' = info A /\
    owned_block A' = owned_block B /\ owned_block B' = owned_block A /\
    content_of s1 la A' = content_of s lb B /\
    content_of s1 lb B' = content_of s la A.
Proof.
  intros Hcap HwfA HwfB Hagree.
  destruct (wf_any_inv _ _ _ HwfA) as [HvA | (TA & va & HTA & HstA)];
  destruct (wf_any_inv _ _ _ HwfB) as [HvB | (TB & vb & HTB & HstB)].
  - (* both empty *)
    unfold swap_values. rewrite HvA, HvB. simpl. unfold bind, ret. simpl.
    do 3 eexists. split; [reflexivity|]. simpl.
    rewrite !owned_block_empty by done.
    unfold content_of. simpl. rewrite HvA, HvB. by repeat split.
  - destruct Hagree as [He | [HnA _]]; [congruence | by rewrite HvA in HnA].
  - destruct Hagree as [He | [_ HnB]]; [congruence | by rewrite HvB in HnB].
  - destruct (NeedsAlloc TA (capacity A)) eqn:HNA.
    + (* both heap-backed *)
      assert (HNB : NeedsAlloc TB (capacity A) = true).
      { destruct Hagree as [He | [_ HnB]].
        - rewrite HTA, HTB in He. injection He as <-. done.
        - by rewrite HTB in HnB. }
      rewrite Hcap in HstB.
      destruct (stored_heap_inv _ _ _ _ _ _ HNA HstA) as (pa & HbA & Hpa).
      destruct (stored_heap_inv _ _ _ _ _ _ HNB HstB) as (pb & HbB & Hpb).
      do 3 eexists. split.
      { eapply swap_values_heap; eauto; by rewrite ?HTA, ?HTB. }
      unfold owned_block, content_of. simpl.
      rewrite ?HTA, ?HTB, ?Hcap, ?HbA, ?HbB. simpl.
      rewrite ?HNA, ?HNB, ?HstA, ?HstB.
      rewrite ?(stored_heap_intro s _ _ _ _ _ HNB Hpb),
              ?(stored_heap_intro s _ _ _ _ _ HNA Hpa).
      by repeat split.
    + (* the same type, stored in place *)
      destruct Hagree as [He | [HnA _]];
        [|by rewrite HTA in HnA; simpl in HnA; congruence].
      rewrite HTA, HTB in He. injection He as <-.
      rewrite Hcap in HstB.
      destruct (stored_inline_inv _ _ _ _ _ _ HNA HstA) as (sa & HbA & _).
      destruct (stored_inline_inv _ _ _ _ _ _ HNA HstB) as (sb & HbB & _).
      do 3 eexists. split; [by eapply swap_values_same_inline|].
      rewrite HbA in HstA. rewrite HbB in HstB.
      unfold owned_block, content_of. simpl.
      rewrite ?HTA, ?HTB, ?Hcap, ?HbA, ?HbB. simpl.
      rewrite ?HNA, ?HstA, ?HstB.
      rewrite ?stored_inline_intro by done.
      by repeat split.
Qed.

(** What [sized_any<N>(...).swap( *this)] and the destruction of the
    temporary leave behind, when the temporary and [*this] agree. *)
Lemma swap_temporary_into_replaces a tmp This s :
  objects s !! a = Some This ->
  capacity tmp = capacity This ->
  wf_any s in_temporary tmp -> wf_any s (in_buffer a) This ->
  swap_agrees tmp This ->
  (forall q, owned_block tmp = Some q -> owned_block This = Some q -> False) ->
  exists s' This',
    swap_temporary_into a tmp s = Ok tt s' /\
    objects s' = <[a := This']> (objects s) /\
    heap s' = heap_without This (heap s) /\
    next_block s' = next_block s /\ alloc_budget s' = alloc_budget s /\
    capacity This' = capacity This /\ info This' = info tmp /\
    owned_block This' = owned_block tmp /\
    content_of s' (in_buffer a) This' = content_of s in_temporary tmp.
Proof.
  intros Ha Hcap Hwft HwfT Hagree Hsep.
  destruct (swap_values_exchanges in_temporary (in_buffer a) tmp This s)
    as (tmp' & This' & s1 & Hsw & Hobj1 & Hheap1 & Hnext1 & Hbud1 & Hct & HcT
        & Hit & HiT & Hot & HoT & Hcont_t & Hcont_T);
    [done | done | done | done |].
  assert (Hwft' : wf_any s1 in_temporary tmp')
    by (unfold wf_any; rewrite Hcont_t; exact HwfT).
  destruct (cleanUp_releases _ _ _ Hwft') as (b1 & Hclean & _).
  unfold swap_temporary_into.
  erewrite bind_Ok by (by apply get_Some).
  erewrite bind_Ok by exact Hsw. simpl.
  unfold bind at 1. unfold put at 1.
  assert (Hreset : exists t2 s2,
    reset_at in_temporary tmp'
      (set_objects (<[a := This']> (objects s1)) s1) = Ok t2 s2 /\
    objects s2 = <[a := This']> (objects s1) /\
    heap s2 = heap_without tmp' (heap s1) /\
    next_block s2 = next_block s1 /\ alloc_budget s2 = alloc_budget s1).
  { unfold reset_at. destruct (decide (info tmp' = info_void)) as [Hv|Hne].
    - do 2 eexists. split; [reflexivity|]. simpl.
      by rewrite heap_without_empty.
    - destruct (cleanUp_releases
                  (set_objects (<[a := This']> (objects s1)) s1) in_temporary tmp')
        as (b2 & Hclean2 & _).
      { by apply (wf_any_frame s1). }
      erewrite bind_Ok by exact Hclean2. do 2 eexists. split; [reflexivity|].
      done. }
  destruct Hreset as (t2 & s2 & Hr & Hobj2 & Hheap2 & Hnext2 & Hbud2).
  erewrite bind_Ok by exact Hr.
  exists s2, This'. split; [done|].
  rewrite Hobj2, Hheap2, Hnext2, Hbud2, Hobj1, Hheap1, Hnext1, Hbud1.
  split; [done|].
  assert (Hhw : heap_without tmp' (heap s) = heap_without This (heap s))
    by (unfold heap_without; by rewrite Hot).
  split; [done|]. do 5 (split; [done|]).
  rewrite <- Hcont_T.
  apply content_of_frame. intros q Hq.
  rewrite Hheap2, Hheap1, lookup_heap_without. rewrite decide_False; [done|].
  rewrite Hot. intros HoT'. rewrite HoT in Hq. by apply (Hsep q).
Qed.

(** Swapping the temporary into [*this] and destroying it reestablishes the
    invariant: [*this] holds what the temporary held, the old value is
    released, and the other containers are as they were. *)
Lemma swap_temporary_into_finishes a tmp This s :
  store_ok_with s tmp ->
  objects s !! a = Some This ->
  capacity tmp = capacity This ->
  swap_agrees tmp This ->
  exists s',
    swap_temporary_into a tmp s = Ok tt s' /\
    store_ok s' /\
    content_at s' a = Some (content_of s in_temporary tmp) /\
    (forall x, x <> a -> content_at s' x = content_at s x) /\
    heap s' = heap_without This (heap s).
Proof.
  intros (Hfresh & Hwf & Hwft & Hshare & Htmp & Hown) Ha Hcap Hagree.
  destruct (swap_temporary_into_replaces a tmp This s)
    as (s' & This' & Hrun & Hobj & Hheap & Hnext & _ & HcT & HiT & HoT & Hcont);
    [done | done | done | by eapply Hwf | done | |].
  { intros q Hq HqT. by eapply (Htmp a This q). }
  assert (Hrest : forall x cx q, x <> a ->
            objects s !! x = Some cx -> owned_block cx = Some q ->
            heap s' !! q = heap s !! q).
  { intros x cx q Hx Hcx Ho. rewrite Hheap, lookup_heap_without.
    rewrite decide_False; [done|]. intros Hc. by apply Hx, (Hshare x a cx This q). }
  exists s'. split; [done|]. split; [|split; [|split; [|done]]].
  - split; [|split; [|split]].
    + intros q Hq. rewrite Hheap, lookup_heap_without. case_decide; [done|].
      apply Hfresh. by rewrite <- Hnext.
    + intros x cx. rewrite Hobj. destruct (decide (x = a)) as [->|Hx].
      * rewrite lookup_insert_eq. intros [= <-]. unfold wf_any. by rewrite Hcont.
      * rewrite lookup_insert_ne by done. intros Hcx.
        apply (wf_any_frame s); [by eapply Hwf|]. intros p Hp. by eapply Hrest.
    + intros x y cx cy p. rewrite Hobj.
      destruct (decide (x = a)) as [->|Hx], (decide (y = a)) as [->|Hy];
        rewrite ?lookup_insert_eq, ?lookup_insert_ne by done; try done.
      * intros [= <-] Hcy Ho1 Ho2. rewrite HoT in Ho1. by destruct (Htmp y cy p).
      * intros Hcx [= <-] Ho1 Ho2. rewrite HoT in Ho2. by destruct (Htmp x cx p).
      * by apply Hshare.
    + intros q Hq. rewrite Hheap, lookup_heap_without in Hq.
      case_decide as Hc; [by destruct Hq|].
      destruct (Hown q Hq) as [Ho | (x & cx & Hcx & Ho)].
      * exists a, This'. rewrite Hobj, lookup_insert_eq. by rewrite HoT.
      * exists x, cx. rewrite Hobj, lookup_insert_ne; [done|].
        intros ->. congruence.
  - unfold content_at. rewrite Hobj, lookup_insert_eq. simpl. by rewrite Hcont.
  - intros x Hx. unfold content_at. rewrite Hobj, lookup_insert_ne by done.
    destruct (objects s !! x) as [cx|] eqn:Hcx; [|done]. simpl. f_equal.
    apply content_of_frame. intros p Hp. by eapply Hrest.
Qed.

(** Building the temporary by copy. *)
Lemma ctor_copy_builds N src other s :
  store_ok s ->
  objects s !! src = Some other ->
  (needsAlloc (info other) N = true -> 0 < alloc_budget s) ->
  exists tmp s1,
    ctor_copy N in_temporary other s = Ok tmp s1 /\
    store_ok_with s1 tmp /\
    objects s1 = objects s /\
    capacity tmp = N /\ info tmp = info other /\
    content_of s1 in_temporary tmp = content_of s (in_buffer src) other /\
    (forall x, content_at s1 x = content_at s x).
Proof.
  intros Hok Hsrc Hbudget.
  pose proof Hok as (Hfresh & Hwf & Hshare & Hown).
  destruct (copy_transfers (info other) (in_buffer src) in_temporary
              (buff other) raw (capacity other) N s)
    as (to' & s1 & Hc & Hobj & Hfr & Hcont & _ & Hold & Hnew & Hall & _);
    [rewrite mk_any_eta; by eapply Hwf | done | done |].
  rewrite mk_any_eta in Hcont.
  unfold ctor_copy. erewrite bind_Ok by exact Hc. simpl.
  do 2 eexists. split; [reflexivity|].
  assert (Hkeep : forall x cx q, objects s !! x = Some cx ->
            owned_block cx = Some q -> heap s1 !! q = heap s !! q).
  { intros x cx q Hcx Ho. apply Hold. by eapply store_ok_owner. }
  split; [|split; [done|split; [done|split; [done|split; [done|]]]]].
  - split; [done|]. split; [|split; [|split; [|split]]].
    + intros x cx. rewrite Hobj. intros Hcx.
      apply (wf_any_frame s); [by eapply Hwf|]. intros p Hp. by eapply Hkeep.
    + unfold wf_any. rewrite Hcont. by eapply Hwf.
    + intros x y cx cy p. rewrite Hobj. apply Hshare.
    + intros x cx p. rewrite Hobj. intros Hcx Ho Ht.
      apply Hnew in Ht. destruct (store_ok_owner _ _ _ _ Hok Hcx Ho). congruence.
    + intros q Hq. destruct (Hall q Hq) as [Hlive | Ho]; [|by left].
      right. rewrite Hobj. by apply Hown.
  - intros x. unfold content_at. rewrite Hobj.
    destruct (objects s !! x) as [cx|] eqn:Hcx; [|done]. simpl. f_equal.
    apply content_of_frame. intros p Hp. by eapply Hkeep.
Qed.

(** X11. Copy assignment from another container whose type agrees with that of
    [*this] (same contained type, or both values heap-backed at the
    capacity of [*this]): [*this] then holds what [rhs] holds, [rhs] and all
    other containers are as they were, and the ownership invariant is kept
    (the old value of [*this] is released). *)
Theorem copy_assignment_replaces (a rhs : addr) (This R : sized_any) (s : state) :
  store_ok s ->
  rhs <> a ->
  objects s !! a = Some This -> objects s !! rhs = Some R ->
  (info R = info This \/
   (needsAlloc (info R) (capacity This) = true /\
    needsAlloc (info This) (capacity This) = true)) ->
  (needsAlloc (info R) (capacity This) = true -> 0 < alloc_budget s) ->
  exists s',
    (if decide (capacity R = capacity This)
     then copy_assign a rhs s else copy_assign_cross a rhs s) = Ok tt s' /\
    store_ok s' /\
    content_at s' a = content_at s rhs /\
    (forall x, x <> a -> content_at s' x = content_at s x).
Proof.
  intros Hok Hne Ha Hr Hagree Hbudget.
  destruct (ctor_copy_builds (capacity This) rhs R s)
    as (tmp & s1 & Hbuild & Hok1 & Hobj1 & Hct & Hit & Hcont & Hsame);
    [done | done | done |].
  destruct (swap_temporary_into_finishes a tmp This s1)
    as (s' & Hrun & Hok' & Hca & Hrest & _);
    [done | by rewrite Hobj1 | done | |].
  { unfold swap_agrees. by rewrite Hit, Hct. }
  exists s'.
  assert (Hbody : copy_assign_cross a rhs s = Ok tt s').
  { unfold copy_assign_cross.
    erewrite bind_Ok by (by apply get_Some).
    erewrite bind_Ok by (by apply get_Some).
    by erewrite bind_Ok by exact Hbuild. }
  split.
  { case_decide; [|done]. unfold copy_assign. by rewrite decide_False. }
  split; [done|]. split.
  - rewrite Hca, Hcont. unfold content_at. by rewrite Hr.
  - intros x Hx. by rewrite Hrest, Hsame.
Qed.

Lemma copy_assignment_replaces_witness :
  exists s',
    copy_assign 0 1 two_heap_strings = Ok tt s' /\ store_ok s' /\
    content_at s' 0 = Some (holding string_t 34) /\
    content_at s' 1 = Some (holding string_t 34).
Proof.
  destruct (copy_assignment_replaces 0 1 (mk_any 16 (info_of string_t) (ptr 5))
              (mk_any 16 (info_of string_t) (ptr 6)) two_heap_strings)
    as (s' & H1 & H2 & H3 & H4).
  - exact store_ok_two_heap_strings.
  - lia.
  - reflexivity.
  - reflexivity.
  - left. reflexivity.
  - intros _. simpl. lia.
  - exists s'. split; [exact H1|]. split; [exact H2|]. split.
    + rewrite H3. reflexivity.
    + rewrite H4 by lia. reflexivity.
Defined.

(** Building the temporary from a value. *)
Lemma ctor_value_builds k N T v s :
  store_ok s ->
  (NeedsAlloc T N = true -> 0 < alloc_budget s) ->
  exists tmp s1,
    ctor_value k N in_temporary T v s = Ok tmp s1 /\
    store_ok_with s1 tmp /\
    objects s1 = objects s /\
    capacity tmp = N /\ info tmp = info_of T /\
    content_of s1 in_temporary tmp = holding T v /\
    (forall x, content_at s1 x = content_at s x).
Proof.
  intros Hok Hbudget.
  pose proof Hok as (Hfresh & Hwf & Hshare & Hown).
  unfold ctor_value. destruct (NeedsAlloc T N) eqn:HN.
  - specialize (Hbudget eq_refl). unfold bind, new_object, operator_new.
    destruct (alloc_budget s) as [|n] eqn:Hn; [lia|]. simpl.
    do 2 eexists. split; [reflexivity|]. simpl.
    assert (Hst : forall s0 l, heap s0 = <[next_block s := live T v]> (heap s) ->
              stored s0 l T N (ptr (next_block s)) = Some v).
    { intros s0 l Hs0. eapply stored_heap_intro; [done|]. rewrite Hs0.
      apply lookup_insert_eq. }
    assert (Hkeep : forall x cx q, objects s !! x = Some cx ->
              owned_block cx = Some q ->
              <[next_block s := live T v]> (heap s) !! q = heap s !! q /\
              q <> next_block s).
    { intros x cx q Hcx Ho.
      pose proof (store_ok_live_below _ _ Hok (store_ok_owner _ _ _ _ Hok Hcx Ho)).
      split; [apply lookup_insert_ne|]; lia. }
    assert (Hot : owned_block (mk_any N (info_of T) (ptr (next_block s)))
                  = Some (next_block s))
      by (unfold owned_block; simpl; by rewrite HN).
    split; [|split; [done|split; [done|split; [done|split]]]].
    + split; [|split; [|split; [|split; [|split]]]]; simpl.
      * intros q Hq. simpl in *. rewrite lookup_insert_ne by lia.
        apply Hfresh. lia.
      * intros x cx Hcx. apply (wf_any_frame s); [by eapply Hwf|].
        intros p Hp. simpl. by eapply Hkeep.
      * unfold wf_any, content_of. simpl. by rewrite Hst.
      * apply Hshare.
      * intros x cx p Hcx Ho. rewrite Hot. intros [= <-].
        by destruct (Hkeep x cx _ Hcx Ho).
      * intros q Hq. destruct (decide (q = next_block s)) as [->|Hq'].
        { left. exact Hot. }
        right. rewrite lookup_insert_ne in Hq by done. by apply Hown.
    + unfold content_of. simpl. by rewrite Hst.
    + intros x. unfold content_at. simpl.
      destruct (objects s !! x) as [cx|] eqn:Hcx; [|done]. simpl. f_equal.
      apply content_of_frame. intros p Hp. simpl. by eapply Hkeep.
  - unfold bind, emit. simpl. do 2 eexists. split; [reflexivity|]. simpl.
    assert (Hot : owned_block (mk_any N (info_of T) (obj T v in_temporary)) = None)
      by (unfold owned_block; simpl; by rewrite HN).
    split; [|split; [done|split; [done|split; [done|split]]]].
    + split; [done|]. split; [|split; [|split; [|split]]]; simpl.
      * intros x cx Hcx. apply (wf_any_frame s); [by eapply Hwf|done].
      * unfold wf_any, content_of. simpl. by rewrite stored_inline_intro.
      * apply Hshare.
      * intros x cx p _ _. by rewrite Hot.
      * intros q Hq. right. by apply Hown.
    + unfold content_of. simpl. by rewrite stored_inline_intro.
    + intros x. unfold content_at. simpl.
      destruct (objects s !! x) as [cx|] eqn:Hcx; [|done]. simpl.
      f_equal; by try apply content_of_frame.
Qed.

Lemma any_cast_holding T a c v s :
  objects s !! a = Some c ->
  content_of s (in_buffer a) c = holding T v ->
  any_cast T a s = Ok v s.
Proof.
  intros Ha Hc. unfold content_of in Hc.
  destruct (info c) as [|T'] eqn:Hi; [done|].
  destruct (stored s (in_buffer a) T' (capacity c) (buff c)) as [v'|] eqn:Hst;
    [|done].
  injection Hc as -> ->.
  unfold any_cast, any_cast_ptr, bind, get. rewrite Ha, Hi.
  rewrite decide_False by (intros H; by apply H).
  destruct (NeedsAlloc T (capacity c)) eqn:HN.
  - destruct (stored_heap_inv _ _ _ _ _ _ HN Hst) as (p & Hb & Hp).
    rewrite Hb. simpl. by rewrite (deref_live _ _ _ _ Hp).
  - destruct (stored_inline_inv _ _ _ _ _ _ HN Hst) as (self & Hb & _).
    simpl. unfold bind, get. rewrite Ha, Hb. by rewrite read_obj_same.
Qed.

(** X12. Assignment of a value whose type agrees with that of [*this]: [*this]
    then holds the value, [any_cast] returns it, the other containers are
    as they were, and the ownership invariant is kept. *)
Theorem value_assignment_replaces (k : ctor_kind) (a : addr) (T : CType) (v : Z)
    (This : sized_any) (s : state) :
  store_ok s ->
  objects s !! a = Some This ->
  (info_of T = info This \/
   (NeedsAlloc T (capacity This) = true /\
    needsAlloc (info This) (capacity This) = true)) ->
  (NeedsAlloc T (capacity This) = true -> 0 < alloc_budget s) ->
  exists s',
    value_assign k a T v s = Ok tt s' /\
    store_ok s' /\
    content_at s' a = Some (holding T v) /\
    any_cast T a s' = Ok v s' /\
    (forall x, x <> a -> content_at s' x = content_at s x).
Proof.
  intros Hok Ha Hagree Hbudget.
  destruct (ctor_value_builds k (capacity This) T v s)
    as (tmp & s1 & Hbuild & Hok1 & Hobj1 & Hct & Hit & Hcont & Hsame);
    [done | done |].
  destruct (swap_temporary_into_finishes a tmp This s1)
    as (s' & Hrun & Hok' & Hca & Hrest & _);
    [done | by rewrite Hobj1 | done | |].
  { unfold swap_agrees. by rewrite Hit, Hct. }
  exists s'. split.
  { unfold value_assign. erewrite bind_Ok by (by apply get_Some).
    by erewrite bind_Ok by exact Hbuild. }
  split; [done|]. rewrite Hcont in Hca. split; [done|]. split.
  - unfold content_at in Hca.
    destruct (objects s' !! a) as [c'|] eqn:Hc'; [|done]. injection Hca as Hca.
    by eapply any_cast_holding.
  - intros x Hx. by rewrite Hrest, Hsame.
Qed.

Lemma value_assignment_replaces_witness :
  exists s',
    value_assign copy_ctor 0 vector_t 9 two_heap_strings = Ok tt s' /\
    store_ok s' /\ any_cast vector_t 0 s' = Ok 9%Z s'.
Proof.
  destruct (value_assignment_replaces copy_ctor 0 vector_t 9
              (mk_any 16 (info_of string_t) (ptr 5)) two_heap_strings)
    as (s' & H1 & H2 & _ & H3 & _).
  - exact store_ok_two_heap_strings.
  - reflexivity.
  - right. split; reflexivity.
  - intros _. simpl. lia.
  - exists s'. split; [exact H1|]. split; [exact H2 | exact H3].
Defined.

(** Building the temporary by move, and emptying the source. *)
Lemma ctor_move_builds N rhs R s :
  store_ok s ->
  objects s !! rhs = Some R ->
  (needsAlloc (info R) N = true ->
   needsAlloc (info R) (capacity R) = false -> 0 < alloc_budget s) ->
  exists tmp R' s1 s2,
    ctor_move N (in_buffer rhs) in_temporary R s = Ok (tmp, R') s1 /\
    put rhs R' s1 = Ok tt s2 /\
    store_ok_with s2 tmp /\
    objects s2 = <[rhs := R']> (objects s) /\
    capacity tmp = N /\ info tmp = info R /\
    content_of s2 in_temporary tmp = content_of s (in_buffer rhs) R /\
    content_at s2 rhs = Some empty /\
    (forall x, x <> rhs -> content_at s2 x = content_at s x).
Proof.
  intros Hok Hr Hbudget.
  pose proof Hok as (Hfresh & Hwf & Hshare & Hown).
  destruct (move_transfers (info R) (in_buffer rhs) in_temporary
              (buff R) raw (capacity R) N s)
    as (from' & to' & s1 & Hm & Hobj & Hfr & _ & Hcont & _ & Hold & Hgone & Hnew
        & _ & Hfrom & Hkeep);
    [rewrite mk_any_eta; by eapply Hwf | done | done |].
  rewrite mk_any_eta in *.
  unfold ctor_move. erewrite bind_Ok by exact Hm. simpl.
  do 4 eexists. split; [reflexivity|]. split; [reflexivity|]. simpl.
  set (R' := mk_any (capacity R) info_void from').
  set (tmp := mk_any N (info R) to') in *.
  assert (HR' : owned_block R' = None) by by apply owned_block_empty.
  assert (Hkept : forall x cx q, x <> rhs -> objects s !! x = Some cx ->
            owned_block cx = Some q -> heap s1 !! q = heap s !! q).
  { intros x cx q Hx Hcx Ho. apply Hold; [by eapply store_ok_owner|].
    left. intros Ho'. by apply Hx, (Hshare x rhs cx R q). }
  assert (Hlook : forall x cx,
            <[rhs := R']> (objects s1) !! x = Some cx ->
            (x = rhs /\ cx = R') \/ (x <> rhs /\ objects s !! x = Some cx)).
  { intros x cx. destruct (decide (x = rhs)) as [->|Hx].
    - rewrite lookup_insert_eq. intros [= <-]. by left.
    - rewrite lookup_insert_ne by done. rewrite Hobj. by right. }
  split; [|split; [by rewrite Hobj|split; [done|split; [done|split; [|split]]]]].
  - split; [done|]. split; [|split; [|split; [|split]]]; simpl.
    + intros x cx Hx. destruct (Hlook x cx Hx) as [[-> ->] | [Hne Hcx]].
      * by apply wf_any_empty.
      * apply (wf_any_frame s); [by eapply Hwf|]. intros p Hp. simpl.
        by eapply Hkept.
    + unfold wf_any. rewrite (content_of_frame s1) by done. rewrite Hcont.
      by eapply Hwf.
    + intros x y cx cy p Hx Hy.
      destruct (Hlook x cx Hx) as [[-> ->] | [Hnx Hcx]]; [by rewrite HR'|].
      destruct (Hlook y cy Hy) as [[-> ->] | [Hny Hcy]]; [by rewrite HR'|].
      by eapply Hshare.
    + intros x cx p Hx Ho Ht.
      destruct (Hlook x cx Hx) as [[-> ->] | [Hnx Hcx]]; [by rewrite HR' in Ho|].
      destruct (Hfrom p Ht) as [HoR | Hnone].
      * by apply Hnx, (Hshare x rhs cx R p).
      * destruct (store_ok_owner _ _ _ _ Hok Hcx Ho). congruence.
    + intros q Hq. destruct (Hnew q Hq) as [Hlive | Ho]; [|by left].
      destruct (Hown q Hlive) as (x & cx & Hx & Ho).
      destruct (decide (x = rhs)) as [->|Hxs].
      * left. rewrite Hr in Hx. injection Hx as <-. apply Hkeep; [done|].
        destruct (needsAlloc (info R) N) eqn:HN; [done|].
        rewrite (Hgone q Ho eq_refl) in Hq. by destruct Hq.
      * right. exists x, cx. rewrite lookup_insert_ne by done.
        by rewrite Hobj.
  - by rewrite (content_of_frame s1) by done.
  - unfold content_at. simpl. by rewrite lookup_insert_eq.
  - intros x Hx. unfold content_at. simpl. rewrite lookup_insert_ne by done.
    rewrite Hobj.
    destruct (objects s !! x) as [cx|] eqn:Hcx; [|done]. simpl. f_equal.
    apply content_of_frame. intros p Hp. simpl. by eapply Hkept.
Qed.

(** X13. Move assignment from another container whose type agrees with that of
    [*this]: [*this] then holds what [rhs] held, [rhs] is empty, the other
    containers are as they were, and the ownership invariant is kept. *)
Theorem move_assignment_replaces (a rhs : addr) (This R : sized_any) (s : state) :
  store_ok s ->
  rhs <> a ->
  objects s !! a = Some This -> objects s !! rhs = Some R ->
  (info R = info This \/
   (needsAlloc (info R) (capacity This) = true /\
    needsAlloc (info This) (capacity This) = true)) ->
  (needsAlloc (info R) (capacity This) = true ->
   needsAlloc (info R) (capacity R) = false -> 0 < alloc_budget s) ->
  exists s',
    (if decide (capacity R = capacity This)
     then move_assign a rhs s else move_assign_cross a rhs s) = Ok tt s' /\
    store_ok s' /\
    content_at s' a = content_at s rhs /\
    content_at s' rhs = Some empty /\
    (forall x, x <> a -> x <> rhs -> content_at s' x = content_at s x).
Proof.
  intros Hok Hne Ha Hr Hagree Hbudget.
  destruct (ctor_move_builds (capacity This) rhs R s)
    as (tmp & R' & s1 & s2 & Hbuild & Hput & Hok2 & Hobj2 & Hct & Hit & Hcont
        & Hsrc & Hsame);
    [done | done | done |].
  destruct (swap_temporary_into_finishes a tmp This s2)
    as (s' & Hrun & Hok' & Hca & Hrest & _);
    [done | by rewrite Hobj2, lookup_insert_ne | done | |].
  { unfold swap_agrees. by rewrite Hit, Hct. }
  exists s'.
  assert (Hbody : move_assign_cross a rhs s = Ok tt s').
  { unfold move_assign_cross.
    erewrite bind_Ok by (by apply get_Some).
    erewrite bind_Ok by (by apply get_Some).
    erewrite bind_Ok by exact Hbuild. simpl.
    by erewrite bind_Ok by exact Hput. }
  split.
  { case_decide; [|done]. unfold move_assign. by rewrite decide_False. }
  split; [done|]. split; [|split].
  - rewrite Hca, Hcont. unfold content_at. by rewrite Hr.
  - by rewrite Hrest.
  - intros x Hxa Hxr. by rewrite Hrest, Hsame.
Qed.

Lemma move_assignment_replaces_witness :
  exists s',
    move_assign 0 1 two_heap_strings = Ok tt s' /\ store_ok s' /\
    content_at s' 0 = Some (holding string_t 34) /\
    content_at s' 1 = Some empty.
Proof.
  destruct (move_assignment_replaces 0 1 (mk_any 16 (info_of string_t) (ptr 5))
              (mk_any 16 (info_of string_t) (ptr 6)) two_heap_strings)
    as (s' & H1 & H2 & H3 & H4 & _).
  - exact store_ok_two_heap_strings.
  - lia.
  - reflexivity.
  - reflexivity.
  - left. reflexivity.
  - intros _ Hn. vm_compute in Hn. discriminate.
  - exists s'. split; [exact H1|]. split; [exact H2|]. split; [|exact H4].
    rewrite H3. reflexivity.
Defined.

(** X14. Same-capacity [swap] of two containers whose types agree exchanges
    their contents, keeps the ownership invariant, touches no other
    container and does not allocate: the free store is unchanged. *)
Theorem swap_keeps_store_ok (a b : addr) (A B : sized_any) (s : state) :
  store_ok s ->
  b <> a ->
  objects s !! a = Some A -> objects s !! b = Some B ->
  capacity B = capacity A ->
  swap_agrees A B ->
  exists s',
    swap a b s = Ok tt s' /\
    store_ok s' /\
    content_at s' a = content_at s b /\
    content_at s' b = content_at s a /\
    (forall x, x <> a -> x <> b -> content_at s' x = content_at s x) /\
    heap s' = heap s /\ alloc_budget s' = alloc_budget s.
Proof.
  intros Hok Hne Ha Hb Hcap Hagree.
  pose proof Hok as (Hfresh & Hwf & Hshare & Hown).
  destruct (swap_values_exchanges (in_buffer a) (in_buffer b) A B s)
    as (A' & B' & s1 & Hrun & Hobj & Hheap & Hnext & Hbud & _ & _ & _ & _
        & HoA & HoB & HcA & HcB);
    [done | by eapply Hwf | by eapply Hwf | done |].
  unfold swap. rewrite decide_False by done.
  erewrite bind_Ok by (by apply get_Some).
  erewrite bind_Ok by (by apply get_Some).
  erewrite bind_Ok by exact Hrun. simpl.
  unfold bind, put. simpl. eexists. split; [reflexivity|].
  match goal with |- store_ok ?st /\ _ => set (s' := st) end.
  assert (Hobj' : objects s' = <[b:=B']> (<[a:=A']> (objects s)))
    by (simpl; by rewrite Hobj).
  assert (Hheap' : heap s' = heap s) by done.
  assert (Hnext' : next_block s' = next_block s) by done.
  assert (Hbud' : alloc_budget s' = alloc_budget s) by done.
  assert (Hsame : forall l c, content_of s' l c = content_of s1 l c)
    by (intros l c; by apply content_of_frame).
  clearbody s'.
  split; [|split; [|split; [|split; [|done]]]].
  - eapply (store_ok_update2 s s' b a B' A'); [done | done | done | | | | | |].
    + intros q Hq. rewrite Hheap'. apply Hfresh. by rewrite <- Hnext'.
    + unfold wf_any. rewrite Hsame, HcB. by eapply Hwf.
    + unfold wf_any. rewrite Hsame, HcA. by eapply Hwf.
    + intros q. rewrite HoA, HoB. intros H1 H2. by apply Hne, (Hshare b a B A q).
    + intros x c q Hxb Hxa Hx Ho. rewrite Hheap'. split; [done|].
      rewrite HoA, HoB. split; intros Hc.
      * by apply Hxa, (Hshare x a c A q).
      * by apply Hxb, (Hshare x b c B q).
    + intros q. rewrite Hheap'. intros Hq.
      destruct (Hown q Hq) as (x & c & Hx & Ho).
      destruct (decide (x = a)) as [->|Hxa].
      { left. rewrite Ha in Hx. injection Hx as <-. by rewrite HoB. }
      destruct (decide (x = b)) as [->|Hxb].
      { right; left. rewrite Hb in Hx. injection Hx as <-. by rewrite HoA. }
      right; right. by exists x, c.
  - unfold content_at. rewrite Hobj', lookup_insert_ne, lookup_insert_eq by done.
    rewrite Hb. simpl. by rewrite Hsame, HcA.
  - unfold content_at. rewrite Hobj', lookup_insert_eq.
    rewrite Ha. simpl. by rewrite Hsame, HcB.
  - intros x Hxa Hxb. unfold content_at. rewrite Hobj'.
    rewrite !lookup_insert_ne by done.
    destruct (objects s !! x) as [cx|] eqn:Hcx; [|done]. simpl. f_equal.
    apply content_of_frame. intros p _. by rewrite Hheap'.
Qed.

Lemma swap_keeps_store_ok_witness :
  exists s',
    swap 0 1 two_heap_strings = Ok tt s' /\ store_ok s' /\
    content_at s' 0 = Some (holding string_t 34) /\
    content_at s' 1 = Some (holding string_t 12).
Proof.
  destruct (swap_keeps_store_ok 0 1 (mk_any 16 (info_of string_t) (ptr 5))
              (mk_any 16 (info_of string_t) (ptr 6)) two_heap_strings)
    as (s' & H1 & H2 & H3 & H4 & _).
  - exact store_ok_two_heap_strings.
  - lia.
  - reflexivity.
  - reflexivity.
  - reflexivity.
  - left. reflexivity.
  - exists s'. split; [exact H1|]. split; [exact H2|]. split.
    + rewrite H3. reflexivity.
    + rewrite H4. reflexivity.
Defined.

(** ** Round trips *)

(** X15. [reset] twice is [reset] once: the second call finds the container
    empty and changes nothing, so the contained value's destructor runs
    exactly once. *)
Theorem reset_is_idempotent (a : addr) (c : sized_any) (s : state) :
  objects s !! a = Some c ->
  wf_any s (in_buffer a) c ->
  exists s',
    reset a s = Ok tt s' /\
    (let* _ := reset a in reset a) s = Ok tt s' /\
    content_at s' a = Some empty /\
    trace s' = trace s ++ release_events (in_buffer a) c.
Proof.
  intros Ha Hwf.
  destruct (reset_runs a c s Ha Hwf)
    as (s' & c' & Hr & Ho & Hi & _ & _ & _ & Ht & _ & _ & Hagain).
  exists s'. split; [done|]. split; [|split; [|done]].
  - by erewrite bind_Ok by exact Hr.
  - unfold content_at. rewrite Ho, lookup_insert_eq. simpl.
    unfold content_of. by rewrite Hi.
Qed.

Lemma reset_is_idempotent_witness :
  exists s',
    (let* _ := reset 0 in reset 0) heap_string_at_0 = Ok tt s' /\
    trace s' = [ev_dtor string_t (on_heap 5); ev_free 5].
Proof.
  destruct (reset_is_idempotent 0 (mk_any 16 (info_of string_t) (ptr 5))
              heap_string_at_0)
    as (s' & _ & H1 & _ & H2).
  - reflexivity.
  - vm_compute. discriminate.
  - exists s'. split; assumption.
Defined.

(** X16. Copying a container and destroying the copy restores the containers
    and the free store, and the source still holds its value: the copy
    never shares a block with its source. *)
Theorem copy_then_destroy_restores (N : nat) (a src : addr) (other : sized_any)
    (s : state) :
  objects s !! src = Some other ->
  objects s !! a = None ->
  wf_any s (in_buffer src) other ->
  heap_fresh s ->
  (needsAlloc (info other) N = true -> 0 < alloc_budget s) ->
  exists s',
    (let* _ := construct_copy N a src in destructor a) s = Ok tt s' /\
    objects s' = objects s /\ heap s' = heap s /\
    content_at s' src = content_at s src.
Proof.
  intros Hsrc Ha Hwf Hfresh Hbudget.
  destruct (construct_copy_runs N a src other s)
    as (s1 & c & Hrun & Hobj & _ & _ & Hcont & _ & _ & Hold & Hnew & Hall & _);
    [done | done | done | done | done |].
  assert (Hc : objects s1 !! a = Some c) by (rewrite Hobj; apply lookup_insert_eq).
  assert (Hwfc : wf_any s1 (in_buffer a) c) by (unfold wf_any; by rewrite Hcont).
  destruct (reset_runs a c s1 Hc Hwfc)
    as (s2 & c' & Hr & Ho2 & _ & _ & _ & Hh2 & _ & _ & _ & _).
  erewrite bind_Ok by exact Hrun. unfold destructor.
  erewrite bind_Ok by exact Hr. unfold forget. eexists. split; [reflexivity|].
  simpl.
  assert (Hobjs : delete a (objects s2) = objects s).
  { rewrite Ho2, Hobj, !delete_insert_eq. by apply delete_id. }
  assert (Hheap : heap s2 = heap s).
  { rewrite Hh2. apply map_eq. intros p. rewrite lookup_heap_without.
    case_decide as Hown.
    - symmetry. by apply Hnew.
    - destruct (heap s !! p) as [blk|] eqn:Hp;
        [rewrite <- Hp; apply Hold; by rewrite Hp|].
      destruct (heap s1 !! p) as [blk|] eqn:Hp1; [|done].
      destruct (Hall p) as [[? Hlive] | Ho]; [by rewrite Hp1 | congruence | done]. }
  split; [done|]. split; [done|].
  unfold content_at. simpl. rewrite Hobjs, Hsrc. simpl. f_equal.
  apply content_of_frame. intros p _. simpl. by rewrite Hheap.
Qed.

Lemma copy_then_destroy_restores_witness :
  exists s',
    (let* _ := construct_copy 16 2 0 in destructor 2) two_heap_strings
    = Ok tt s' /\
    objects s' = objects two_heap_strings /\ heap s' = heap two_heap_strings.
Proof.
  destruct (copy_then_destroy_restores 16 2 0
              (mk_any 16 (info_of string_t) (ptr 5)) two_heap_strings)
    as (s' & H1 & H2 & H3 & _).
  - reflexivity.
  - reflexivity.
  - vm_compute. discriminate.
  - apply store_ok_two_heap_strings.
  - intros _. simpl. lia.
  - exists s'. repeat split; assumption.
Defined.

(** X17. What move construction allocates and frees: it allocates exactly one
    block when the value was in place and needs one at the new capacity, and
    none otherwise; a block owned by the source is handed over untouched
    when the value is heap-backed at the new capacity too, and is
    deallocated when the value moves into the new buffer; no other block
    changes. *)
Theorem move_construction_allocation (N : nat) (a src : addr) (other : sized_any)
    (s : state) :
  objects s !! src = Some other ->
  a <> src ->
  wf_any s (in_buffer src) other ->
  heap_fresh s ->
  (needsAlloc (info other) N = true ->
   needsAlloc (info other) (capacity other) = false -> 0 < alloc_budget s) ->
  exists s',
    construct_move N a src s = Ok tt s' /\
    alloc_budget s =
      (if needsAlloc (info other) N && negb (needsAlloc (info other) (capacity other))
       then 1 else 0) + alloc_budget s' /\
    (forall q, owned_block other = Some q ->
       if needsAlloc (info other) N
       then heap s' !! q = heap s !! q /\
            exists c, objects s' !! a = Some c /\ owned_block c = Some q
       else heap s' !! q = None) /\
    (forall q, is_Some (heap s !! q) -> owned_block other <> Some q ->
       heap s' !! q = heap s !! q).
Proof.
  intros Hsrc Hne Hwf Hfresh Hbudget.
  destruct (construct_move_runs N a src other s)
    as (s' & c & o & Hrun & Hobj & _ & _ & _ & _ & _ & _
        & Hold & Hgone & _ & Hbud & _ & Hkeep);
    [done | done | done | done | done |].
  exists s'. split; [done|]. split; [done|]. split.
  - intros q Hq. destruct (needsAlloc (info other) N) eqn:HN.
    + split.
      * apply Hold; [by eapply wf_owned_live | by right].
      * exists c. rewrite Hobj, lookup_insert_eq. split; [done|]. by apply Hkeep.
    + by apply Hgone.
  - intros q Hq Hno. apply Hold; [done | by left].
Qed.

Lemma move_construction_allocation_witness :
  exists s',
    construct_move 64 2 0 two_heap_strings = Ok tt s' /\
    alloc_budget s' = 1 /\ heap s' !! 5 = None.
Proof.
  destruct (move_construction_allocation 64 2 0
              (mk_any 16 (info_of string_t) (ptr 5)) two_heap_strings)
    as (s' & H1 & H2 & H3 & _).
  - reflexivity.
  - lia.
  - vm_compute. discriminate.
  - apply store_ok_two_heap_strings.
  - intros Hn. vm_compute in Hn. discriminate.
  - exists s'. split; [exact H1|]. split.
    + simpl in H2. lia.
    + apply (H3 5). reflexivity.
Defined.

(** X18. Moving a value into a container of any other capacity and on into one
    of the original capacity preserves it: the last container holds what the
    first held, the two others are empty, and the ownership invariant is
    kept. *)
Theorem move_there_and_back (N : nat) (a b src : addr) (other : sized_any)
    (s : state) :
  store_ok s ->
  objects s !! src = Some other ->
  objects s !! a = None -> objects s !! b = None -> a <> b ->
  (needsAlloc (info other) N <> needsAlloc (info other) (capacity other) ->
   0 < alloc_budget s) ->
  exists s',
    (let* _ := construct_move N a src in
     construct_move (capacity other) b a) s = Ok tt s' /\
    store_ok s' /\
    content_at s' b = content_at s src /\
    content_at s' a = Some empty /\
    content_at s' src = Some empty.
Proof.
  intros Hok Hsrc Ha Hb Hab Hbudget.
  assert (Has : a <> src) by (intros ->; congruence).
  assert (Hbs : b <> src) by (intros ->; congruence).
  assert (Hb1 : needsAlloc (info other) N = true ->
                needsAlloc (info other) (capacity other) = false ->
                0 < alloc_budget s).
  { intros H1 H2. apply Hbudget. by rewrite H1, H2. }
  destruct (construct_move_runs N a src other s)
    as (s1 & c & o & Hrun & Hobj & Hcap & Hinfo & _ & _ & _ & _
        & _ & _ & _ & Hbud & _ & _);
    [done | done | by eapply store_ok_wf | by apply store_ok_fresh | done |].
  destruct (move_construction_keeps N a src other s)
    as (s1' & Hrun' & Hok1 & Hca & Hcs); [done | done | done | done |].
  rewrite Hrun in Hrun'. injection Hrun' as <-.
  assert (Hc : objects s1 !! a = Some c) by (rewrite Hobj; apply lookup_insert_eq).
  assert (Hb' : objects s1 !! b = None).
  { rewrite Hobj, !lookup_insert_ne by done. done. }
  destruct (move_construction_keeps (capacity other) b a c s1)
    as (s2 & Hrun2 & Hok2 & Hcb & Hca2); [done | done | done | |].
  { rewrite Hinfo, Hcap. intros H1 H2.
    rewrite H1, H2 in Hbud. simpl in Hbud. rewrite <- Hbud.
    apply Hbudget. by rewrite H1, H2. }
  exists s2. split; [by erewrite bind_Ok by exact Hrun|].
  split; [done|]. split; [by rewrite Hcb, Hca|]. split; [done|].
  (* the source is still empty *)
  destruct (construct_move_runs (capacity other) b a c s1)
    as (s2' & c2 & o2 & Hrun2' & Hobj2 & _ & _ & _ & _ & _ & _
        & _ & _ & _ & _ & _ & _);
    [done | done | by eapply store_ok_wf | by apply store_ok_fresh | |].
  { rewrite Hinfo, Hcap. intros H1 H2.
    rewrite H1, H2 in Hbud. simpl in Hbud. rewrite <- Hbud.
    apply Hbudget. by rewrite H1, H2. }
  rewrite Hrun2 in Hrun2'. injection Hrun2' as <-.
  unfold content_at in *. rewrite Hobj2, !lookup_insert_ne by done.
  rewrite Hobj, lookup_insert_ne, lookup_insert_eq in Hcs |- * by done.
  simpl in *. unfold content_of in *. injection Hcs as Hcs.
  destruct (info o); [done|].
  by destruct (stored s1 (in_buffer src) T (capacity o) (buff o)).
Qed.

Lemma move_there_and_back_witness :
  exists s',
    (let* _ := construct_move 64 2 0 in construct_move 16 3 2) two_heap_strings
    = Ok tt s' /\
    store_ok s' /\ content_at s' 3 = Some (holding string_t 12).
Proof.
  destruct (move_there_and_back 64 2 3 0
              (mk_any 16 (info_of string_t) (ptr 5)) two_heap_strings)
    as (s' & H1 & H2 & H3 & _).
  - exact store_ok_two_heap_strings.
  - reflexivity.
  - reflexivity.
  - reflexivity.
  - lia.
  - intros _. simpl. lia.
  - exists s'. split; [exact H1|]. split; [exact H2|].
    rewrite H3. reflexivity.
Defined.

(** ** The factory functions *)

(** X19. The capacity [make_sized_any<T>] chooses is at least the size of a
    pointer, is the least such capacity that has room for a [T], and makes
    [T] optimized exactly when [T] is nothrow move constructible (as does
    every larger capacity); for such a [T] the factory builds the value in
    place without allocating, and [any_cast] returns it.  The capacity of
    the older header agrees exactly when [T] is at least as large as a
    pointer. *)
Theorem make_sized_any_fits (T : CType) (a : addr) (v : Z) (s : state) :
  pointer_size <= fit_capacity T /\
  (forall N, pointer_size <= N -> sizeof T <= N -> fit_capacity T <= N) /\
  (forall N, fit_capacity T <= N ->
     sized_any_optimized T N = is_nothrow_move_constructible T) /\
  (is_nothrow_move_constructible T = true ->
   exists s',
     make_sized_any_fit a T v s = Ok tt s' /\
     heap s' = heap s /\ alloc_budget s' = alloc_budget s /\
     content_at s' a = Some (holding T v) /\
     any_cast T a s' = Ok v s') /\
  (Older.fit_capacity T = fit_capacity T <-> pointer_size <= sizeof T).
Proof.
  assert (Hopt : forall N, fit_capacity T <= N ->
            sized_any_optimized T N = is_nothrow_move_constructible T).
  { intros N HN. unfold sized_any_optimized, NeedsAlloc, fit_capacity in *.
    assert ((N <? sizeof T) = false) as -> by (apply Nat.ltb_ge; lia).
    simpl. apply negb_involutive. }
  unfold fit_capacity in *. split; [lia|]. split; [intros N; lia|].
  split; [done|]. split; [|unfold Older.fit_capacity; lia].
  intros Hmv.
  assert (HN : NeedsAlloc T (Nat.max (sizeof T) pointer_size) = false).
  { specialize (Hopt _ (Nat.le_refl _)). unfold sized_any_optimized in Hopt.
    rewrite Hmv in Hopt. by apply negb_true_iff. }
  unfold make_sized_any_fit, make_sized_any, fit_capacity, construct_value,
    ctor_value.
  rewrite HN. unfold bind, emit, put. simpl.
  eexists. split; [reflexivity|]. simpl. split; [done|]. split; [done|].
  assert (Hc : forall s0 : state,
            content_of s0 (in_buffer a)
              (mk_any (Nat.max (sizeof T) pointer_size) (info_of T)
                 (obj T v (in_buffer a))) = holding T v).
  { intros s0. unfold content_of. simpl. by rewrite stored_inline_intro. }
  split.
  - unfold content_at. simpl. rewrite lookup_insert_eq. simpl. by rewrite Hc.
  - eapply any_cast_holding; [simpl; apply lookup_insert_eq | apply Hc].
Qed.

Lemma make_sized_any_fits_witness :
  fit_capacity int_t = 8 /\
  exists s',
    make_sized_any_fit 0 int_t 42 (initial 0) = Ok tt s' /\
    any_cast int_t 0 s' = Ok 42%Z s'.
Proof.
  split; [reflexivity|].
  destruct (make_sized_any_fits int_t 0 42 (initial 0)) as (_ & _ & _ & H & _).
  destruct H as (s' & H1 & _ & _ & _ & H2); [reflexivity|].
  exists s'. split; assumption.
Defined.

(** ** The older headers *)

(** Under the test that guards it in [emplace], [destroy] is
    [DestructReuseHeap]. *)
Lemma older_destroy_reuse i l b cap s :
  needsAlloc i cap = true ->
  Older.destroy i l b cap s = destructReuseHeap i b s.
Proof.
  destruct i as [|T]; [done|]. simpl. by intros ->.
Qed.

(** X20. The descriptor of the older headers does what the current one does, on
    every buffer and in every state: [copy] and [move], written with
    [getValueForCopying], [getValueForMoving] and [del], are [Copy] and
    [Move]; [del] is [CleanUp]; and [destroy] is [DestructReuseHeap] at a
    capacity at which the value needs a block. *)
Theorem older_descriptor_agrees (i : ITypeInfo) (lfrom lto : loc) (from to : slot)
    (fromCap toCap : nat) (s : state) :
  Older.copy i lto from to fromCap toCap s = copy i lto from to fromCap toCap s /\
  Older.move i lfrom lto from to fromCap toCap s
  = move i lfrom lto from to fromCap toCap s /\
  Older.del i lfrom from fromCap s = cleanUp i lfrom from fromCap s /\
  (needsAlloc i fromCap = true ->
   Older.destroy i lfrom from fromCap s = destructReuseHeap i from s).
Proof.
  destruct i as [|T]; [done|]. simpl.
  split; [|split; [|split]].
  - unfold Copy, Older.getValueForCopying.
    destruct (NeedsAlloc T toCap), (NeedsAlloc T fromCap); try done;
      destruct from as [|T' v self|p]; try done; unfold bind; simpl;
      by destruct (deref T p s).
  - unfold Move, CleanUp, Older.getValueForMoving.
    destruct (NeedsAlloc T toCap), (NeedsAlloc T fromCap); try done;
      destruct from as [|T' v self|p]; try done; simpl;
      try (destruct (decide (T' = T)) as [->|]; [|done]);
      unfold bind; simpl.
    + by destruct (operator_new move_ctor T v s) as [p s1|e s1|].
    + destruct (deref T p s) as [v s1|e s1|]; [|done|done].
      match goal with |- context [operator_delete T p ?st] =>
        by destruct (operator_delete T p st) end.
    + done.
  - done.
  - apply (older_destroy_reuse (info_of T)).
Qed.

Lemma older_descriptor_agrees_witness :
  Older.destroy (info_of string_t) (in_buffer 0) (ptr 5) 16 heap_string_at_0
  = destructReuseHeap (info_of string_t) (ptr 5) heap_string_at_0.
Proof.
  destruct (older_descriptor_agrees (info_of string_t) (in_buffer 0) (in_buffer 1)
              (ptr 5) raw 16 16 heap_string_at_0) as (_ & _ & _ & H).
  apply H. reflexivity.
Defined.

Lemma set_objects_insert_id a c s :
  objects s !! a = Some c -> set_objects (<[a := c]> (objects s)) s = s.
Proof.
  intros Ha. unfold set_objects. rewrite insert_id by done. by destruct s.
Qed.

(** X21. [emplace] of the older headers, and [reset] and the destructor of
    sized_any.hpp (which call [del] without testing the descriptor), do what
    the current ones do, in every state. *)
Theorem older_container_agrees (T : CType) (v : Z) (a : addr) (s : state) :
  Older.emplace T v a s = emplace T v a s /\
  Older.reset a s = reset a s /\
  Older.destructor a s = destructor a s.
Proof.
  split; [|split].
  - unfold Older.emplace, emplace, bind, get.
    destruct (objects s !! a) as [c|]; [|done].
    destruct (NeedsAlloc T (capacity c)); [|done].
    destruct (needsAlloc (info c) (capacity c)) eqn:HN; [|done]. simpl.
    destruct (size (info c) =? Size T); [|done].
    by rewrite older_destroy_reuse.
  - unfold Older.reset, reset, bind, get.
    destruct (objects s !! a) as [c|] eqn:Ha; [|done].
    destruct (decide (info c = info_void)) as [Hv|Hne]; [|done].
    rewrite Hv. simpl. unfold put, ret. f_equal.
    assert (mk_any (capacity c) info_void (buff c) = c) as ->
      by (destruct c; simpl in *; by subst).
    by apply set_objects_insert_id.
  - unfold Older.destructor, destructor, reset, bind, get.
    destruct (objects s !! a) as [c|] eqn:Ha; [|done].
    destruct (decide (info c = info_void)) as [Hv|Hne].
    + rewrite Hv. done.
    + change (Older.del (info c) (in_buffer a) (buff c) (capacity c) s)
        with (cleanUp (info c) (in_buffer a) (buff c) (capacity c) s).
      destruct (cleanUp (info c) (in_buffer a) (buff c) (capacity c) s)
        as [b s1|e s1|]; [|done|done].
      unfold put, forget, set_objects. simpl. by rewrite delete_insert_eq.
Qed.

(** ** Assignment when the types do not agree *)

(** [Move] through the descriptor of [T] on a buffer that holds something
    else. *)
Lemma Move_wrong_slot T lf lt from to cf ct s :
  match from with
  | raw => True
  | obj T' _ _ => NeedsAlloc T cf = true \/ T' <> T
  | ptr _ => NeedsAlloc T cf = false
  end ->
  Move T lf lt from to cf ct s = UB.
Proof.
  unfold Move. destruct from as [|T' v self|p].
  - intros _. by destruct (NeedsAlloc T ct), (NeedsAlloc T cf).
  - intros [-> | Hne].
    + by destruct (NeedsAlloc T ct).
    + destruct (NeedsAlloc T ct), (NeedsAlloc T cf); try done;
        unfold bind; simpl; by rewrite decide_False.
  - intros ->. by destruct (NeedsAlloc T ct).
Qed.

Lemma CleanUp_raw T l cap s : CleanUp T l raw cap s = UB.
Proof. unfold CleanUp. by destruct (NeedsAlloc T cap). Qed.

(** [Move] between two buffers of one capacity, on a well-formed source,
    neither allocates nor fails. *)
Lemma Move_same_capacity T lf lt b to N v s :
  stored s lf T N b = Some v ->
  exists b' t s1,
    Move T lf lt b to N N s = Ok (b', t) s1 /\
    objects s1 = objects s /\
    (if NeedsAlloc T N then exists p, t = ptr p else t = obj T v lt).
Proof.
  intros Hst. destruct (NeedsAlloc T N) eqn:HN.
  - destruct (stored_heap_inv _ _ _ _ _ _ HN Hst) as (p & -> & Hp).
    rewrite Move_heap_heap by done. do 3 eexists. split; [reflexivity|]. eauto.
  - destruct (stored_inline_inv _ _ _ _ _ _ HN Hst) as (self & -> & _).
    rewrite Move_inline_inline by done. do 3 eexists. split; [reflexivity|].
    done.
Qed.

(** When the temporary and [*this] do not agree, the third [move] of [swap]
    reads the wrong kind of buffer, or the temporary is destroyed with the
    descriptor of a value it never received. *)
Lemma swap_temporary_into_disagree a tmp This s :
  objects s !! a = Some This ->
  capacity tmp = capacity This ->
  wf_any s in_temporary tmp -> wf_any s (in_buffer a) This ->
  (info tmp = info_void -> buff tmp = raw) ->
  ~ swap_agrees tmp This ->
  swap_temporary_into a tmp s = UB.
Proof.
  intros Ha Hcap Hwft HwfT Hraw Hno.
  unfold swap_temporary_into. erewrite bind_Ok by (by apply get_Some).
  unfold swap_values. rewrite Hcap.
  destruct (wf_any_inv _ _ _ Hwft) as [Hvt | (TA & va & HTA & HstA)];
  destruct (wf_any_inv _ _ _ HwfT) as [HvT | (TB & vb & HTB & HstB)].
  - destruct Hno. left. congruence.
  - (* the temporary is empty *)
    rewrite Hvt, HTB, (Hraw Hvt). simpl.
    destruct (Move_same_capacity TB (in_buffer a) in_swap_tmp (buff This) raw
                (capacity This) vb s HstB) as (b' & t & s1 & Hm & _ & _).
    unfold bind at 1. unfold bind at 1. unfold bind at 1. rewrite Hm. simpl.
    unfold bind, ret, put, reset_at. simpl. unfold bind.
    by rewrite CleanUp_raw.
  - (* [*this] is empty *)
    rewrite HTA, HvT. simpl. rewrite Hcap in HstA.
    unfold bind at 1. unfold bind at 1. simpl. unfold ret at 1.
    destruct (Move_same_capacity TA in_temporary (in_buffer a) (buff tmp)
                (buff This) (capacity This) va s HstA) as (b' & t & s1 & Hm & _ & _).
    unfold bind at 1. unfold bind at 1. rewrite Hm. simpl.
    unfold bind. by rewrite Move_wrong_slot.
  - rewrite HTA, HTB. simpl. rewrite Hcap in HstA.
    assert (Hne : TA <> TB).
    { intros ->. destruct Hno. left. congruence. }
    destruct (Move_same_capacity TB (in_buffer a) in_swap_tmp (buff This) raw
                (capacity This) vb s HstB) as (b1 & t & s1 & Hm1 & Ho1 & Ht).
    unfold bind at 1. unfold bind at 1. unfold bind at 1. rewrite Hm1. simpl.
    assert (HstA1 : exists b2 t2 s2,
              Move TA in_temporary (in_buffer a) (buff tmp) b1
                (capacity This) (capacity This) s1 = Ok (b2, t2) s2).
    { destruct (NeedsAlloc TA (capacity This)) eqn:HNA.
      - destruct (stored_heap_inv _ _ _ _ _ _ HNA HstA) as (p & -> & Hp).
        rewrite Move_heap_heap by done. eauto.
      - destruct (stored_inline_inv _ _ _ _ _ _ HNA HstA) as (self & -> & _).
        rewrite Move_inline_inline by done. eauto. }
    destruct HstA1 as (b2 & t2 & s2 & Hm2).
    unfold bind at 1. unfold bind at 1. rewrite Hm2. simpl.
    unfold bind. rewrite Move_wrong_slot; [done|].
    destruct (NeedsAlloc TB (capacity This)) eqn:HNB.
    + destruct Ht as (p & ->).
      destruct (NeedsAlloc TA (capacity This)) eqn:HNA; [|done].
      destruct Hno. right. rewrite HTA, HTB, Hcap. simpl. by rewrite HNA, HNB.
    + rewrite Ht. right. congruence.
Qed.

Lemma ctor_copy_of_empty N l R s tmp s1 :
  info R = info_void -> ctor_copy N l R s = Ok tmp s1 -> buff tmp = raw.
Proof.
  intros Hv. unfold ctor_copy. rewrite Hv. simpl. unfold bind, ret.
  by intros [= <- _].
Qed.

Lemma ctor_move_of_empty N lo l R s tmp R' s1 :
  info R = info_void -> ctor_move N lo l R s = Ok (tmp, R') s1 -> buff tmp = raw.
Proof.
  intros Hv. unfold ctor_move. rewrite Hv. simpl. unfold bind, ret.
  by intros [= <- _ _].
Qed.

Lemma store_ok_with_wf s tmp a c :
  store_ok_with s tmp -> objects s !! a = Some c ->
  wf_any s in_temporary tmp /\ wf_any s (in_buffer a) c.
Proof.
  intros (_ & Hwf & Hwft & _) Ha. split; [done | by eapply Hwf].
Qed.

(** X22. Assignment when the types do not agree (different contained types, not
    both heap-backed at the capacity of [*this], the empty container
    counting as a type of its own): copy assignment, move assignment and
    assignment of a value are undefined, because the [swap] that ends them
    moves the old value of [*this] through the descriptor of the new one. *)
Theorem assignment_needs_agreement (k : ctor_kind) (a rhs : addr) (T : CType)
    (v : Z) (This R : sized_any) (s : state) :
  store_ok s ->
  rhs <> a ->
  objects s !! a = Some This -> objects s !! rhs = Some R ->
  0 < alloc_budget s ->
  (~ (info R = info This \/
      (needsAlloc (info R) (capacity This) = true /\
       needsAlloc (info This) (capacity This) = true)) ->
   (if decide (capacity R = capacity This)
    then copy_assign a rhs s else copy_assign_cross a rhs s) = UB /\
   (if decide (capacity R = capacity This)
    then move_assign a rhs s else move_assign_cross a rhs s) = UB) /\
  (~ (info_of T = info This \/
      (NeedsAlloc T (capacity This) = true /\
       needsAlloc (info This) (capacity This) = true)) ->
   value_assign k a T v s = UB).
Proof.
  intros Hok Hne Ha Hr Hbudget. split.
  - intros Hno. split.
    + destruct (ctor_copy_builds (capacity This) rhs R s)
        as (tmp & s1 & Hbuild & Hok1 & Hobj1 & Hct & Hit & _);
        [done | done | done |].
      assert (Ha1 : objects s1 !! a = Some This) by by rewrite Hobj1.
      destruct (store_ok_with_wf _ _ _ _ Hok1 Ha1) as [Hwft HwfT].
      assert (Hbody : copy_assign_cross a rhs s = UB).
      { unfold copy_assign_cross.
        erewrite bind_Ok by (by apply get_Some).
        erewrite bind_Ok by (by apply get_Some).
        erewrite bind_Ok by exact Hbuild.
        apply (swap_temporary_into_disagree a tmp This s1); try done.
        - intros Hv. rewrite Hit in Hv. by eapply ctor_copy_of_empty.
        - unfold swap_agrees. by rewrite Hit, Hct. }
      case_decide; [|done]. unfold copy_assign. by rewrite decide_False.
    + destruct (ctor_move_builds (capacity This) rhs R s)
        as (tmp & R' & s1 & s2 & Hbuild & Hput & Hok2 & Hobj2 & Hct & Hit & _);
        [done | done | done |].
      assert (Ha2 : objects s2 !! a = Some This)
        by by rewrite Hobj2, lookup_insert_ne.
      destruct (store_ok_with_wf _ _ _ _ Hok2 Ha2) as [Hwft HwfT].
      assert (Hbody : move_assign_cross a rhs s = UB).
      { unfold move_assign_cross.
        erewrite bind_Ok by (by apply get_Some).
        erewrite bind_Ok by (by apply get_Some).
        erewrite bind_Ok by exact Hbuild. simpl.
        erewrite bind_Ok by exact Hput.
        apply (swap_temporary_into_disagree a tmp This s2); try done.
        - intros Hv. rewrite Hit in Hv. by eapply ctor_move_of_empty.
        - unfold swap_agrees. by rewrite Hit, Hct. }
      case_decide; [|done]. unfold move_assign. by rewrite decide_False.
  - intros Hno.
    destruct (ctor_value_builds k (capacity This) T v s)
      as (tmp & s1 & Hbuild & Hok1 & Hobj1 & Hct & Hit & _);
      [done | done |].
    assert (Ha1 : objects s1 !! a = Some This) by by rewrite Hobj1.
    destruct (store_ok_with_wf _ _ _ _ Hok1 Ha1) as [Hwft HwfT].
    unfold value_assign.
    erewrite bind_Ok by (by apply get_Some).
    erewrite bind_Ok by exact Hbuild.
    apply (swap_temporary_into_disagree a tmp This s1); try done.
    + by rewrite Hit.
    + unfold swap_agrees. by rewrite Hit, Hct.
Qed.

Lemma assignment_needs_agreement_witness :
  copy_assign 0 1 int_and_double = UB /\
  move_assign 0 1 int_and_double = UB /\
  value_assign copy_ctor 0 double_t 2 int_and_double = UB.
Proof.
  destruct (assignment_needs_agreement copy_ctor 0 1 double_t 2
              (mk_any 32 (info_of int_t) (obj int_t 7 (in_buffer 0)))
              (mk_any 32 (info_of double_t) (obj double_t 2 (in_buffer 1)))
              int_and_double)
    as (H1 & H2).
  - exact store_ok_int_and_double.
  - lia.
  - reflexivity.
  - reflexivity.
  - simpl. lia.
  - destruct H1 as (H1 & H1').
    { intros [H | [H _]]; vm_compute in H; discriminate. }
    split; [exact H1|]. split; [exact H1'|].
    apply H2. intros [H | [H _]]; vm_compute in H; discriminate.
Defined.

(** ** Assignment in sized_any.hpp *)

(** X23. In sized_any.hpp, assigning an empty container (by copy or by move) to
    one that holds a value only resets the descriptor: no destructor runs
    and the free store is unchanged, so a heap-backed value is left in a
    block that no container owns. *)
Theorem older_assign_from_empty_leaks (a rhs : addr) (This R : sized_any)
    (s : state) :
  store_ok s ->
  rhs <> a ->
  objects s !! a = Some This -> objects s !! rhs = Some R ->
  info R = info_void ->
  info This <> info_void ->
  exists s',
    Older.copy_assign a rhs s = Ok tt s' /\
    Older.move_assign a rhs s = Ok tt s' /\
    content_at s' a = Some empty /\
    trace s' = trace s /\ heap s' = heap s /\
    (needsAlloc (info This) (capacity This) = true -> ~ store_ok s').
Proof.
  intros Hok Hne Ha Hr Hv Hhas.
  set (This' := mk_any (capacity This) info_void (buff This)).
  exists (set_objects (<[a := This']> (objects s)) s).
  assert (Hcopy : Older.copy_assign a rhs s
                  = Ok tt (set_objects (<[a := This']> (objects s)) s)).
  { unfold Older.copy_assign, Older.copy_assign_cross.
    rewrite decide_False by done.
    erewrite bind_Ok by (by apply get_Some).
    erewrite bind_Ok by (by apply get_Some).
    rewrite Hv. simpl. unfold bind at 1. simpl.
    unfold Older.set_info. by erewrite bind_Ok by (by apply get_Some). }
  split; [done|]. split; [|split; [|split; [done|split; [done|]]]].
  - unfold Older.move_assign, Older.move_assign_cross.
    rewrite decide_False by done.
    erewrite bind_Ok by (by apply get_Some).
    erewrite bind_Ok by (by apply get_Some).
    rewrite Hv. simpl. unfold bind at 1. simpl.
    unfold Older.set_info.
    erewrite bind_Ok by (erewrite bind_Ok by (by apply get_Some); reflexivity).
    erewrite bind_Ok
      by (apply get_Some; simpl; by rewrite lookup_insert_ne).
    unfold put. simpl. f_equal. unfold set_objects. simpl. f_equal.
    apply insert_id. rewrite lookup_insert_ne by done.
    rewrite Hr. f_equal. destruct R; simpl in *; by subst.
  - unfold content_at. simpl. by rewrite lookup_insert_eq.
  - intros HN (_ & _ & _ & Hown). simpl in Hown.
    pose proof Hok as (_ & Hwf & Hshare & _).
    assert (Ho : exists p, owned_block This = Some p).
    { unfold owned_block. rewrite HN.
      destruct (wf_any_inv _ _ _ (Hwf a This Ha)) as [? | (T & v & HT & Hst)];
        [done|].
      rewrite HT in HN. simpl in HN.
      destruct (stored_heap_inv _ _ _ _ _ _ HN Hst) as (p & -> & _). eauto. }
    destruct Ho as (p & Ho).
    destruct (Hown p) as (x & c & Hx & Hc);
      [exact (store_ok_owner _ _ _ _ Hok Ha Ho)|].
    destruct (decide (x = a)) as [->|Hxa].
    + rewrite lookup_insert_eq in Hx. injection Hx as <-.
      by rewrite owned_block_empty in Hc.
    + rewrite lookup_insert_ne in Hx by done.
      by apply Hxa, (Hshare x a c This p).
Qed.

Lemma older_assign_from_empty_leaks_witness :
  exists s',
    Older.copy_assign 0 1 string_and_empty = Ok tt s' /\
    content_at s' 0 = Some empty /\
    heap s' !! 5 = Some (live string_t 12) /\
    ~ store_ok s'.
Proof.
  destruct (older_assign_from_empty_leaks 0 1
              (mk_any 16 (info_of string_t) (ptr 5)) (mk_any 16 info_void raw)
              string_and_empty)
    as (s' & H1 & _ & H2 & _ & H3 & H4).
  - exact store_ok_string_and_empty.
  - lia.
  - reflexivity.
  - reflexivity.
  - reflexivity.
  - discriminate.
  - exists s'. split; [exact H1|]. split; [exact H2|]. split.
    + rewrite H3. reflexivity.
    + apply H4. reflexivity.
Defined.

Lemma older_destroy_heap U l p u cap s :
  NeedsAlloc U cap = true -> heap s !! p = Some (live U u) ->
  Older.destroy (info_of U) l (ptr p) cap s
  = Ok (ptr p) (set_heap (<[p := dead (sizeof U)]> (heap s))
                  (log [ev_dtor U (on_heap p)] s)).
Proof.
  intros HN Hp. unfold Older.destroy. rewrite HN. unfold bind. simpl.
  unfold destroy_at, bind. rewrite (deref_live _ _ _ _ Hp).
  by unfold emit, ret, log, set_heap.
Qed.

Lemma older_getValue_frame T b cap v l s s' :
  stored s l T cap b = Some v ->
  (forall q, b = ptr q -> NeedsAlloc T cap = true -> heap s' !! q = heap s !! q) ->
  Older.getValueForCopying T b cap s' = Ok v s' /\
  Older.getValueForMoving T b cap s' = Ok v s'.
Proof.
  intros Hst Hf. unfold Older.getValueForCopying, Older.getValueForMoving.
  destruct (NeedsAlloc T cap) eqn:HN.
  - destruct (stored_heap_inv _ _ _ _ _ _ HN Hst) as (q & -> & Hq).
    unfold bind. simpl. rewrite (deref_live T q v s'); [done|].
    by rewrite Hf.
  - destruct (stored_inline_inv _ _ _ _ _ _ HN Hst) as (self & -> & _).
    by rewrite read_obj_same.
Qed.

(** X24. In sized_any.hpp, assignment into a heap-backed container whose value
    has the size of the new one builds the new value in the buffer instead
    of in the block: when the value fits the buffer, copy assignment leaves
    the container broken ([any_cast] is undefined) and the old block
    destroyed but allocated; when it does not fit, copy assignment is
    undefined; and move assignment from a container that holds the value in
    place is always undefined. *)
Theorem older_assign_reuse_breaks (a rhs : addr) (This R : sized_any)
    (U T : CType) (s : state) :
  store_ok s ->
  rhs <> a ->
  objects s !! a = Some This -> objects s !! rhs = Some R ->
  info This = info_of U -> info R = info_of T ->
  NeedsAlloc U (capacity This) = true ->
  NeedsAlloc T (capacity This) = true ->
  sizeof U = sizeof T ->
  (sizeof T <= capacity This ->
   exists s',
     Older.copy_assign_cross a rhs s = Ok tt s' /\
     content_at s' a = Some broken /\
     any_cast T a s' = UB /\
     (forall p, owned_block This = Some p ->
        heap s' !! p = Some (dead (sizeof U)))) /\
  (capacity This < sizeof T -> Older.copy_assign_cross a rhs s = UB) /\
  (NeedsAlloc T (capacity R) = false -> Older.move_assign_cross a rhs s = UB).
Proof.
  intros Hok Hne Ha Hr HiT HiR HNU HNT Hsz.
  pose proof Hok as (_ & Hwf & Hshare & _).
  destruct (wf_any_inv _ _ _ (Hwf a This Ha)) as [? | (U' & u & HU & HstU)];
    [congruence|].
  assert (U' = U) as -> by congruence.
  destruct (wf_any_inv _ _ _ (Hwf rhs R Hr)) as [? | (T' & v & HT & HstT)];
    [congruence|].
  assert (T' = T) as -> by congruence.
  destruct (stored_heap_inv _ _ _ _ _ _ HNU HstU) as (p & HbT & Hp).
  assert (HoT : owned_block This = Some p).
  { apply owned_block_Some. by rewrite HiT. }
  set (N := capacity This) in *.
  set (s1 := set_heap (<[p := dead (sizeof U)]> (heap s))
               (log [ev_dtor U (on_heap p)] s)).
  set (s2 := set_objects (<[a := mk_any N (info This) (ptr p)]> (objects s1)) s1).
  assert (Hdestroy : Older.destroy_buff (info_of U) a N s = Ok tt s2).
  { unfold Older.destroy_buff. erewrite bind_Ok by (by apply get_Some).
    rewrite HbT. erewrite bind_Ok by (by apply (older_destroy_heap U _ p u)).
    unfold Older.write_buff. by erewrite bind_Ok by (by apply get_Some). }
  assert (Hr2 : get rhs s2 = Ok R s2).
  { apply get_Some. simpl. by rewrite lookup_insert_ne. }
  assert (Hval : Older.getValueForCopying T (buff R) (capacity R) s2 = Ok v s2 /\
                 Older.getValueForMoving T (buff R) (capacity R) s2 = Ok v s2).
  { apply (older_getValue_frame T (buff R) (capacity R) v (in_buffer rhs) s s2);
      [done|].
    intros q Hq HN. simpl. apply lookup_insert_ne. intros <-.
    apply Hne, (Hshare rhs a R This p); try done.
    apply owned_block_Some. by rewrite HiR. }
  destruct Hval as [Hcopy Hmove].
  assert (Htest : needsAlloc (info_of U) N && (size (info_of U) =? Size T) = true).
  { simpl. rewrite HNU. simpl. apply Nat.eqb_eq. by unfold Size. }
  split; [|split].
  - intros Hfit.
    assert (Hrepl : exists s3,
              Older.replCopy (info_of T) rhs a (info_of U) (capacity R) N s
              = Ok tt s3 /\
              objects s3 !! a
              = Some (mk_any N (info This) (obj T v (in_buffer a))) /\
              heap s3 = heap s1).
    { unfold Older.replCopy. rewrite HNT, Htest.
      erewrite bind_Ok by exact Hdestroy.
      erewrite bind_Ok by exact Hr2.
      erewrite bind_Ok by exact Hcopy.
      unfold Older.placement_new.
      assert ((sizeof T <=? N) = true) as -> by (by apply Nat.leb_le).
      unfold bind, emit, Older.write_buff, bind, get, put. simpl.
      rewrite lookup_insert_eq. simpl.
      eexists. split; [reflexivity|]. simpl.
      by rewrite lookup_insert_eq. }
    destruct Hrepl as (s3 & Hrepl & Ha3 & Hh3).
    unfold Older.copy_assign_cross.
    erewrite bind_Ok by (by apply get_Some).
    erewrite bind_Ok by (by apply get_Some).
    rewrite HiR, HiT. fold N.
    erewrite bind_Ok by exact Hrepl.
    unfold Older.set_info. erewrite bind_Ok by (by apply get_Some).
    unfold put. simpl.
    eexists. split; [reflexivity|].
    split; [|split].
    + unfold content_at. simpl. rewrite lookup_insert_eq. simpl.
      unfold content_of, stored. simpl. by rewrite HNT.
    + unfold any_cast, any_cast_ptr, bind, get. simpl. rewrite lookup_insert_eq.
      simpl. rewrite decide_False by (intros H; by apply H). by rewrite HNT.
    + intros q Hq. rewrite HoT in Hq. injection Hq as <-. simpl.
      rewrite Hh3. apply lookup_insert_eq.
  - intros Hbig. unfold Older.copy_assign_cross.
    erewrite bind_Ok by (by apply get_Some).
    erewrite bind_Ok by (by apply get_Some).
    rewrite HiR, HiT. fold N. unfold Older.replCopy. rewrite HNT, Htest.
    unfold bind at 1. unfold bind at 1. rewrite Hdestroy.
    unfold bind at 1. rewrite Hr2.
    unfold bind at 1. rewrite Hcopy.
    unfold Older.placement_new.
    by assert ((sizeof T <=? N) = false) as -> by (apply Nat.leb_gt; lia).
  - intros HNR. unfold Older.move_assign_cross.
    rewrite decide_False by done.
    erewrite bind_Ok by (by apply get_Some).
    erewrite bind_Ok by (by apply get_Some).
    rewrite HiR, HiT. fold N. unfold Older.replMove. rewrite HNT, HNR, Htest.
    unfold bind at 1. unfold bind at 1. unfold bind at 1. rewrite Hdestroy.
    unfold bind at 1. rewrite Hr2.
    unfold bind at 1. rewrite Hmove.
    unfold Older.placement_new.
    assert ((sizeof T <=? N) = false) as ->; [|done].
    apply Nat.leb_gt.
    apply NeedsAlloc_true_iff in HNT as [Hgt | Hmv]; [lia|].
    unfold NeedsAlloc in HNR. rewrite Hmv in HNR. simpl in HNR.
    by rewrite orb_true_r in HNR.
Qed.

Lemma older_assign_reuse_breaks_witness :
  exists s',
    Older.copy_assign_cross 0 1 two_heap_throwing = Ok tt s' /\
    content_at s' 0 = Some broken /\
    any_cast throwing_move_t 0 s' = UB /\
    heap s' !! 5 = Some (dead 8).
Proof.
  destruct (older_assign_reuse_breaks 0 1
              (mk_any 16 (info_of throwing_move_t) (ptr 5))
              (mk_any 16 (info_of throwing_move_t) (ptr 6))
              throwing_move_t throwing_move_t two_heap_throwing)
    as (H & _ & _).
  - exact store_ok_two_heap_throwing.
  - lia.
  - reflexivity.
  - reflexivity.
  - reflexivity.
  - reflexivity.
  - reflexivity.
  - reflexivity.
  - reflexivity.
  - destruct H as (s' & H1 & H2 & H3 & H4); [simpl; lia|].
    exists s'. split; [exact H1|]. split; [exact H2|]. split; [exact H3|].
    apply (H4 5). reflexivity.
Defined.

Lemma older_del_buff_runs i a This s :
  objects s !! a = Some This ->
  info This = i ->
  wf_any s (in_buffer a) This ->
  exists b1,
    Older.del_buff i a (capacity This) s
    = Ok tt (mk_state (<[a := mk_any (capacity This) i b1]> (objects s))
               (heap_without This (heap s)) (next_block s) (alloc_budget s)
               (trace s ++ release_events (in_buffer a) This)).
Proof.
  intros Ha <- Hwf. destruct (cleanUp_releases _ _ _ Hwf) as (b1 & Hclean & _).
  exists b1. unfold Older.del_buff.
  erewrite bind_Ok by (by apply get_Some).
  change (Older.del (info This) (in_buffer a) (buff This) (capacity This))
    with (cleanUp (info This) (in_buffer a) (buff This) (capacity This)).
  erewrite bind_Ok by exact Hclean.
  unfold Older.write_buff, bind, get, put. simpl. by rewrite Ha.
Qed.

(** X25. In sized_any.hpp, copy assignment from a container that holds a value,
    outside the branch that reuses the block: [*this] then holds what [rhs]
    holds, the other containers are as they were and the ownership
    invariant is kept. *)
Theorem older_copy_assign_replaces (a rhs : addr) (This R : sized_any) (T : CType)
    (s : state) :
  store_ok s ->
  rhs <> a ->
  objects s !! a = Some This -> objects s !! rhs = Some R ->
  info R = info_of T ->
  NeedsAlloc T (capacity This) && needsAlloc (info This) (capacity This)
    && (size (info This) =? Size T) = false ->
  (NeedsAlloc T (capacity This) = true -> 0 < alloc_budget s) ->
  exists s',
    Older.copy_assign a rhs s = Ok tt s' /\
    store_ok s' /\
    content_at s' a = content_at s rhs /\
    (forall x, x <> a -> content_at s' x = content_at s x).
Proof.
  intros Hok Hne Ha Hr HiR Htest Hbudget.
  pose proof Hok as (Hfresh & Hwf & Hshare & Hown).
  destruct (wf_any_inv _ _ _ (Hwf rhs R Hr)) as [? | (T' & v & HT & HstT)];
    [congruence|].
  assert (T' = T) as -> by congruence.
  destruct (older_del_buff_runs (info This) a This s Ha eq_refl (Hwf a This Ha))
    as (b1 & Hdel).
  set (N := capacity This) in *.
  match type of Hdel with _ = Ok tt ?st => set (sB := st) in * end.
  assert (Hr2 : get rhs sB = Ok R sB).
  { apply get_Some. simpl. by rewrite lookup_insert_ne. }
  assert (Hrest : forall x cx q, x <> a ->
            objects s !! x = Some cx -> owned_block cx = Some q ->
            heap_without This (heap s) !! q = heap s !! q).
  { intros x cx q Hx Hcx Ho. rewrite lookup_heap_without.
    rewrite decide_False; [done|]. intros Hc. by apply Hx, (Hshare x a cx This q). }
  assert (Hval : Older.getValueForCopying T (buff R) (capacity R) sB = Ok v sB).
  { apply (older_getValue_frame T (buff R) (capacity R) v (in_buffer rhs) s sB);
      [done|].
    intros q Hq HN. simpl. apply (Hrest rhs R q); [done | done |].
    apply owned_block_Some. by rewrite HiR. }
  assert (Hcont : content_at s rhs = Some (holding T v)).
  { unfold content_at. rewrite Hr. simpl. unfold content_of. by rewrite HiR, HstT. }
  assert (Hlive : forall q, is_Some (heap_without This (heap s) !! q) ->
            exists x c, x <> a /\ objects s !! x = Some c /\ owned_block c = Some q).
  { intros q Hq. rewrite lookup_heap_without in Hq.
    case_decide as Hc; [by destruct Hq|].
    destruct (Hown q Hq) as (x & cx & Hx & Ho).
    exists x, cx. split; [|done]. intros ->. congruence. }
  unfold Older.copy_assign. rewrite decide_False by done.
  unfold Older.copy_assign_cross.
  erewrite bind_Ok by (by apply get_Some).
  erewrite bind_Ok by (by apply get_Some).
  rewrite HiR. fold N. unfold Older.replCopy.
  destruct (NeedsAlloc T N) eqn:HNT.
  - (* a new block *)
    specialize (Hbudget eq_refl).
    simpl in Htest. rewrite Htest.
    destruct (alloc_budget s) as [|n] eqn:Hn; [lia|].
    erewrite bind_Ok.
    2:{ erewrite bind_Ok by exact Hdel.
        erewrite bind_Ok by exact Hr2.
        erewrite bind_Ok by exact Hval.
        unfold bind, new_object, operator_new. simpl.
        unfold Older.write_buff, bind, get, put. simpl.
        rewrite lookup_insert_eq. simpl. reflexivity. }
    unfold Older.set_info, bind, get, put. simpl. rewrite lookup_insert_eq.
    simpl. rewrite !insert_insert_eq.
    eexists. split; [reflexivity|].
    assert (Hst : forall s0 l, heap s0 = <[next_block s := live T v]>
                                           (heap_without This (heap s)) ->
              stored s0 l T N (ptr (next_block s)) = Some v).
    { intros s0 l Hs0. eapply stored_heap_intro; [done|]. rewrite Hs0.
      apply lookup_insert_eq. }
    assert (Hot : owned_block (mk_any N (info_of T) (ptr (next_block s)))
                  = Some (next_block s))
      by (unfold owned_block; simpl; by rewrite HNT).
    assert (Hbelow : forall x cx q, objects s !! x = Some cx ->
              owned_block cx = Some q -> q <> next_block s).
    { intros x cx q Hcx Ho.
      pose proof (store_ok_live_below _ _ Hok (store_ok_owner _ _ _ _ Hok Hcx Ho)).
      lia. }
    split; [|split].
    + eapply (store_ok_update1 s); [done | reflexivity | | | |]; simpl.
      * intros q Hq. simpl in Hq |- *. rewrite lookup_insert_ne by lia.
        rewrite lookup_heap_without. case_decide; [done|]. apply Hfresh. lia.
      * unfold wf_any, content_of. simpl. by rewrite Hst.
      * intros x cx q Hx Hcx Ho. rewrite Hot. split.
        -- rewrite lookup_insert_ne by (symmetry; by eapply Hbelow).
           by eapply Hrest.
        -- intros [= <-]. by eapply Hbelow.
      * intros q Hq. destruct (decide (q = next_block s)) as [->|Hq'].
        { by left. }
        right. rewrite lookup_insert_ne in Hq by done. by apply Hlive.
    + rewrite Hcont. unfold content_at. simpl. rewrite lookup_insert_eq. simpl.
      unfold content_of. simpl. by rewrite Hst.
    + intros x Hx. unfold content_at. simpl. rewrite lookup_insert_ne by done.
      destruct (objects s !! x) as [cx|] eqn:Hcx; [|done]. simpl. f_equal.
      apply content_of_frame. intros q Ho. simpl.
      rewrite lookup_insert_ne by (symmetry; by eapply Hbelow).
      by eapply Hrest.
  - (* in place *)
    assert (Hfit : (sizeof T <=? N) = true).
    { apply Nat.leb_le. unfold NeedsAlloc in HNT.
      apply orb_false_iff in HNT as [HNT _]. apply Nat.ltb_ge in HNT. lia. }
    erewrite bind_Ok.
    2:{ erewrite bind_Ok by exact Hdel.
        erewrite bind_Ok by exact Hr2.
        erewrite bind_Ok by exact Hval.
        unfold Older.placement_new. rewrite Hfit.
        unfold bind, emit, Older.write_buff, bind, get, put. simpl.
        rewrite lookup_insert_eq. simpl. reflexivity. }
    unfold Older.set_info, bind, get, put. simpl. rewrite lookup_insert_eq.
    simpl. rewrite !insert_insert_eq.
    eexists. split; [reflexivity|].
    assert (Hot : owned_block (mk_any N (info_of T) (obj T v (in_buffer a))) = None)
      by (unfold owned_block; simpl; by rewrite HNT).
    split; [|split].
    + eapply (store_ok_update1 s); [done | reflexivity | | | |]; simpl.
      * intros q Hq. simpl in Hq |- *. rewrite lookup_heap_without.
        case_decide; [done|]. by apply Hfresh.
      * unfold wf_any, content_of. simpl. by rewrite stored_inline_intro.
      * intros x cx q Hx Hcx Ho. rewrite Hot. split; [by eapply Hrest | done].
      * intros q Hq. right. by apply Hlive.
    + rewrite Hcont. unfold content_at. simpl. rewrite lookup_insert_eq. simpl.
      unfold content_of. simpl. by rewrite stored_inline_intro.
    + intros x Hx. unfold content_at. simpl. rewrite lookup_insert_ne by done.
      destruct (objects s !! x) as [cx|] eqn:Hcx; [|done]. simpl. f_equal.
      apply content_of_frame. intros q Ho. simpl. by eapply Hrest.
Qed.

Lemma older_copy_assign_replaces_witness :
  exists s',
    Older.copy_assign 1 0 string_and_empty = Ok tt s' /\ store_ok s' /\
    content_at s' 1 = Some (holding string_t 12).
Proof.
  destruct (older_copy_assign_replaces 1 0 (mk_any 16 info_void raw)
              (mk_any 16 (info_of string_t) (ptr 5)) string_t string_and_empty)
    as (s' & H1 & H2 & H3 & _).
  - exact store_ok_string_and_empty.
  - lia.
  - reflexivity.
  - reflexivity.
  - reflexivity.
  - reflexivity.
  - intros _. simpl. lia.
  - exists s'. split; [exact H1|]. split; [exact H2|].
    rewrite H3. reflexivity.
Defined.
